(** * DS_ACVI: the Agro-Climatic Volatility Index and its robustness battery

    A shallow embedding of the index computation ([calculate_acvi.py]),
    the derived daily metrics ([process_and_normalize.py]), the
    sensitivity analyzer ([analys.py]) and the yield validation
    ([validate_acvi.py]), followed by the properties proved about them.

    Numbers.  A Python float is modelled by an exact rational ([Q]); a
    missing value (NaN) in a data column is [None].  Where the code can
    produce NaN (the sub-indices, the cohort normalization and its
    scores, R² and the variance inflation factors, the correlation
    summaries) a float is a [cell], a rational or NaN, and NaN passes
    through the arithmetic and fails every comparison ([Float]).
    Results that the source takes a square root of are kept as their
    radicand.  The
    arithmetic of the one worked scenario of the composite score is also
    replayed bit for bit in IEEE binary64 ([Binary64]).

    Libraries outside the repository (numpy's generator, scikit-learn's
    regression, scipy's Pearson test, and the pandas resampling behind the
    four sub-indices) enter as type classes, so every statement holds for
    whatever these libraries compute. *)

From Stdlib Require Import ZArith QArith Qround Qminmax Qabs Lqa Lia.
From Stdlib Require Import Floats.SpecFloat Ascii.
From stdpp Require Import gmap strings list sorting.

Open Scope Q_scope.

(* ===================================================================== *)
(** * Part I: the embedding *)
(* ===================================================================== *)

(** ** Numeric helpers shared by the modules *)

Module Num.

Definition sum (l : list Q) : Q := foldr Qplus 0 l.

(** [np.mean]: sum over count (the empty mean is NaN in the source; the
    rational quotient by zero is 0 here, and no statement below relies
    on it). *)
Definition mean (l : list Q) : Q := sum l / inject_Z (Z.of_nat (length l)).

Definition Qlt_bool (x y : Q) : bool := negb (Qle_bool y x).

(** [np.clip x lo hi] is [minimum (maximum x lo) hi]. *)
Definition clip (x lo hi : Q) : Q := Qmin (Qmax x lo) hi.

(** Insertion into an ascending list, and [np.sort]. *)
Fixpoint insert_asc (x : Q) (l : list Q) : list Q :=
  match l with
  | [] => [x]
  | y :: l' => if Qle_bool x y then x :: l else y :: insert_asc x l'
  end.

Definition sort (l : list Q) : list Q := foldr insert_asc [] l.

(** [np.percentile a q] with numpy's default linear interpolation: on
    the sorted data the virtual index is [(n - 1) * q / 100]; the result
    interpolates between its two neighbours. *)
Definition percentile (a : list Q) (q : Q) : Q :=
  let s := sort a in
  let h := inject_Z (Z.of_nat (length s - 1)) * q / 100 in
  let lo := Z.to_nat (Qfloor h) in
  let hi := Nat.min (S lo) (length s - 1) in
  let frac := h - inject_Z (Qfloor h) in
  nth lo s 0 + frac * (nth hi s 0 - nth lo s 0).

(** [Series.quantile q], linear interpolation as well. *)
Definition quantile (a : list Q) (q : Q) : Q := percentile a (q * 100).

(** [np.min] and [np.max] of a non-empty array. *)
Definition minimum (l : list Q) : Q :=
  match l with [] => 0 | x :: l' => foldr Qmin x l' end.

Definition maximum (l : list Q) : Q :=
  match l with [] => 0 | x :: l' => foldr Qmax x l' end.

End Num.

(** ** IEEE binary64, for replaying float arithmetic exactly *)

Module Binary64.

Definition prec : Z := 53.
Definition emax : Z := 1024.

Definition of_Z (z : Z) : spec_float :=
  match z with
  | Z0 => S754_zero false
  | Zpos p => binary_normalize prec emax (Zpos p) 0 false
  | Zneg p => binary_normalize prec emax (Zpos p) 0 true
  end.

Definition mul : spec_float -> spec_float -> spec_float := SFmul prec emax.
Definition add : spec_float -> spec_float -> spec_float := SFadd prec emax.

(** A decimal literal [n / d] is the double nearest to the quotient. *)
Definition literal (n d : Z) : spec_float := SFdiv prec emax (of_Z n) (of_Z d).

End Binary64.

(** ** The four components and dictionaries keyed by them *)

Inductive Component : Type :=
| Temperature_volatility
| Precipitation_volatility
| Moisture_stress
| Extreme_events.

#[export] Instance Component_eq_dec : EqDecision Component.
Proof. solve_decision. Defined.

(** A Python dict whose keys are exactly the four component names (a
    weight vector, or the component scores of one location). *)
Record ComponentDict : Type := mkComponentDict {
  temperature_volatility : Q;
  precipitation_volatility : Q;
  moisture_stress : Q;
  extreme_events : Q
}.

Definition get (d : ComponentDict) (c : Component) : Q :=
  match c with
  | Temperature_volatility => temperature_volatility d
  | Precipitation_volatility => precipitation_volatility d
  | Moisture_stress => moisture_stress d
  | Extreme_events => extreme_events d
  end.

(** Four per-component arrays, addressed by component. *)
Definition get_list {A : Type} (a1 a2 a3 a4 : A) (c : Component) : A :=
  match c with
  | Temperature_volatility => a1
  | Precipitation_volatility => a2
  | Moisture_stress => a3
  | Extreme_events => a4
  end.

(** The dict comprehension [{c: f c for c in components}]. *)
Definition comprehension (f : Component -> Q) : ComponentDict :=
  {| temperature_volatility := f Temperature_volatility;
     precipitation_volatility := f Precipitation_volatility;
     moisture_stress := f Moisture_stress;
     extreme_events := f Extreme_events |}.

(** [sum(d.values())], in insertion order. *)
Definition sum_values (d : ComponentDict) : Q :=
  temperature_volatility d + precipitation_volatility d
  + moisture_stress d + extreme_events d.

(** ** Data frames: a date index and named columns of cells *)

Record Date : Type := mkDate { year : Z; month : Z; day : Z }.

Definition cell : Type := option Q.

(** ** Floats: numbers and NaN *)

(** A Python float is a number or NaN ([None], as in a cell).  The
    operations are those of IEEE arithmetic on what is represented:
    every operation on a NaN gives NaN and every comparison with a NaN
    is false.  Infinities are not represented: the numbers are taken of
    a magnitude at which sums and differences do not overflow. *)
Module Float.

Definition NaN : cell := None.

Definition lift2 (f : Q -> Q -> Q) (x y : cell) : cell :=
  match x, y with
  | Some a, Some b => Some (f a b)
  | _, _ => None
  end.

Definition add : cell -> cell -> cell := lift2 Qplus.
Definition sub : cell -> cell -> cell := lift2 Qminus.
Definition mul : cell -> cell -> cell := lift2 Qmult.
(** Used with a divisor that is not zero. *)
Definition div : cell -> cell -> cell := lift2 Qdiv.

(** [x == y], [x < y] and [x >= y]. *)
Definition eqb (x y : cell) : bool :=
  match x, y with
  | Some a, Some b => Qeq_bool a b
  | _, _ => false
  end.

Definition ltb (x y : cell) : bool :=
  match x, y with
  | Some a, Some b => Num.Qlt_bool a b
  | _, _ => false
  end.

Definition geb (x y : cell) : bool :=
  match x, y with
  | Some a, Some b => Qle_bool b a
  | _, _ => false
  end.

(** [np.clip x lo hi]: a NaN stays a NaN. *)
Definition clip (x : cell) (lo hi : Q) : cell :=
  match x with
  | Some a => Some (Num.clip a lo hi)
  | None => None
  end.

(** The numbers of an array, when none of its entries is NaN. *)
Definition numbers (a : list cell) : option (list Q) := mapM id a.

(** [np.percentile a q]: NaN as soon as one entry is NaN. *)
Definition percentile (a : list cell) (q : Q) : cell :=
  match numbers a with
  | Some values => Some (Num.percentile values q)
  | None => None
  end.

(** Python's [max] of a non-empty sequence: the result so far is
    replaced by an item only when [item > result] holds, so a NaN in
    first place stays and a NaN in a later place is passed over. *)
Definition max (first : cell) (rest : list cell) : cell :=
  foldl (λ result item, if ltb result item then item else result) first rest.

End Float.

(** A dict on the four component names whose values are floats (the
    sub-index values of a location, the variance-inflation factors). *)
Record FloatDict : Type := mkFloatDict {
  f_temperature_volatility : cell;
  f_precipitation_volatility : cell;
  f_moisture_stress : cell;
  f_extreme_events : cell
}.

Definition fget (d : FloatDict) (c : Component) : cell :=
  match c with
  | Temperature_volatility => f_temperature_volatility d
  | Precipitation_volatility => f_precipitation_volatility d
  | Moisture_stress => f_moisture_stress d
  | Extreme_events => f_extreme_events d
  end.

Definition fcomprehension (f : Component -> cell) : FloatDict :=
  {| f_temperature_volatility := f Temperature_volatility;
     f_precipitation_volatility := f Precipitation_volatility;
     f_moisture_stress := f Moisture_stress;
     f_extreme_events := f Extreme_events |}.

(** [d.values()], in insertion order. *)
Definition fvalues (d : FloatDict) : list cell :=
  [f_temperature_volatility d; f_precipitation_volatility d;
   f_moisture_stress d; f_extreme_events d].

(** The columns are kept as a finite map from the column name to its
    cells (their left-to-right order only matters for printing). *)
Record DataFrame : Type := mkDataFrame {
  index : list Date;
  columns : gmap string (list cell)
}.

(** [name in df.columns]. *)
Definition has_column (df : DataFrame) (name : string) : bool :=
  bool_decide (is_Some (columns df !! name)).

(** [df[name]]. *)
Definition column (df : DataFrame) (name : string) : list cell :=
  default [] (columns df !! name).

(** [df[name] = values]. *)
Definition set_column (name : string) (values : list cell) (df : DataFrame)
  : DataFrame :=
  {| index := index df; columns := <[name := values]> (columns df) |}.

(** [len(df)]. *)
Definition len (df : DataFrame) : nat := length (index df).

(** Boolean-mask selection on a list. *)
Fixpoint select {A : Type} (mask : list bool) (l : list A) : list A :=
  match mask, l with
  | b :: mask', x :: l' => if b then x :: select mask' l' else select mask' l'
  | _, _ => []
  end.

(** [df[mask]]: the rows whose mask entry is true, column by column. *)
Definition select_rows (mask : list bool) (df : DataFrame) : DataFrame :=
  {| index := select mask (index df);
     columns := select mask <$> columns df |}.

(** ** process_and_normalize.py: derived daily metrics *)

(** [np.exp], used by the vapour-pressure formula only. *)
Class NumpyMath : Type := { np_exp : Q -> Q }.

(** [np.std], the population standard deviation (it takes a square
    root). *)
Class NumpyStd : Type := { np_std : list Q -> Q }.

Module Process_and_normalize.

(** [(series < threshold).astype(int)]: a comparison with NaN is false. *)
Definition below (threshold : Q) (v : cell) : Z :=
  match v with
  | Some x => if Num.Qlt_bool x threshold then 1 else 0
  | None => 0
  end.

Definition above (threshold : Q) (v : cell) : Z :=
  match v with
  | Some x => if Num.Qlt_bool threshold x then 1 else 0
  | None => 0
  end.

Definition int_cell (z : Z) : cell := Some (inject_Z z).

(** [max(0, x - base_temp)]; Python's [max(0, nan)] keeps the 0. *)
Definition gdd (base_temp : Q) (v : cell) : cell :=
  match v with
  | Some x => Some (if Num.Qlt_bool 0 (x - base_temp) then x - base_temp else 0)
  | None => Some 0
  end.

(** The loop over [DRY_DAYS]: [current_spell] is incremented on a dry
    day and reset on any other day; its value is appended each day. *)
Fixpoint dry_spell_loop (dry_days : list Z) (current_spell : Z) : list Z :=
  match dry_days with
  | [] => []
  | is_dry :: rest =>
      let current_spell :=
        if negb (is_dry =? 0)%Z then (current_spell + 1)%Z else 0%Z in
      current_spell :: dry_spell_loop rest current_spell
  end.

Definition dry_days (prectotcorr : list cell) : list Z :=
  below 1 <$> prectotcorr.

Definition dry_spell_length (prectotcorr : list cell) : list Z :=
  dry_spell_loop (dry_days prectotcorr) 0.

Section Derived.
Context `{NumpyMath}.

(** Saturation vapour pressure minus actual vapour pressure. *)
Definition vpd (t rh : cell) : cell :=
  match t, rh with
  | Some T, Some RH =>
      let es := 0.6108 * np_exp ((17.27 * T) / (T + 237.3)) in
      let ea := (RH / 100) * es in
      Some (es - ea)
  | _, _ => None
  end.

Definition when (b : bool) (f : DataFrame -> DataFrame) (df : DataFrame)
  : DataFrame := if b then f df else df.

(** [compute_derived_metrics]: every test reads the columns of the
    input [df], every assignment writes to the copy. *)
Definition compute_derived_metrics (df : DataFrame) : DataFrame :=
  let df_derived := df in
  let df_derived :=
    when (has_column df "T2M")
      (set_column "GDD" (gdd 10 <$> column df "T2M")) df_derived in
  let df_derived :=
    when (has_column df "T2M" && has_column df "RH2M")
      (set_column "VPD"
         (zip_with vpd (column df "T2M") (column df "RH2M"))) df_derived in
  let df_derived :=
    when (has_column df "PRECTOTCORR")
      (λ d, set_column "DRY_SPELL_LENGTH"
              (int_cell <$> dry_spell_length (column df "PRECTOTCORR"))
              (set_column "DRY_DAYS"
                 (int_cell <$> dry_days (column df "PRECTOTCORR")) d))
      df_derived in
  let df_derived :=
    when (has_column df "T2M_MAX")
      (set_column "HEAT_DAYS"
         (int_cell ∘ above 30 <$> column df "T2M_MAX")) df_derived in
  let df_derived :=
    when (has_column df "T2M_MIN")
      (set_column "FROST_DAYS"
         (int_cell ∘ below 0 <$> column df "T2M_MIN")) df_derived in
  df_derived.

End Derived.

Definition base_parameters : list string :=
  ["T2M"; "T2M_RANGE"; "T2M_MIN"; "T2M_MAX"; "PRECTOTCORR"; "GWETROOT";
   "EVPTRNS"; "RH2M"; "WS10M_MAX"; "ALLSKY_SFC_SW_DWN"].

Definition physical_limits : gmap string (Q * Q) :=
  list_to_map
    [("T2M", (-60, 60)); ("T2M_RANGE", (0, 50)); ("T2M_MIN", (-70, 55));
     ("T2M_MAX", (-50, 70)); ("PRECTOTCORR", (0, 500)); ("GWETROOT", (0, 1));
     ("EVPTRNS", (0, 20)); ("RH2M", (0, 100)); ("WS10M_MAX", (0, 60));
     ("ALLSKY_SFC_SW_DWN", (0, 50))].

(** [df.loc[(df[p] < lower) | (df[p] > upper), p] = np.nan] on one cell. *)
Definition mask_outlier (lower_bound upper_bound : Q) (v : cell) : cell :=
  match v with
  | Some x =>
      if Num.Qlt_bool x lower_bound || Num.Qlt_bool upper_bound x
      then None else Some x
  | None => None
  end.

(** One turn of the loop of [remove_outliers]. *)
Definition remove_outliers_step (df_clean : DataFrame) (param : string)
  : DataFrame :=
  if negb (has_column df_clean param) then df_clean
  else
    match physical_limits !! param with
    | None => df_clean
    | Some (lower_bound, upper_bound) =>
        set_column param
          (mask_outlier lower_bound upper_bound <$> column df_clean param)
          df_clean
    end.

Definition remove_outliers (df : DataFrame) : DataFrame :=
  foldl remove_outliers_step df base_parameters.

(** [process_single_location]; [None] is a directory without a table. *)
Definition process_single_location `{NumpyMath} (location_name : string)
    (loaded : option DataFrame) : option (string * DataFrame) :=
  match loaded with
  | None => None
  | Some df =>
      let df := remove_outliers df in
      let df := compute_derived_metrics df in
      Some (location_name, df)
  end.

(** The statistics kept for one parameter ([np.std] is a parameter of
    the embedding). *)
Record ParamStats : Type := mkParamStats {
  p_mean : Q;
  p_std : Q;
  p_min : Q;
  p_max : Q;
  p_median : Q;
  p_q25 : Q;
  p_q75 : Q
}.

(** [series.dropna().values]. *)
Definition dropna (col : list cell) : list Q := omap id col.

Section Normalization.
Context `{NumpyStd}.

(** The values of one parameter pooled over all tables that have it. *)
Definition pooled_values (all_data : gmap string DataFrame) (param : string)
  : list Q :=
  df ← (map_to_list all_data).*2;
  if has_column df param then dropna (column df param) else [].

Definition param_stats (all_values : list Q) : ParamStats :=
  {| p_mean := Num.mean all_values;
     p_std := np_std all_values;
     p_min := Num.minimum all_values;
     p_max := Num.maximum all_values;
     p_median := Num.percentile all_values 50;
     p_q25 := Num.percentile all_values 25;
     p_q75 := Num.percentile all_values 75 |}.

(** [compute_global_normalization_params]: one entry for every column
    name that occurs in some table and has at least one value. *)
Definition compute_global_normalization_params
    (all_data : gmap string DataFrame) : gmap string ParamStats :=
  let all_params : gset string :=
    ⋃ ((λ df, dom (columns df)) <$> (map_to_list all_data).*2) in
  set_fold (λ param norm_params,
      let all_values := pooled_values all_data param in
      if (length all_values =? 0)%nat then norm_params
      else <[param := param_stats all_values]> norm_params)
    ∅ all_params.

End Normalization.

Inductive Method : Type := Zscore | Minmax | Robust.

(** Arithmetic on a column keeps a missing cell missing. *)
Definition on_cell (f : Q -> Q) (v : cell) : cell :=
  match v with Some x => Some (f x) | None => None end.

(** What [normalize_data] computes for one parameter: the cells of the
    new column, or nothing when the spread is not positive. *)
Definition normalized_cells (method : Method) (params : ParamStats)
    (col : list cell) : option (list cell) :=
  match method with
  | Zscore =>
      if Num.Qlt_bool 0 (p_std params)
      then Some (on_cell (λ x, (x - p_mean params) / p_std params) <$> col)
      else None
  | Minmax =>
      let range_val := p_max params - p_min params in
      if Num.Qlt_bool 0 range_val
      then Some (on_cell (λ x, (x - p_min params) / range_val) <$> col)
      else None
  | Robust =>
      let IQR := p_q75 params - p_q25 params in
      if Num.Qlt_bool 0 IQR
      then Some (on_cell (λ x, (x - p_median params) / IQR) <$> col)
      else None
  end.

(** [normalize_data]: the loop runs over the columns the table had on
    entry, in their order [column_order], reads the current cells of each
    and writes the column [param ++ "_norm"]. *)
Definition normalize_data (normalization_params : gmap string ParamStats)
    (column_order : list string) (df : DataFrame) (method : Method)
  : DataFrame :=
  foldl (λ df_norm param,
      match normalization_params !! param with
      | None => df_norm
      | Some params =>
          match normalized_cells method params (column df_norm param) with
          | Some cells => set_column (param +:+ "_norm") cells df_norm
          | None => df_norm
          end
      end)
    df column_order.

End Process_and_normalize.

(** ** calculate_acvi.py: the index calculator *)

Module Calculate_acvi.

Record Thresholds : Type := mkThresholds {
  heat_stress_temp : Q;
  optimal_temp : Q;
  base_temp : Q;
  max_temp : Q
}.

Record ACVICalculator : Type := mkACVICalculator {
  weights : ComponentDict;
  growing_season : option (Z * Z);
  crop_type : string;
  thresholds : Thresholds
}.

Definition crop_thresholds : gmap string Thresholds :=
  <["maize" := mkThresholds 35 25 10 40]>
    (<["wheat" := mkThresholds 30 20 0 35]> ∅).

(** [ACVICalculator.__init__]: the weights of the index are fixed here;
    [growing_season or (4, 9)] replaces a missing season by April to
    September. *)
Definition __init__ (growing_season : option (Z * Z)) (crop_type : string)
  : ACVICalculator :=
  {| weights :=
       {| temperature_volatility := 0.15;
          precipitation_volatility := 0.25;
          moisture_stress := 0.20;
          extreme_events := 0.40 |};
     growing_season := Some (default (4, 9)%Z growing_season);
     crop_type := crop_type;
     thresholds :=
       default (mkThresholds 30 20 0 35) (crop_thresholds !! crop_type) |}.

(** The records written by [logger]. *)
Inductive LogRecord : Type :=
| warning_missing_required (param : string)
| warning_high_missing (missing_pct : list (string * Q))
| warning_skipping (location_name : string)
| warning_no_growing_data
| debug_filtered (kept total : nat).

(** The result dict of one location; the score and the component
    values are floats and may be NaN. *)
Record Result : Type := mkResult {
  acvi_score : cell;
  components : FloatDict;
  result_weights : ComponentDict
}.

(** The result dict of one location after cohort normalization. *)
Record NormalizedResult : Type := mkNormalizedResult {
  n_acvi_score : cell;
  n_components : FloatDict;
  components_raw : FloatDict;
  n_weights : ComponentDict
}.

Definition in_season (start_month end_month : Z) (d : Date) : bool :=
  if (start_month <=? end_month)%Z
  then (start_month <=? month d)%Z && (month d <=? end_month)%Z
  else (start_month <=? month d)%Z || (month d <=? end_month)%Z.

Definition filter_growing_season (self : ACVICalculator) (df : DataFrame)
  : DataFrame * list LogRecord :=
  match growing_season self with
  | None => (df, [])
  | Some (start_month, end_month) =>
      let mask := in_season start_month end_month <$> index df in
      let filtered := select_rows mask df in
      (filtered, [debug_filtered (len filtered) (len df)])
  end.

Definition required_params : list string := ["T2M"; "PRECTOTCORR"; "GWETROOT"].

(** [df[param].isna().mean()]: the share of missing cells. *)
Definition missing_pct (df : DataFrame) (param : string) : Q :=
  let col := column df param in
  inject_Z (Z.of_nat (length (filter (λ v, v = None) col)))
  / inject_Z (Z.of_nat (length col)).

Definition validate_input_data (df : DataFrame) : bool * list LogRecord :=
  match list_find (λ param, has_column df param = false) required_params with
  | Some (_, param) => (false, [warning_missing_required param])
  | None =>
      let pct := (λ param, (param, missing_pct df param)) <$> required_params in
      if existsb (λ p, Num.Qlt_bool 0.3 p.2) pct
      then (false, [warning_high_missing pct])
      else (true, [])
  end.

(** The four sub-index methods.  Their bodies resample by calendar year
    and take sample standard deviations inside pandas; here they are
    arbitrary functions of the calculator and of the series.  Their
    value is a float: [compute_cv] returns NaN when the deviation of the
    yearly values is NaN (a series within one calendar year), and the
    mean of the parts is then NaN. *)
Class SubIndices : Type := {
  temperature_volatility_index : ACVICalculator -> DataFrame -> cell;
  precipitation_volatility_index : ACVICalculator -> DataFrame -> cell;
  moisture_stress_index : ACVICalculator -> DataFrame -> cell;
  extreme_events_index : ACVICalculator -> DataFrame -> cell
}.

(** The weighted sum written out in [calculate_acvi] and again in
    [normalize_components]. *)
Definition weighted_sum (w : ComponentDict) (c : FloatDict) : cell :=
  Float.add
    (Float.add
       (Float.add
          (Float.mul (Some (temperature_volatility w)) (f_temperature_volatility c))
          (Float.mul (Some (precipitation_volatility w))
             (f_precipitation_volatility c)))
       (Float.mul (Some (moisture_stress w)) (f_moisture_stress c)))
    (Float.mul (Some (extreme_events w)) (f_extreme_events c)).

Section Calculator.
Context `{SubIndices}.

(** The four sub-indices and their weighted sum on one series. *)
Definition score_series (self : ACVICalculator) (df_growing : DataFrame)
  : Result :=
  let temp_vol := temperature_volatility_index self df_growing in
  let precip_vol := precipitation_volatility_index self df_growing in
  let moisture_stress := moisture_stress_index self df_growing in
  let extreme_events := extreme_events_index self df_growing in
  let comps := mkFloatDict temp_vol precip_vol moisture_stress extreme_events in
  {| acvi_score := weighted_sum (weights self) comps;
     components := comps;
     result_weights := weights self |}.

Definition calculate_acvi (self : ACVICalculator) (df : DataFrame)
  : Result * list LogRecord :=
  let '(df_growing, log) := filter_growing_season self df in
  let '(df_growing, log) :=
    if (len df_growing =? 0)%nat
    then (df, log ++ [warning_no_growing_data])
    else (df_growing, log) in
  (score_series self df_growing, log).

End Calculator.

(** [robust_normalize].  With a NaN among [values] both percentiles
    are NaN, [p95 == p5] is false and the result is NaN. *)
Definition robust_normalize (value : cell) (values : list cell) : cell :=
  let p5 := Float.percentile values 5 in
  let p95 := Float.percentile values 95 in
  if Float.eqb p95 p5 then Some 50
  else
    let normalized :=
      Float.mul (Float.div (Float.sub value p5) (Float.sub p95 p5)) (Some 100) in
    Float.clip normalized 0 100.

(** [[r["components"][comp] for r in results.values()]]. *)
Definition all_values (results : gmap string Result) (comp : Component)
  : list cell :=
  (λ r, fget (components r) comp) <$> (map_to_list results).*2.

Definition normalize_components (self : ACVICalculator)
    (results : gmap string Result) : gmap string NormalizedResult :=
  (λ data,
     let normalized_components :=
       fcomprehension (λ comp,
         let original_value := fget (components data) comp in
         robust_normalize original_value (all_values results comp)) in
     {| n_acvi_score := weighted_sum (weights self) normalized_components;
        n_components := normalized_components;
        components_raw := components data;
        n_weights := weights self |}) <$> results.

Section Cohort.
Context `{SubIndices}.

(** One turn of the loop of [calculate_all_locations] over the
    location directories; [None] stands for a directory whose table
    could not be loaded. *)
Definition process_location (self : ACVICalculator)
    (state : gmap string Result * list LogRecord)
    (entry : string * option DataFrame)
  : gmap string Result * list LogRecord :=
  let '(raw_results, log) := state in
  let '(location_name, loaded) := entry in
  match loaded with
  | None => (raw_results, log)
  | Some df =>
      let '(ok, vlog) := validate_input_data df in
      if negb ok
      then (raw_results, log ++ vlog ++ [warning_skipping location_name])
      else
        let '(acvi_result, clog) := calculate_acvi self df in
        (<[location_name := acvi_result]> raw_results, log ++ vlog ++ clog)
  end.

Definition raw_results (self : ACVICalculator)
    (dirs : list (string * option DataFrame))
  : gmap string Result * list LogRecord :=
  foldl (process_location self) (∅, []) dirs.

(** [calculate_all_locations] up to the normalized results it hands to
    the writers. *)
Definition calculate_all_locations (self : ACVICalculator)
    (dirs : list (string * option DataFrame))
  : gmap string NormalizedResult * list LogRecord :=
  let '(raw, log) := raw_results self dirs in
  (normalize_components self raw, log).

End Cohort.

(** [compute_extreme_frequency]: the share of the present values that
    lie strictly above their own [threshold_percentile]-th percentile. *)
Definition compute_extreme_frequency (df : DataFrame) (param : string)
    (threshold_percentile : Q) : Q :=
  if negb (has_column df param) then 0
  else
    let data := omap id (column df param) in
    if (length data =? 0)%nat then 0
    else
      let threshold := Num.quantile data (threshold_percentile / 100) in
      let extreme_count := length (List.filter (Num.Qlt_bool threshold) data) in
      inject_Z (Z.of_nat extreme_count) / inject_Z (Z.of_nat (length data)).

End Calculate_acvi.

(** ** The libraries behind analys.py and validate_acvi.py *)

(** numpy's global generator: [np.random.seed] installs a state that is a
    function of the seed alone; [random_sample] draws from the unit
    interval and [standard_normal] a standard Gaussian, each stepping the
    state. *)
Class NumpyRandom : Type := {
  RandomState : Type;
  np_random_seed : Z -> RandomState;
  random_sample : RandomState -> Q * RandomState;
  standard_normal : RandomState -> Q * RandomState
}.

(** scikit-learn's [LinearRegression().fit(X, y)] followed by
    [predict(X)]: the fitted values on the training rows. *)
Class Sklearn : Type := {
  fit_predict : list (list Q) -> list Q -> list Q
}.

(** scipy's [stats.pearsonr]: the coefficient and its two-sided p-value. *)
Class Scipy : Type := {
  pearsonr : list Q -> list Q -> Q * Q
}.

(** pandas' [Series.corr] (Pearson, NaN when a column is constant) and
    [Series.std] (sample deviation, NaN below two values). *)
Class PandasStats : Type := {
  pd_corr : list Q -> list Q -> option Q;
  pd_std : list Q -> option Q
}.

(** scipy's [stats.f_oneway]: the F statistic and its p-value. *)
Class ScipyAnova : Type := {
  f_oneway : list (list Q) -> Q * Q
}.

(** Code that reads and steps the global generator. *)
Definition Rand `{NumpyRandom} (A : Type) : Type :=
  RandomState -> A * RandomState.

#[export] Instance Rand_ret `{NumpyRandom} : MRet Rand := λ A x g, (x, g).
#[export] Instance Rand_bind `{NumpyRandom} : MBind Rand :=
  λ A B f m g, let '(x, g') := m g in f x g'.
#[export] Instance Rand_fmap `{NumpyRandom} : FMap Rand :=
  λ A B f m g, let '(x, g') := m g in (f x, g').

Section Draws.
Context `{NumpyRandom}.

(** [np.random.seed(s)]: whatever the state was, it is replaced. *)
Definition reseed (s : Z) : Rand unit := λ _, (tt, np_random_seed s).

(** [np.random.uniform(low, high)]. *)
Definition uniform (low high : Q) : Rand Q :=
  u ← (random_sample : Rand Q); mret (low + (high - low) * u).

(** [np.random.normal(loc, scale, size)]. *)
Fixpoint normal (loc scale : Q) (size : nat) : Rand (list Q) :=
  match size with
  | O => mret []
  | S size' =>
      z ← (standard_normal : Rand Q);
      rest ← normal loc scale size';
      mret ((loc + scale * z) :: rest)
  end.

(** [for _ in range(n): out.append(body)]. *)
Fixpoint repeatM {A : Type} (n : nat) (body : Rand A) : Rand (list A) :=
  match n with
  | O => mret []
  | S n' => x ← body; rest ← repeatM n' body; mret (x :: rest)
  end.

End Draws.

(** ** analys.py: the sensitivity analyzer *)

Module Analys.

(** One row of [acvi_scores.csv]. *)
Record Row : Type := mkRow {
  location : string;
  acvi_score : Q;
  comps : ComponentDict
}.

Definition components : list Component :=
  [Temperature_volatility; Precipitation_volatility;
   Moisture_stress; Extreme_events].

Definition default_weights : ComponentDict :=
  {| temperature_volatility := 0.30;
     precipitation_volatility := 0.30;
     moisture_stress := 0.25;
     extreme_events := 0.15 |}.

(** [{k: v / total for k, v in weights.items()}]. *)
Definition renormalize (weights : ComponentDict) : ComponentDict :=
  let total := sum_values weights in
  comprehension (λ k, get weights k / total).

(** The default weights, each multiplied by its own factor, then
    renormalized (the loop bodies of the scenario generator and of the
    Monte Carlo simulation). *)
Definition perturbed_weights (variation : ComponentDict) : ComponentDict :=
  renormalize (comprehension (λ comp, get default_weights comp * get variation comp)).

Section Random.
Context `{NumpyRandom}.

(** One draw per component, in the order of [components]. *)
Definition draw_factors (low high : Q) : Rand ComponentDict :=
  v1 ← uniform low high;
  v2 ← uniform low high;
  v3 ← uniform low high;
  v4 ← uniform low high;
  mret (mkComponentDict v1 v2 v3 v4).

Definition _generate_weight_scenarios : Rand (list ComponentDict) :=
  let scenarios := [comprehension (λ c, 0.25)] in
  let scenarios := scenarios ++
    ((λ comp, comprehension (λ c, if decide (c = comp) then 0.5 else 0.167))
       <$> components) in
  let scenarios := scenarios ++
    ((λ comp, comprehension (λ c, if decide (c = comp) then 0.1 else 0.3))
       <$> components) in
  reseed 42;;
  random ← repeatM 6 (perturbed_weights <$> draw_factors 0.8 1.2);
  let scenarios := scenarios ++ random in
  let scenarios := scenarios ++ [mkComponentDict 0.40 0.40 0.15 0.05] in
  let scenarios := scenarios ++ [mkComponentDict 0.15 0.15 0.40 0.30] in
  mret scenarios.

End Random.

(** [_calculate_acvi_with_weights]: the new column [acvi_new], row by
    row. *)
Definition acvi_new (weights : ComponentDict) (r : Row) : Q :=
  temperature_volatility (comps r) * temperature_volatility weights
  + precipitation_volatility (comps r) * precipitation_volatility weights
  + moisture_stress (comps r) * moisture_stress weights
  + extreme_events (comps r) * extreme_events weights.

Definition _calculate_acvi_with_weights (df : list Row)
    (weights : ComponentDict) : list (Row * Q) :=
  (λ r, (r, acvi_new weights r)) <$> df.

(** [sort_values(key, ascending=False)]; rows with equal keys stay in
    their input order. *)
Fixpoint insert_desc {A : Type} (key : A -> Q) (x : A) (l : list A) : list A :=
  match l with
  | [] => [x]
  | y :: l' =>
      if Qle_bool (key y) (key x) then x :: l else y :: insert_desc key x l'
  end.

Definition sort_values_desc {A : Type} (key : A -> Q) (l : list A) : list A :=
  foldr (insert_desc key) [] l.

(** [{loc: i for i, loc in enumerate(rank)}]: a later position
    overwrites an earlier one. *)
Definition positions (rank : list string) : gmap string nat :=
  foldl (λ m p, <[p.2 := p.1]> m) ∅ (zip (seq 0 (length rank)) rank).

(** [scipy.stats.rankdata] on integers. *)
Definition rankdata (xs : list nat) : list Q :=
  (λ x,
     let less := length (filter (λ y, (y < x)%nat) xs) in
     let equal := length (filter (λ y, y = x) xs) in
     inject_Z (Z.of_nat less) + (inject_Z (Z.of_nat equal) + 1) / 2) <$> xs.

(** [scipy.stats.spearmanr] on two lists without ties, where the
    Pearson coefficient of the ranks is [1 - 6 Σd² / (n (n² - 1))];
    fewer than two points give NaN. *)
Definition spearmanr (xs ys : list nat) : option Q :=
  let n := inject_Z (Z.of_nat (length xs)) in
  if (length xs <? 2)%nat then None
  else
    let d2 := zip_with (λ a b, (a - b) * (a - b)) (rankdata xs) (rankdata ys) in
    Some (1 - 6 * Num.sum d2 / (n * (n * n - 1))).

Definition _ranking_correlation (rank1 rank2 : list string) : option Q :=
  let indices1 := positions rank1 in
  let indices2 := positions rank2 in
  let common_locs : gset string := list_to_set rank1 ∩ list_to_set rank2 in
  let ranks1 := (λ loc, default O (indices1 !! loc)) <$> elements common_locs in
  let ranks2 := (λ loc, default O (indices2 !! loc)) <$> elements common_locs in
  spearmanr ranks1 ranks2.

Definition _top_n_overlap (rank1 rank2 : list string) (n : nat) : nat :=
  let top_n_1 : gset string := list_to_set (take n rank1) in
  let top_n_2 : gset string := list_to_set (take n rank2) in
  size (top_n_1 ∩ top_n_2).

(** *** Multicollinearity *)

(** [sklearn.metrics.r2_score], which [model.score] returns: NaN (with
    a warning) for fewer than two samples; otherwise one minus the
    residual sum of squares over the total sum of squares, and with a
    constant target 1.0 for a perfect fit and 0.0 otherwise. *)
Definition residual_ss (y_true y_pred : list Q) : Q :=
  Num.sum (zip_with (λ a b, (a - b) * (a - b)) y_true y_pred).

Definition total_ss (y_true : list Q) : Q :=
  let y_mean := Num.mean y_true in
  Num.sum ((λ a, (a - y_mean) * (a - y_mean)) <$> y_true).

Definition r2_score (y_true y_pred : list Q) : cell :=
  if (length y_pred <? 2)%nat then Float.NaN
  else
    let numerator := residual_ss y_true y_pred in
    let denominator := total_ss y_true in
    Some (if negb (Qeq_bool denominator 0) then 1 - numerator / denominator
          else if negb (Qeq_bool numerator 0) then 0
          else 1).

(** The design matrix and the target of the regression of one component
    on the other three; [df] is [acvi_df[self.components]]. *)
Definition design (df : list ComponentDict) (target_col : Component)
  : list (list Q) :=
  let other_cols := filter (λ col, col ≠ target_col) components in
  (λ r, get r <$> other_cols) <$> df.

Definition target (df : list ComponentDict) (target_col : Component) : list Q :=
  (λ r, get r target_col) <$> df.

Section Multicollinearity.
Context `{Sklearn}.

(** [model.fit(X, y)] and [model.score(X, y)] (on a table without
    rows [fit] raises; the table is taken to have a row). *)
Definition r_squared (df : list ComponentDict) (target_col : Component)
  : cell :=
  let X := design df target_col in
  let y := target df target_col in
  r2_score y (fit_predict X y).

Definition _calculate_vif (df : list ComponentDict) (target_col : Component)
  : cell :=
  let r_squared := r_squared df target_col in
  if Float.geb r_squared (Some 0.9999) then Some 999.99
  else Float.div (Some 1) (Float.sub (Some 1) r_squared).

End Multicollinearity.

(** The [vif_scores] of [test_multicollinearity]: computed when
    scikit-learn can be imported, 1.0 for every component otherwise. *)
Definition vif_scores (sklearn : option Sklearn) (acvi_df : list Row)
  : FloatDict :=
  let component_data := comps <$> acvi_df in
  match sklearn with
  | Some sk => fcomprehension (λ comp, @_calculate_vif sk component_data comp)
  | None => fcomprehension (λ comp, Some 1)
  end.

(** *** Monte Carlo simulation *)

(** What one trial records.  [score_mse] is the mean squared difference
    of which the source stores the square root as [score_rmse]. *)
Record Trial : Type := mkTrial {
  ranking_correlation : option Q;
  score_mse : Q;
  top_10_overlap : nat
}.

(** [noisy_df[comp] = (noisy_df[comp] * noise).clip(0, 1)] for the four
    components; [noise comp] has one factor per row. *)
Definition noisy_rows (acvi_df : list Row) (noise : Component -> list Q)
  : list Row :=
  imap (λ i r,
    {| location := location r;
       acvi_score := acvi_score r;
       comps := comprehension (λ comp,
         Num.clip (get (comps r) comp * default 1 (noise comp !! i)) 0 1) |})
    acvi_df.

Definition ranking {A : Type} (key : A -> Q) (loc : A -> string) (l : list A)
  : list string :=
  loc <$> sort_values_desc key l.

(** The body of the simulation loop once its random factors are drawn. *)
Definition trial (acvi_df : list Row) (variation : ComponentDict)
    (noise : Component -> list Q) : Trial :=
  let original_ranking := ranking acvi_score location acvi_df in
  let noisy_weights := perturbed_weights variation in
  let noisy_df := noisy_rows acvi_df noise in
  let noisy_acvi := _calculate_acvi_with_weights noisy_df noisy_weights in
  let noisy_ranking := ranking snd (λ p, location p.1) noisy_acvi in
  {| ranking_correlation := _ranking_correlation original_ranking noisy_ranking;
     score_mse :=
       Num.mean (zip_with (λ r p, (acvi_score r - p.2) * (acvi_score r - p.2))
                   acvi_df noisy_acvi);
     top_10_overlap := _top_n_overlap original_ranking noisy_ranking 10 |}.

Section MonteCarlo.
Context `{NumpyRandom}.

(** The draws of one turn: four weight factors from
    [uniform(low, high)], then for each component one array from
    [normal(loc, scale, len(df))]. *)
Definition draw_trial (low high loc scale : Q) (acvi_df : list Row)
  : Rand Trial :=
  variation ← draw_factors low high;
  n1 ← normal loc scale (length acvi_df);
  n2 ← normal loc scale (length acvi_df);
  n3 ← normal loc scale (length acvi_df);
  n4 ← normal loc scale (length acvi_df);
  mret (trial acvi_df variation (get_list n1 n2 n3 n4)).

(** [monte_carlo_simulation]: the three result lists, one entry per
    trial (the summary is a function of these lists). *)
Definition monte_carlo_simulation (acvi_df : list Row) (n_simulations : nat)
  : Rand (list Trial) :=
  reseed 42;;
  repeatM n_simulations (draw_trial 0.9 1.1 1.0 0.05 acvi_df).

End MonteCarlo.

(** *** Weight sensitivity *)

(** numpy reductions over values that may be NaN: one NaN makes the
    result NaN. *)
Definition all_present (l : list (option Q)) : option (list Q) := mapM id l.

Definition nan_mean (l : list (option Q)) : option Q :=
  Num.mean <$> all_present l.

Definition nan_min (l : list (option Q)) : option Q :=
  Num.minimum <$> all_present l.

(** [x > bound] on a value that may be NaN. *)
Definition exceeds (x : option Q) (bound : Q) : bool :=
  match x with Some v => Num.Qlt_bool bound v | None => false end.

(** [sum(1 for r in l if r > bound)]. *)
Definition count_above (bound : Q) (l : list (option Q)) : nat :=
  length (List.filter (λ r, exceeds r bound) l).

Record ScenarioResult : Type := mkScenarioResult {
  scenario_id : nat;
  s_weights : ComponentDict;
  s_ranking_correlation : option Q;
  s_score_correlation : option Q;
  s_top_10_overlap : nat
}.

Record RankingStability : Type := mkRankingStability {
  mean_correlation : option Q;
  std_correlation : option Q;
  min_correlation : option Q;
  scenarios_above_0_9 : nat
}.

Section WeightSensitivity.
Context `{NumpyRandom} `{PandasStats} `{NumpyStd}.

(** The body of the loop over the scenarios. *)
Definition scenario_result (acvi_df : list Row) (original_ranking : list string)
    (i : nat) (weights : ComponentDict) : ScenarioResult :=
  let new_acvi := _calculate_acvi_with_weights acvi_df weights in
  let new_ranking := ranking snd (λ p, location p.1) new_acvi in
  {| scenario_id := i;
     s_weights := weights;
     s_ranking_correlation := _ranking_correlation original_ranking new_ranking;
     s_score_correlation := pd_corr (acvi_score <$> acvi_df) (snd <$> new_acvi);
     s_top_10_overlap := _top_n_overlap original_ranking new_ranking 10 |}.

Definition ranking_stability (ranking_correlations : list (option Q))
  : RankingStability :=
  {| mean_correlation := nan_mean ranking_correlations;
     std_correlation := np_std <$> all_present ranking_correlations;
     min_correlation := nan_min ranking_correlations;
     scenarios_above_0_9 := count_above 0.9 ranking_correlations |}.

Definition test_weight_sensitivity (acvi_df : list Row)
  : Rand (list ScenarioResult * RankingStability) :=
  weight_scenarios ← _generate_weight_scenarios;
  let original_ranking := ranking acvi_score location acvi_df in
  let weight_variations :=
    imap (λ i weights, scenario_result acvi_df original_ranking (S i) weights)
      weight_scenarios in
  mret (weight_variations,
        ranking_stability (s_ranking_correlation <$> weight_variations)).

End WeightSensitivity.

(** *** The assessment of test_multicollinearity *)

Record HighCorrelation : Type := mkHighCorrelation {
  component1 : Component;
  component2 : Component;
  hc_correlation : Q
}.

Inductive Assessment : Type := EXCELLENT | GOOD | MODERATE.

Record Multicollinearity : Type := mkMulticollinearity {
  high_correlations : list HighCorrelation;
  m_vif_scores : FloatDict;
  assessment : Assessment
}.

(** The pairs [(comp1, comp2)] with [comp2] after [comp1]. *)
Fixpoint later_pairs (l : list Component) : list (Component * Component) :=
  match l with
  | [] => []
  | comp1 :: rest => ((λ comp2, (comp1, comp2)) <$> rest) ++ later_pairs rest
  end.

(** [max(d.values())] of a dict on the four components. *)
Definition max_value (d : FloatDict) : cell :=
  Float.max (f_temperature_volatility d)
    [f_precipitation_volatility d; f_moisture_stress d; f_extreme_events d].

(** [max(values, default=0)]. *)
Definition max_default (l : list Q) : Q :=
  match l with [] => 0 | x :: l' => foldl Qmax x l' end.

Definition assess (max_vif : cell) (max_corr : Q) : Assessment :=
  if Float.ltb max_vif (Some 5) && Num.Qlt_bool max_corr 0.7 then EXCELLENT
  else if Float.ltb max_vif (Some 10) && Num.Qlt_bool max_corr 0.8 then GOOD
  else MODERATE.

Section Assessment.
Context `{PandasStats}.

Definition find_high_correlations (acvi_df : list Row) : list HighCorrelation :=
  omap (λ pr,
      let '(comp1, comp2) := pr in
      match pd_corr ((λ r, get (comps r) comp1) <$> acvi_df)
                    ((λ r, get (comps r) comp2) <$> acvi_df) with
      | Some corr =>
          if Num.Qlt_bool 0.7 (Qabs corr)
          then Some (mkHighCorrelation comp1 comp2 corr) else None
      | None => None
      end)
    (later_pairs components).

Definition test_multicollinearity (sklearn : option Sklearn)
    (acvi_df : list Row) : Multicollinearity :=
  let high := find_high_correlations acvi_df in
  let vif := vif_scores sklearn acvi_df in
  let max_vif := max_value vif in
  let max_corr := max_default ((λ c, Qabs (hc_correlation c)) <$> high) in
  {| high_correlations := high;
     m_vif_scores := vif;
     assessment := assess max_vif max_corr |}.

End Assessment.

(** *** Geographical robustness *)

Definition regions : list (string * list string) :=
  [("Europe", ["UA"; "PL"; "DE"; "FR"; "RO"; "HU"; "IT"; "ES"; "NL"; "UK"; "TR"]);
   ("North America", ["US"; "CA"]);
   ("South America", ["BR"; "AR"]);
   ("Asia", ["CN"; "IN"; "KZ"]);
   ("Africa", ["EG"; "ZA"]);
   ("Oceania", ["AU"])].

(** [location.split('_')[0]]: the text before the first underscore, the
    whole text when there is none. *)
Fixpoint location_prefix (location : string) : string :=
  match location with
  | EmptyString => EmptyString
  | String c rest =>
      if Ascii.eqb c "_"%char then EmptyString
      else String c (location_prefix rest)
  end.

Definition _get_region (location : string) (regions : list (string * list string))
  : string :=
  match list_find (λ entry, location_prefix location ∈ entry.2) regions with
  | Some (_, (region, _)) => region
  | None => "Unknown"
  end.

Record RegionStatistics : Type := mkRegionStatistics {
  n : nat;
  region_mean : Q;
  region_std : option Q
}.

Record AnovaTest : Type := mkAnovaTest {
  f_statistic : Q;
  anova_p_value : Q;
  significant : bool
}.

Section Geography.
Context `{PandasStats} `{ScipyAnova}.

(** The scores of the rows assigned to one region. *)
Definition region_scores (acvi_df : list Row) (region : string) : list Q :=
  acvi_score <$> filter (λ r, _get_region (location r) regions = region) acvi_df.

(** [test_geographical_robustness]: statistics for the regions that have
    a member, and the analysis of variance when two or more have one. *)
Definition test_geographical_robustness (acvi_df : list Row)
  : list (string * RegionStatistics) * option AnovaTest :=
  let regional_scores :=
    omap (λ entry,
        let scores := region_scores acvi_df entry.1 in
        if (length scores =? 0)%nat then None else Some (entry.1, scores))
      regions in
  let regional_statistics :=
    (λ rs, (rs.1, {| n := length rs.2;
                     region_mean := Num.mean rs.2;
                     region_std := pd_std rs.2 |})) <$> regional_scores in
  let score_groups :=
    filter (λ scores, (0 < length scores)%nat) regional_scores.*2 in
  let anova_test :=
    if (2 <=? length score_groups)%nat
    then
      let '(f_stat, p_value) := f_oneway score_groups in
      Some {| f_statistic := f_stat;
              anova_p_value := p_value;
              significant := Num.Qlt_bool p_value 0.05 |}
    else None in
  (regional_statistics, anova_test).

End Geography.

(** *** The roll-up of generate_comprehensive_report *)

(** The four values the roll-up reads. *)
Record Checked : Type := mkChecked {
  ws_mean_correlation : option Q;
  mc_vif_scores : FloatDict;
  mc_mean_ranking_correlation : option Q;
  geo_anova_test : option AnovaTest
}.

Definition checks_passed (results : Checked) : nat :=
  let checks_passed := O in
  let checks_passed :=
    if exceeds (ws_mean_correlation results) 0.90
    then S checks_passed else checks_passed in
  let checks_passed :=
    if Float.ltb (max_value (mc_vif_scores results)) (Some 10)
    then S checks_passed else checks_passed in
  let checks_passed :=
    if exceeds (mc_mean_ranking_correlation results) 0.90
    then S checks_passed else checks_passed in
  let checks_passed :=
    if negb (default true (significant <$> geo_anova_test results))
    then S checks_passed else checks_passed in
  checks_passed.

(** [generate_comprehensive_report] as far as its summary line.  The
    result of the geographical test always has the key [anova_test],
    an empty dict when the test was not run; the report then reads
    [gr['anova_test']['p_value']], which raises KeyError ([None]
    here) before the checks are counted. *)
Definition generate_comprehensive_report (results : Checked) : option nat :=
  match geo_anova_test results with
  | Some _ => Some (checks_passed results)
  | None => None
  end.

Section FullAnalysis.
Context `{NumpyRandom} `{PandasStats} `{NumpyStd} `{ScipyAnova}.

(** [run_full_analysis] up to the values the report counts. *)
Definition run_full_analysis (sklearn : option Sklearn) (acvi_df : list Row)
  : Rand Checked :=
  weight_sensitivity ← test_weight_sensitivity acvi_df;
  let multicollinearity := test_multicollinearity sklearn acvi_df in
  monte_carlo ← monte_carlo_simulation acvi_df 1000;
  let geographical_robustness := test_geographical_robustness acvi_df in
  mret {| ws_mean_correlation := mean_correlation weight_sensitivity.2;
          mc_vif_scores := m_vif_scores multicollinearity;
          mc_mean_ranking_correlation :=
            nan_mean (ranking_correlation <$> monte_carlo);
          geo_anova_test := geographical_robustness.2 |}.

End FullAnalysis.

End Analys.

(** ** validate_acvi.py: correlation with yield volatility *)

Module Validate_acvi.

Definition location_to_country : gmap string string :=
  list_to_map [
    ("UA_Center_Kirovohrad", "UA");
    ("UA_South_Kherson", "UA");
    ("UA_West_Ternopil", "UA");
    ("UA_North_Chernihiv", "UA");
    ("UA_East_Kharkiv", "UA");
    ("UA_Vinnytsia", "UA");
    ("UA_Poltava", "UA");
    ("UA_Odesa", "UA");
    ("UA_Zhytomyr", "UA");
    ("UA_Lviv", "UA");
    ("PL_Mazowieckie", "PL");
    ("PL_Wielkopolskie", "PL");
    ("DE_Bavaria", "DE");
    ("DE_LowerSaxony", "DE");
    ("FR_Beauce", "FR");
    ("FR_Bordeaux", "FR");
    ("RO_Wallachia", "RO");
    ("RO_Moldavia", "RO");
    ("HU_Puszta", "HU");
    ("IT_PoValley", "IT");
    ("ES_Andalusia", "ES");
    ("ES_CastillaLeon", "ES");
    ("NL_Flevoland", "NL");
    ("UK_Lincolnshire", "UK");
    ("US_Iowa", "US");
    ("US_Kansas", "US");
    ("US_Illinois", "US");
    ("US_Nebraska", "US");
    ("US_California_CentralValley", "US");
    ("US_NorthDakota", "US");
    ("US_Minnesota", "US");
    ("CA_Saskatchewan", "CA");
    ("CA_Alberta", "CA");
    ("CA_Manitoba", "CA");
    ("BR_MatoGrosso", "BR");
    ("BR_Parana", "BR");
    ("BR_Goias", "BR");
    ("AR_BuenosAires", "AR");
    ("AR_Cordoba", "AR");
    ("AR_SantaFe", "AR");
    ("AR_LaPampa", "AR");
    ("CN_Henan", "CN");
    ("CN_Heilongjiang", "CN");
    ("CN_Shandong", "CN");
    ("CN_Jilin", "CN");
    ("IN_Punjab", "IN");
    ("IN_MadhyaPradesh", "IN");
    ("IN_UttarPradesh", "IN");
    ("KZ_Kostanay", "KZ");
    ("KZ_Akmola", "KZ");
    ("TR_Konya", "TR");
    ("ZA_FreeState", "ZA");
    ("ZA_WesternCape", "ZA");
    ("AU_NewSouthWales", "AU");
    ("AU_WesternAustralia", "AU");
    ("AU_Victoria", "AU");
    ("EG_NileDelta", "EG")
  ].

(** One row of the country-level table. *)
Record CountryRow : Type := mkCountryRow {
  country : string;
  acvi_score : Q;
  comps : ComponentDict
}.

(** One row of [yield_volatility.csv]. *)
Record YieldRow : Type := mkYieldRow {
  y_country : string;
  crop : string;
  mean_yield : Q;
  cv_yield : Q;
  detrended_cv : Q
}.

Definition str_le (x y : string) : Prop := Is_true (String.leb x y).

(** The group keys of [groupby("country")]: the countries present, each
    once, in sorted order; a location outside the lookup table maps to
    NaN and falls out of every group. *)
Definition countries (acvi_df : list Analys.Row) : list string :=
  merge_sort str_le
    (remove_dups (omap (λ r, location_to_country !! Analys.location r) acvi_df)).

Definition members (acvi_df : list Analys.Row) (c : string) : list Analys.Row :=
  filter (λ r, location_to_country !! Analys.location r = Some c) acvi_df.

(** [aggregate_location_acvi]: the column means of every group. *)
Definition aggregate_location_acvi (acvi_df : list Analys.Row)
  : list CountryRow :=
  (λ c,
     let group := members acvi_df c in
     {| country := c;
        acvi_score := Num.mean (Analys.acvi_score <$> group);
        comps := comprehension (λ comp,
          Num.mean ((λ r, get (Analys.comps r) comp) <$> group)) |})
    <$> countries acvi_df.

(** [pd.merge(left, right, on="country", how="inner")]: every pair of
    rows with the same country, in the order of the left rows. *)
Definition merge (left : list CountryRow) (right : list YieldRow)
  : list (CountryRow * YieldRow) :=
  l ← left;
  (λ r, (l, r)) <$> filter (λ r, y_country r = country l) right.

Inductive Metric : Type := Cv_yield | Detrended_cv.

Definition metric_of (m : Metric) (r : YieldRow) : Q :=
  match m with Cv_yield => cv_yield r | Detrended_cv => detrended_cv r end.

(** The keys [acvi_vs_{metric}] and [{component}_vs_{metric}]. *)
Inductive CorrelationKey : Type :=
| acvi_vs (m : Metric)
| component_vs (c : Component) (m : Metric).

Record Correlation : Type := mkCorrelation {
  correlation : Q;
  p_value : Q;
  significant : option bool;
  n_samples : option nat
}.

Record CropResult : Type := mkCropResult {
  correlations : list (CorrelationKey * Correlation);
  data : list (CountryRow * YieldRow)
}.

(** What the function prints. *)
Inductive Printed : Type :=
| calculating
| insufficient_data (crop : string) (n : nat)
| crop_summary (crop : string) (r p : Q) (n : nat).

Section Correlations.
Context `{Scipy}.

(** The correlations of one metric: the composite score first, then
    the four components (both yield metrics are columns of every
    yield table, so neither is skipped). *)
Definition metric_correlations (merged : list (CountryRow * YieldRow))
    (metric : Metric) : list (CorrelationKey * Correlation) :=
  let ys := (λ p, metric_of metric p.2) <$> merged in
  let '(corr_acvi, p_acvi) := pearsonr ((λ p, acvi_score p.1) <$> merged) ys in
  (acvi_vs metric,
   {| correlation := corr_acvi;
      p_value := p_acvi;
      significant := Some (Num.Qlt_bool p_acvi 0.05);
      n_samples := Some (length merged) |})
  :: ((λ component,
         let '(corr, p) :=
           pearsonr ((λ p, get (comps p.1) component) <$> merged) ys in
         (component_vs component metric,
          {| correlation := corr; p_value := p;
             significant := None; n_samples := None |}))
        <$> Analys.components).

(** One turn of the loop over the crops. *)
Definition correlate_crop (country_acvi : list CountryRow)
    (fao_df : list YieldRow)
    (state : gmap string CropResult * list Printed) (crop_name : string)
  : gmap string CropResult * list Printed :=
  let '(results, out) := state in
  let crop_data := filter (λ r, crop r = crop_name) fao_df in
  let merged := merge country_acvi crop_data in
  if (length merged <? 3)%nat
  then (results, out ++ [insufficient_data crop_name (length merged)])
  else
    let correlations :=
      metric_correlations merged Cv_yield
      ++ metric_correlations merged Detrended_cv in
    let shown :=
      match correlations with
      | (_, c) :: _ => crop_summary crop_name (correlation c) (p_value c)
                         (length merged)
      | [] => crop_summary crop_name 0 1 (length merged)
      end in
    (<[crop_name := {| correlations := correlations; data := merged |}]> results,
     out ++ [shown]).

Definition calculate_correlations (acvi_df : list Analys.Row)
    (fao_df : list YieldRow) : gmap string CropResult * list Printed :=
  let country_acvi := aggregate_location_acvi acvi_df in
  foldl (correlate_crop country_acvi fao_df) (∅, [calculating])
    ["wheat"; "maize"].

End Correlations.

End Validate_acvi.

(* ===================================================================== *)
(** * Notions used by the statements, and sample inputs *)
(* ===================================================================== *)

(** ** Dry days, read off the precipitation series *)

(** A day is dry when it has a precipitation value and that value is
    below 1. *)
Definition dry (v : cell) : bool :=
  match v with Some x => Num.Qlt_bool x 1 | None => false end.

(** The number of dry days at the head of a list of days. *)
Fixpoint leading_dry (days : list cell) : nat :=
  match days with
  | v :: rest => if dry v then S (leading_dry rest) else O
  | [] => O
  end.

(** The number of consecutive dry days that end at day [i]: walk back
    from day [i] while the days are dry. *)
Definition dry_run_ending_at (prectotcorr : list cell) (i : nat) : nat :=
  leading_dry (reverse (take (S i) prectotcorr)).

(** ** The contract of the generator *)

(** Every raw draw lies in [0, 1). *)
Definition unit_interval_draws `{NumpyRandom} : Prop :=
  ∀ g : RandomState, 0 <= (random_sample g).1 < 1.

(** The first [n] raw draws of the generator from the state [g], in
    the order in which they are drawn. *)
Fixpoint raw_draws `{NumpyRandom} (n : nat) (g : RandomState) : list Q :=
  match n with
  | O => []
  | S n' => let '(u, g') := random_sample g in u :: raw_draws n' g'
  end.

(** The place of a component among the four. *)
Definition component_index (c : Component) : nat :=
  match c with
  | Temperature_volatility => 0
  | Precipitation_volatility => 1
  | Moisture_stress => 2
  | Extreme_events => 3
  end.

(** ** Stand-ins for the libraries, to run the definitions on *)

(** A linear congruential generator; its Gaussian is a centred sum of
    three draws. *)
Definition lcg_next (g : Z) : Z := ((1103515245 * g + 12345) mod 2147483648)%Z.

Definition lcg_sample (g : Z) : Q * Z :=
  (inject_Z (lcg_next g) / 2147483648, lcg_next g).

Definition lcg : NumpyRandom :=
  {| RandomState := Z;
     np_random_seed := λ s, s;
     random_sample := lcg_sample;
     standard_normal := λ g,
       let '(u1, g1) := lcg_sample g in
       let '(u2, g2) := lcg_sample g1 in
       let '(u3, g3) := lcg_sample g2 in
       (2 * (u1 + u2 + u3) - 3, g3) |}.

(** A second-order polynomial in place of the exponential. *)
Definition exp_stand_in : NumpyMath := {| np_exp := λ x, 1 + x + x * x / 2 |}.

(** Sub-indices with one available signal each; the mean of a column
    without a value is NaN. *)
Definition column_mean (df : DataFrame) (name : string) : cell :=
  match omap id (column df name) with
  | [] => Float.NaN
  | values => Some (Num.mean values)
  end.

Definition one_signal_indices : Calculate_acvi.SubIndices :=
  {| Calculate_acvi.temperature_volatility_index := λ _ df, column_mean df "T2M";
     Calculate_acvi.precipitation_volatility_index := λ _ df, column_mean df "PRECTOTCORR";
     Calculate_acvi.moisture_stress_index := λ _ df,
       Float.mul (Float.sub (Some 1) (column_mean df "GWETROOT")) (Some 100);
     Calculate_acvi.extreme_events_index := λ _ df, Some 0 |}.

(** Least squares on the first predictor column, which is the full fit
    when the remaining columns are constant. *)
Definition simple_regression : Sklearn :=
  {| fit_predict := λ X y,
       let x := (λ row, hd 0 row) <$> X in
       let x_mean := Num.mean x in
       let y_mean := Num.mean y in
       let sxx := Num.sum ((λ a, (a - x_mean) * (a - x_mean)) <$> x) in
       let sxy := Num.sum (zip_with (λ a b, (a - x_mean) * (b - y_mean)) x y) in
       if Qeq_bool sxx 0 then (λ _, y_mean) <$> x
       else (λ a, y_mean + sxy / sxx * (a - x_mean)) <$> x |}.

(** In place of scipy's test: the signed square of the coefficient, and
    its complement in place of the p-value. *)
Definition signed_r_squared : Scipy :=
  {| pearsonr := λ x y,
       let x_mean := Num.mean x in
       let y_mean := Num.mean y in
       let sxx := Num.sum ((λ a, (a - x_mean) * (a - x_mean)) <$> x) in
       let syy := Num.sum ((λ b, (b - y_mean) * (b - y_mean)) <$> y) in
       let sxy := Num.sum (zip_with (λ a b, (a - x_mean) * (b - y_mean)) x y) in
       let r2 := sxy * Qabs sxy / (sxx * syy) in
       (r2, 1 - Qabs r2) |}.

(** ** Sample series, cohorts and tables *)

Definition wheat_calculator : Calculate_acvi.ACVICalculator :=
  Calculate_acvi.__init__ None "wheat".

(** A dict of floats that are all numbers. *)
Definition of_numbers (c : ComponentDict) : FloatDict :=
  fcomprehension (λ comp, Some (get c comp)).

(** A raw result as the calculator builds it from four sub-index values. *)
Definition raw_result (c : FloatDict) : Calculate_acvi.Result :=
  let w := Calculate_acvi.weights wheat_calculator in
  Calculate_acvi.mkResult (Calculate_acvi.weighted_sum w c) c w.

Definition raw_entry (c : ComponentDict) : Calculate_acvi.Result :=
  raw_result (of_numbers c).

(** A cohort of three locations whose middle location normalizes to the
    component scores 80, 60, 40 and 20. *)
Definition cohort_80_60_40_20 : gmap string Calculate_acvi.Result :=
  <["UA_Lviv" := raw_entry (mkComponentDict 0 0 0 0)]>
    (<["PL_Mazowieckie" := raw_entry (mkComponentDict 80 60 40 20)]>
       (<["DE_Bavaria" := raw_entry (mkComponentDict 100 100 100 100)]> ∅)).

(** A cohort whose raw values 0, 30 and 100 are also their normalized
    values, and the score table the calculator writes for it:
    [acvi_score] is the weighted sum under 0.15, 0.25, 0.20, 0.40. *)
Definition raw_cohort_3 : gmap string Calculate_acvi.Result :=
  <["UA_Lviv" := raw_entry (mkComponentDict 100 100 0 0)]>
    (<["PL_Mazowieckie" := raw_entry (mkComponentDict 30 30 30 30)]>
       (<["DE_Bavaria" := raw_entry (mkComponentDict 0 0 100 100)]> ∅)).

(** A cohort in which the temperature sub-index of one location is NaN
    (its series lies within one calendar year). *)
Definition cohort_with_nan : gmap string Calculate_acvi.Result :=
  <["UA_Lviv" := raw_entry (mkComponentDict 0 0 0 0)]>
    (<["PL_Mazowieckie" :=
         raw_result (mkFloatDict Float.NaN (Some 60) (Some 40) (Some 20))]>
       (<["DE_Bavaria" := raw_entry (mkComponentDict 100 100 100 100)]> ∅)).

Definition score_table_3 : list Analys.Row :=
  [Analys.mkRow "UA_Lviv" 40 (mkComponentDict 100 100 0 0);
   Analys.mkRow "PL_Mazowieckie" 30 (mkComponentDict 30 30 30 30);
   Analys.mkRow "DE_Bavaria" 60 (mkComponentDict 0 0 100 100)].

(** The same locations with the baseline recomputed under the analyzer's
    default weights. *)
Definition score_table_3_default : list Analys.Row :=
  (λ r, Analys.mkRow (Analys.location r)
          (Analys.acvi_new Analys.default_weights r) (Analys.comps r))
    <$> score_table_3.

(** Weight factors and noise factors that are all exactly 1. *)
Definition unit_factors : ComponentDict := mkComponentDict 1 1 1 1.

Definition no_noise (n : nat) : Component → list Q := λ _, replicate n 1.

(** Three days of a complete series, in the growing season and out of
    it, and the same series without its soil-moisture column. *)
Definition summer_days : list Date :=
  [mkDate 2020 5 1; mkDate 2020 6 1; mkDate 2020 7 1].

Definition winter_days : list Date :=
  [mkDate 2020 1 15; mkDate 2020 2 15; mkDate 2020 12 15].

Definition complete_columns : gmap string (list cell) :=
  <["T2M" := [Some 20; Some 22; Some 31]]>
    (<["PRECTOTCORR" := [Some 0; Some 5; Some 0.5]]>
       (<["GWETROOT" := [Some 0.5; Some 0.6; Some 0.4]]> ∅)).

Definition df_summer : DataFrame := mkDataFrame summer_days complete_columns.

Definition df_winter : DataFrame := mkDataFrame winter_days complete_columns.

Definition df_no_moisture : DataFrame :=
  mkDataFrame summer_days (delete "GWETROOT" complete_columns).

(** Six days of rain: 0, 0.5, 5, 0.2, no value, 0.9. *)
Definition df_rain : DataFrame :=
  mkDataFrame
    [mkDate 2021 6 1; mkDate 2021 6 2; mkDate 2021 6 3;
     mkDate 2021 6 4; mkDate 2021 6 5; mkDate 2021 6 6]
    (<["PRECTOTCORR" := [Some 0; Some 0.5; Some 5; Some 0.2; None; Some 0.9]]> ∅).

(** Component scores in which only precipitation varies with
    temperature. *)
Definition component_table : list ComponentDict :=
  [mkComponentDict 10 1 50 50; mkComponentDict 20 2 50 50;
   mkComponentDict 40 3 50 50].

(** Three countries with wheat yields, two of them with maize yields. *)
Definition yield_table : list Validate_acvi.YieldRow :=
  [Validate_acvi.mkYieldRow "UA" "wheat" 3.9 12 8;
   Validate_acvi.mkYieldRow "PL" "wheat" 4.5 9 6;
   Validate_acvi.mkYieldRow "DE" "wheat" 7.6 6 5;
   Validate_acvi.mkYieldRow "UA" "maize" 6.5 15 11;
   Validate_acvi.mkYieldRow "PL" "maize" 6.8 10 7].

(** Stand-ins for the statistics of the analyzer: every column reported
    as constant, no deviation, no difference between the groups. *)
Definition constant_columns : PandasStats :=
  {| pd_corr := λ _ _, None; pd_std := λ _, None |}.

Definition zero_deviation : NumpyStd := {| np_std := λ _, 0 |}.

Definition no_group_effect : ScipyAnova := {| f_oneway := λ _, (0, 1) |}.

(** A score table with Ukrainian locations only. *)
Definition ukrainian_table : list Analys.Row :=
  [Analys.mkRow "UA_Lviv" 40 (mkComponentDict 1 1 0 0);
   Analys.mkRow "UA_Odesa" 60 (mkComponentDict 0 0 1 1)].

(** Statistics of a rainfall column with the values 0 to 2. *)
Definition sample_params : gmap string Process_and_normalize.ParamStats :=
  {[ "PRECTOTCORR" := Process_and_normalize.mkParamStats 1 1 0 2 1 (1 / 2) (3 / 2) ]}.

(** A normalized cell that is missing where the cell was missing and in
    [0, 1] where it had a value. *)
Definition unit_or_missing (v normalized : cell) : Prop :=
  match v, normalized with
  | Some _, Some y => 0 <= y <= 1
  | None, None => True
  | _, _ => False
  end.

(** ** Floats that are numbers *)

(** The float [x] is the number [q]. *)
Definition float_is (x : cell) (q : Q) : Prop := ∃ v, x = Some v ∧ v == q.

(** ** Ordinary least squares *)

(** The other three components, in the order of the table. *)
Definition other_components (c : Component) : list Component :=
  match c with
  | Temperature_volatility => [Precipitation_volatility; Moisture_stress; Extreme_events]
  | Precipitation_volatility => [Temperature_volatility; Moisture_stress; Extreme_events]
  | Moisture_stress => [Temperature_volatility; Precipitation_volatility; Extreme_events]
  | Extreme_events => [Temperature_volatility; Precipitation_volatility; Moisture_stress]
  end.

(** The rows of predictors and the observed values of the regression of
    component [c] on the other three. *)
Definition predictors (df : list ComponentDict) (c : Component) : list (list Q) :=
  (λ r, get r <$> other_components c) <$> df.

Definition observed (df : list ComponentDict) (c : Component) : list Q :=
  (λ r, get r c) <$> df.






(** Python's [max] of the values of the dict is a number below [k]:
    the first value is a number, and every value that is a number is
    below [k] (a NaN after the first place is passed over). *)
Definition max_below (d : FloatDict) (k : Q) : Prop :=
  (∃ first, f_temperature_volatility d = Some first)
  ∧ ∀ c v, fget d c = Some v → v < k.

(** ** Cohort normalization on numbers *)

(** What [robust_normalize] computes when the value and all the values
    of the cohort are numbers. *)
Definition normalize_number (value : Q) (values : list Q) : Q :=
  let p5 := Num.percentile values 5 in
  let p95 := Num.percentile values 95 in
  if Qeq_bool p95 p5 then 50
  else Num.clip (((value - p5) / (p95 - p5)) * 100) 0 100.

(** A number of a magnitude at which the differences taken by the
    normalization do not overflow in binary64. *)
Definition moderate (x : Q) : Prop := Qabs x <= inject_Z (2 ^ 1022).

(** A component of a cohort in which every raw value is such a
    number. *)
Definition all_numbers (results : gmap string Calculate_acvi.Result)
    (comp : Component) : Prop :=
  ∀ loc data, results !! loc = Some data →
    ∃ x, fget (Calculate_acvi.components data) comp = Some x ∧ moderate x.

(** ** Notions of the further properties *)

(** The interpolation step of the percentile, on sorted data. *)
Definition interpolate (s : list Q) (h : Q) : Q :=
  let lo := Z.to_nat (Qfloor h) in
  let hi := Nat.min (S lo) (length s - 1) in
  let frac := h - inject_Z (Qfloor h) in
  nth lo s 0 + frac * (nth hi s 0 - nth lo s 0).

(** A directory is accepted when its table loads and passes validation. *)
Definition accepted (entry : string * option DataFrame) : bool :=
  match entry.2 with
  | Some df => (Calculate_acvi.validate_input_data df).1
  | None => false
  end.

Definition mask_column (lower_bound upper_bound : Q) (col : list cell)
  : list cell :=
  Process_and_normalize.mask_outlier lower_bound upper_bound <$> col.

(** What [remove_outliers] does to the column called [name]. *)
Definition limited (name : string) (col : list cell) : list cell :=
  if decide (name ∈ Process_and_normalize.base_parameters) then
    match Process_and_normalize.physical_limits !! name with
    | Some (lower_bound, upper_bound) => mask_column lower_bound upper_bound col
    | None => col
    end
  else col.

(** A table with one value of every kind: a frost of -80 degrees and a
    root-zone wetness of 1.2 are not physical. *)
Definition df_outliers : DataFrame :=
  mkDataFrame summer_days
    (<["T2M" := [Some 20; Some (-80); None]]>
       (<["GWETROOT" := [Some 0.5; Some 1.2; Some 1]]>
          (<["PRECTOTCORR" := [Some (-3); Some 0.4; Some 700]]> ∅))).

(** The six column names that [compute_derived_metrics] may write. *)
Definition derived_names : list string :=
  ["GDD"; "VPD"; "DRY_DAYS"; "DRY_SPELL_LENGTH"; "HEAT_DAYS"; "FROST_DAYS"].

(** [a] may stand before [b] in a descending order by [key]. *)
Definition not_below {A : Type} (key : A → Q) (a b : A) : Prop := key b <= key a.

(* ===================================================================== *)
(** * Part II: properties *)
(* ===================================================================== *)

(** ** The composite score *)

(** The analyzer's weighted sum is the sum over the four components. *)
Lemma acvi_new_linear (w : ComponentDict) (r : Analys.Row) :
  Analys.acvi_new w r
  == Num.sum ((λ c, get w c * get (Analys.comps r) c) <$> Analys.components).
Proof.
  unfold Analys.acvi_new, Analys.components, Num.sum. simpl. ring.
Qed.

(** The scenario replayed in binary64: the four products round to 24, 18,
    10 and 3 and their sum is the double 55.0. *)
Lemma scenario_binary64 :
  Binary64.add
    (Binary64.add
       (Binary64.add
          (Binary64.mul (Binary64.of_Z 80) (Binary64.literal 30 100))
          (Binary64.mul (Binary64.of_Z 60) (Binary64.literal 30 100)))
       (Binary64.mul (Binary64.of_Z 40) (Binary64.literal 25 100)))
    (Binary64.mul (Binary64.of_Z 20) (Binary64.literal 15 100))
  = Binary64.of_Z 55.
Proof. vm_compute. reflexivity. Qed.

(** C1.  The analyzer's composite score is the weighted sum over the four
    components, and its default weights 0.30, 0.30, 0.25, 0.15 give 55 on
    the component scores 80, 60, 40, 20 (in exact arithmetic and, last
    conjunct, in binary64).  The baseline score that the
    calculator stores for a location with exactly these normalized
    components is 43, not 55: the calculator weighs with 0.15, 0.25, 0.20,
    0.40, not with the analyzer's default vector. *)
Theorem composite_default_weights_vs_baseline :
  (∀ (w : ComponentDict) (r : Analys.Row),
     Analys.acvi_new w r
     == Num.sum ((λ c, get w c * get (Analys.comps r) c) <$> Analys.components))
  ∧ Analys.default_weights = mkComponentDict 0.30 0.30 0.25 0.15
  ∧ Analys.acvi_new Analys.default_weights
      (Analys.mkRow "PL_Mazowieckie" 43 (mkComponentDict 80 60 40 20)) == 55
  ∧ (∃ r,
       Calculate_acvi.normalize_components
         (Calculate_acvi.__init__ None "wheat") cohort_80_60_40_20
         !! "PL_Mazowieckie" = Some r
       ∧ (∀ c, float_is (fget (Calculate_acvi.n_components r) c)
                 (get (mkComponentDict 80 60 40 20) c))
       ∧ Calculate_acvi.n_weights r = mkComponentDict 0.15 0.25 0.20 0.40
       ∧ float_is (Calculate_acvi.n_acvi_score r) 43
       ∧ ¬ float_is (Calculate_acvi.n_acvi_score r) 55)
  ∧ Binary64.add
      (Binary64.add
         (Binary64.add
            (Binary64.mul (Binary64.of_Z 80) (Binary64.literal 30 100))
            (Binary64.mul (Binary64.of_Z 60) (Binary64.literal 30 100)))
         (Binary64.mul (Binary64.of_Z 40) (Binary64.literal 25 100)))
      (Binary64.mul (Binary64.of_Z 20) (Binary64.literal 15 100))
    = Binary64.of_Z 55.
Proof.
  split; [exact acvi_new_linear|].
  split; [reflexivity|].
  split; [vm_compute; reflexivity|].
  split; [|exact scenario_binary64].
  eexists. split; [vm_compute; reflexivity|].
  split; [intros []; (eexists; split; [reflexivity|vm_compute; reflexivity])|].
  split; [reflexivity|].
  split; [eexists; split; [reflexivity|vm_compute; reflexivity]|].
  intros (v & [= <-] & Hv). vm_compute in Hv. discriminate.
Qed.

(** ** Cohort normalization *)

Lemma clip_range (x lo hi : Q) : lo <= hi → lo <= Num.clip x lo hi <= hi.
Proof.
  intros Hle. unfold Num.clip. split.
  - apply Q.min_glb; [apply Q.le_max_r | exact Hle].
  - apply Q.le_min_r.
Qed.

Lemma normalize_number_range (value : Q) (values : list Q) :
  0 <= normalize_number value values <= 100.
Proof.
  unfold normalize_number.
  destruct (Qeq_bool _ _).
  - split; discriminate.
  - apply clip_range. discriminate.
Qed.

Lemma normalize_number_degenerate (value : Q) (values : list Q) :
  Num.percentile values 95 == Num.percentile values 5 →
  normalize_number value values = 50.
Proof.
  intros Heq. unfold normalize_number.
  apply Qeq_bool_iff in Heq. rewrite Heq. reflexivity.
Qed.

Lemma normalize_number_scaled (value : Q) (values : list Q) :
  let p5 := Num.percentile values 5 in
  let p95 := Num.percentile values 95 in
  ¬ p95 == p5 →
  normalize_number value values
  = Num.clip (((value - p5) / (p95 - p5)) * 100) 0 100.
Proof.
  intros p5 p95 Hne. unfold normalize_number.
  fold p5 p95. destruct (Qeq_bool p95 p5) eqn:E; [|reflexivity].
  apply Qeq_bool_iff in E. contradiction.
Qed.

(** On numbers [robust_normalize] is [normalize_number]; one NaN among
    the values of the cohort makes the result NaN, whatever the value. *)
Lemma robust_normalize_numbers (value : Q) (values : list cell) (vs : list Q) :
  Float.numbers values = Some vs →
  Calculate_acvi.robust_normalize (Some value) values
  = Some (normalize_number value vs).
Proof.
  intros Hvs. unfold Calculate_acvi.robust_normalize, Float.percentile, normalize_number.
  rewrite Hvs. cbn [Float.eqb].
  destruct (Qeq_bool _ _); reflexivity.
Qed.

Lemma robust_normalize_nan (value : cell) (values : list cell) :
  Float.numbers values = None →
  Calculate_acvi.robust_normalize value values = Float.NaN.
Proof.
  intros Hvs. unfold Calculate_acvi.robust_normalize, Float.percentile.
  rewrite Hvs. cbn [Float.eqb]. by destruct value.
Qed.

Lemma numbers_Some (values : list cell) (vs : list Q) :
  Float.numbers values = Some vs ↔ values = Some <$> vs.
Proof.
  unfold Float.numbers. rewrite mapM_Some. split.
  - induction 1 as [|c v values vs Hc _ IH]; [reflexivity|].
    cbn in Hc. by rewrite Hc, IH.
  - intros ->. induction vs as [|v vs IH]; constructor; [reflexivity|exact IH].
Qed.

Lemma numbers_None (values : list cell) :
  Float.numbers values = None ↔ Float.NaN ∈ values.
Proof.
  unfold Float.numbers. rewrite mapM_None, Exists_exists. split.
  - intros (c & Hin & Hc). unfold id in Hc. subst c. exact Hin.
  - intros Hin. exists Float.NaN. done.
Qed.

(** The values a component is scaled against are the raw values of that
    component at all the locations of the cohort. *)
Lemma all_values_spec (results : gmap string Calculate_acvi.Result)
    (comp : Component) (x : cell) :
  x ∈ Calculate_acvi.all_values results comp
  ↔ ∃ loc data, results !! loc = Some data
                ∧ x = fget (Calculate_acvi.components data) comp.
Proof.
  unfold Calculate_acvi.all_values. rewrite list_elem_of_fmap. split.
  - intros (data & -> & Hin). apply list_elem_of_fmap in Hin as ([loc d] & -> & Hin).
    apply elem_of_map_to_list in Hin. eauto.
  - intros (loc & data & Hl & ->). exists data. split; [reflexivity|].
    apply list_elem_of_fmap. exists (loc, data). split; [reflexivity|].
    by apply elem_of_map_to_list.
Qed.

(** When every raw value of a component is a number, the array handed
    to [np.percentile] is the array of these numbers. *)
Lemma all_values_numbers (results : gmap string Calculate_acvi.Result)
    (comp : Component) :
  all_numbers results comp →
  ∃ values, Float.numbers (Calculate_acvi.all_values results comp) = Some values
    ∧ ∀ x, x ∈ values
           ↔ ∃ loc data, results !! loc = Some data
                         ∧ fget (Calculate_acvi.components data) comp = Some x.
Proof.
  intros Hall.
  destruct (Float.numbers (Calculate_acvi.all_values results comp))
    as [values|] eqn:E.
  - exists values. split; [reflexivity|]. intros x.
    apply numbers_Some in E.
    assert (Hx : x ∈ values ↔ Some x ∈ Calculate_acvi.all_values results comp).
    { rewrite E, list_elem_of_fmap. split; [by eauto|].
      by intros (y & [= ->] & Hy). }
    rewrite Hx, all_values_spec. split; intros (l & d & Hl & Hd); eauto.
  - apply numbers_None in E. apply all_values_spec in E as (l & d & Hl & Hd).
    destruct (Hall l d Hl) as (x & Hx & _). unfold Float.NaN in Hd. congruence.
Qed.

(** The normalized table has exactly the locations of the raw table. *)
Lemma normalize_components_lookup (self : Calculate_acvi.ACVICalculator)
    (results : gmap string Calculate_acvi.Result) (loc : string) :
  Calculate_acvi.components_raw
    <$> (Calculate_acvi.normalize_components self results !! loc)
  = Calculate_acvi.components <$> (results !! loc).
Proof.
  unfold Calculate_acvi.normalize_components. rewrite lookup_fmap.
  destruct (results !! loc); reflexivity.
Qed.

Lemma fget_fcomprehension (f : Component → cell) (comp : Component) :
  fget (fcomprehension f) comp = f comp.
Proof. by destruct comp. Qed.

(** One NaN among the raw values of a component makes the normalized
    value of that component NaN at every location of the cohort. *)
Lemma nan_spreads (self : Calculate_acvi.ACVICalculator)
    (results : gmap string Calculate_acvi.Result) (comp : Component)
    (loc : string) (r : Calculate_acvi.NormalizedResult) :
  (∃ l d, results !! l = Some d
          ∧ fget (Calculate_acvi.components d) comp = Float.NaN) →
  Calculate_acvi.normalize_components self results !! loc = Some r →
  fget (Calculate_acvi.n_components r) comp = Float.NaN.
Proof.
  intros (l & d & Hl & Hd) Hr. unfold Calculate_acvi.normalize_components in Hr.
  rewrite lookup_fmap in Hr. destruct (results !! loc) as [data|]; [|discriminate].
  injection Hr as <-. cbn [Calculate_acvi.n_components].
  rewrite fget_fcomprehension. apply robust_normalize_nan, numbers_None.
  apply all_values_spec. exists l, d. by rewrite Hd.
Qed.

(** C2, as stated, fails: in a cohort in which the temperature
    sub-index of one location is NaN, the normalized temperature
    component of another location, whose own raw value is the number 0,
    is NaN; it is not a value in [0, 100], and the composite score of
    that location is NaN as well. *)
Lemma normalization_with_nan :
  ∃ r,
    Calculate_acvi.normalize_components wheat_calculator cohort_with_nan
      !! "UA_Lviv" = Some r
    ∧ fget (Calculate_acvi.components_raw r) Temperature_volatility = Some 0
    ∧ fget (Calculate_acvi.n_components r) Temperature_volatility = Float.NaN
    ∧ ¬ (∃ v, fget (Calculate_acvi.n_components r) Temperature_volatility = Some v
              ∧ 0 <= v <= 100)
    ∧ Calculate_acvi.n_acvi_score r = Float.NaN.
Proof.
  eexists. split; [vm_compute; reflexivity|].
  split; [reflexivity|]. split; [reflexivity|].
  split; [|reflexivity]. intros (v & Hv & _). discriminate Hv.
Qed.

(** C2, amended.  For every cohort, every location of it and every
    component whose raw values are all numbers (not NaN, and of a
    magnitude at which their differences do not overflow), the
    normalized value is a number in [0, 100]; with p5 and p95 the 5th
    and 95th percentiles of the component's raw values over all
    locations it is clip(100 (raw - p5) / (p95 - p5), 0, 100), and it is
    exactly 50 when p95 equals p5. *)
Theorem cohort_normalization (self : Calculate_acvi.ACVICalculator)
    (results : gmap string Calculate_acvi.Result)
    (loc : string) (data : Calculate_acvi.Result) (comp : Component) :
  results !! loc = Some data →
  all_numbers results comp →
  ∃ r raw values v,
    Calculate_acvi.normalize_components self results !! loc = Some r
    ∧ fget (Calculate_acvi.components data) comp = Some raw
    ∧ Float.numbers (Calculate_acvi.all_values results comp) = Some values
    ∧ fget (Calculate_acvi.n_components r) comp = Some v
    ∧ let p5 := Num.percentile values 5 in
      let p95 := Num.percentile values 95 in
      (∀ x, x ∈ values
            ↔ ∃ l d, results !! l = Some d
                     ∧ fget (Calculate_acvi.components d) comp = Some x)
      ∧ 0 <= v <= 100
      ∧ (¬ p95 == p5 → v == Num.clip (100 * (raw - p5) / (p95 - p5)) 0 100)
      ∧ (p95 == p5 → v = 50).
Proof.
  intros Hdata Hall.
  destruct (Hall loc data Hdata) as (raw & Hraw & _).
  destruct (all_values_numbers results comp Hall) as (values & Hvalues & Hspec).
  unfold Calculate_acvi.normalize_components.
  rewrite lookup_fmap, Hdata. cbn [fmap option_fmap option_map].
  eexists. exists raw, values, (normalize_number raw values).
  split; [reflexivity|]. split; [exact Hraw|]. split; [exact Hvalues|].
  cbn [Calculate_acvi.n_components]. rewrite fget_fcomprehension, Hraw.
  split; [by apply robust_normalize_numbers|]. cbn zeta.
  split; [exact Hspec|].
  split; [apply normalize_number_range|]. split.
  - intros Hne. rewrite normalize_number_scaled by exact Hne.
    unfold Num.clip. apply Q.min_compat; [|reflexivity].
    apply Q.max_compat; [|reflexivity].
    field. intros Hz. apply Hne. lra.
  - apply normalize_number_degenerate.
Qed.

Lemma moderate_100 (x : Q) : 0 <= x <= 100 → moderate x.
Proof.
  intros [H0 H100]. unfold moderate. rewrite Qabs_pos by exact H0.
  eapply Qle_trans; [exact H100|]. apply Qle_bool_iff. vm_compute. reflexivity.
Qed.

Lemma cohort_80_60_40_20_numbers (comp : Component) :
  all_numbers cohort_80_60_40_20 comp.
Proof.
  intros loc data Hdata. unfold cohort_80_60_40_20 in Hdata.
  repeat (apply lookup_insert_Some in Hdata as [[_ <-]|[_ Hdata]];
          [destruct comp; (eexists; split; [reflexivity|];
                           apply moderate_100; split; discriminate)|]).
  by rewrite lookup_empty in Hdata.
Qed.

Lemma cohort_normalization_witness :
  ∃ r v, Calculate_acvi.normalize_components
           (Calculate_acvi.__init__ None "wheat") cohort_80_60_40_20
           !! "PL_Mazowieckie" = Some r
     ∧ fget (Calculate_acvi.n_components r) Precipitation_volatility = Some v
     ∧ 0 <= v <= 100.
Proof.
  destruct (cohort_normalization (Calculate_acvi.__init__ None "wheat")
              cohort_80_60_40_20 "PL_Mazowieckie"
              (raw_entry (mkComponentDict 80 60 40 20))
              Precipitation_volatility)
    as (r & raw & values & v & Hr & _ & _ & Hv & _ & Hrange & _).
  - vm_compute. reflexivity.
  - apply cohort_80_60_40_20_numbers.
  - exists r, v. split; [exact Hr|]. split; [exact Hv|exact Hrange].
Defined.

(** The example cohort of the specification: raw values 10, 50, 90 have
    p5 = 14 and p95 = 86 under linear interpolation and normalize to 0,
    50 and 100. *)
Example percentile_10_50_90 :
  Num.percentile [10; 50; 90] 5 == 14 ∧ Num.percentile [10; 50; 90] 95 == 86
  ∧ float_is (Calculate_acvi.robust_normalize (Some 10) [Some 10; Some 50; Some 90]) 0
  ∧ float_is (Calculate_acvi.robust_normalize (Some 50) [Some 10; Some 50; Some 90]) 50
  ∧ float_is (Calculate_acvi.robust_normalize (Some 90) [Some 10; Some 50; Some 90]) 100.
Proof.
  repeat split; try (vm_compute; reflexivity);
    (eexists; split; [reflexivity|vm_compute; reflexivity]).
Qed.

(** Two locations with the same raw precipitation volatility: the
    component has no spread and both normalize to 50. *)
Example degenerate_component :
  let cohort : gmap string Calculate_acvi.Result :=
    <["UA_Lviv" := raw_entry (mkComponentDict 12 0 40 7)]>
      (<["PL_Mazowieckie" := raw_entry (mkComponentDict 30 0 55 9)]> ∅) in
  ∀ loc r,
    Calculate_acvi.normalize_components wheat_calculator cohort !! loc = Some r →
    fget (Calculate_acvi.n_components r) Precipitation_volatility = Some 50.
Proof.
  intros cohort loc r Hr.
  destruct (decide (loc = "UA_Lviv")) as [->|Hne1];
    [vm_compute in Hr; injection Hr as <-; reflexivity|].
  destruct (decide (loc = "PL_Mazowieckie")) as [->|Hne2];
    [vm_compute in Hr; injection Hr as <-; reflexivity|].
  unfold Calculate_acvi.normalize_components, cohort in Hr.
  rewrite lookup_fmap, !lookup_insert_ne, lookup_empty in Hr by done.
  discriminate.
Qed.

(** ** Input validation and the cohort loop *)

Section CohortLoop.
Context `{Calculate_acvi.SubIndices}.

Lemma validate_input_data_log (df : DataFrame) :
  if (Calculate_acvi.validate_input_data df).1
  then (Calculate_acvi.validate_input_data df).2 = []
  else ∃ w, (Calculate_acvi.validate_input_data df).2 = [w].
Proof.
  unfold Calculate_acvi.validate_input_data.
  destruct (list_find _ _) as [[i p]|]; cbn [fst snd]; [eauto|].
  match goal with |- context [existsb ?f ?l] => destruct (existsb f l) end;
    cbn [fst snd]; eauto.
Qed.

Lemma validate_input_data_false_iff (df : DataFrame) :
  (Calculate_acvi.validate_input_data df).1 = false
  ↔ (∃ p, p ∈ Calculate_acvi.required_params ∧ has_column df p = false)
    ∨ (∃ p, p ∈ Calculate_acvi.required_params
            ∧ 0.3 < Calculate_acvi.missing_pct df p).
Proof.
  unfold Calculate_acvi.validate_input_data.
  destruct (list_find _ _) as [[i p]|] eqn:Efind; cbn [fst snd].
  - apply list_find_Some in Efind as (Hi & Hp & _).
    split; [intros _|reflexivity]. left. exists p. split; [|exact Hp].
    eapply list_elem_of_lookup_2, Hi.
  - pose proof (proj1 (list_find_None _ _) Efind) as Hall.
    rewrite Forall_forall in Hall.
    match goal with |- context [existsb ?f ?l] => destruct (existsb f l) eqn:Eex end;
      cbn [fst snd].
    + split; [intros _|reflexivity]. right.
      apply existsb_exists in Eex as ([p q] & Hin & Hlt).
      apply list_elem_of_In, list_elem_of_fmap in Hin as (p' & [= -> ->] & Hp').
      exists p'. split; [exact Hp'|].
      unfold Num.Qlt_bool in Hlt. simpl in Hlt.
      apply negb_true_iff in Hlt. apply Qnot_le_lt. intros Hle.
      apply Qle_bool_iff in Hle. congruence.
    + split; [discriminate|]. intros [(p & Hp & Hc)|(p & Hp & Hlt)].
      * exfalso. exact (Hall p Hp Hc).
      * exfalso. apply not_true_iff_false in Eex. apply Eex.
        apply existsb_exists. exists (p, Calculate_acvi.missing_pct df p).
        split.
        -- apply list_elem_of_In, list_elem_of_fmap. eauto.
        -- unfold Num.Qlt_bool. simpl. apply negb_true_iff.
           apply not_true_iff_false. intros Hle. apply Qle_bool_iff in Hle.
           apply Qlt_not_le in Hlt. contradiction.
Qed.

Lemma process_location_lookup (self : Calculate_acvi.ACVICalculator)
    (st : gmap string Calculate_acvi.Result * list Calculate_acvi.LogRecord)
    (name : string) (loaded : option DataFrame) (loc : string) :
  (Calculate_acvi.process_location self st (name, loaded)).1 !! loc
  = match loaded with
    | Some df =>
        if decide (name = loc) then
          if (Calculate_acvi.validate_input_data df).1
          then Some (Calculate_acvi.calculate_acvi self df).1
          else st.1 !! loc
        else st.1 !! loc
    | None => st.1 !! loc
    end.
Proof.
  destruct st as [raw log]. unfold Calculate_acvi.process_location.
  destruct loaded as [df|]; [|reflexivity].
  destruct (Calculate_acvi.validate_input_data df) as [ok vlog]. simpl.
  destruct ok; simpl.
  - destruct (Calculate_acvi.calculate_acvi self df) as [res clog]. simpl.
    rewrite lookup_insert. destruct (decide (name = loc)); reflexivity.
  - destruct (decide (name = loc)); reflexivity.
Qed.

Lemma process_location_log (self : Calculate_acvi.ACVICalculator)
    (st : gmap string Calculate_acvi.Result * list Calculate_acvi.LogRecord)
    (entry : string * option DataFrame) (x : Calculate_acvi.LogRecord) :
  x ∈ st.2 → x ∈ (Calculate_acvi.process_location self st entry).2.
Proof.
  destruct st as [raw log], entry as [name [df|]]; simpl; [|done].
  destruct (Calculate_acvi.validate_input_data df) as [[] vlog]; simpl.
  - destruct (Calculate_acvi.calculate_acvi self df). simpl.
    intros Hx. apply elem_of_app. by left.
  - intros Hx. apply elem_of_app. by left.
Qed.

Lemma loop_log_mono (self : Calculate_acvi.ACVICalculator)
    (dirs : list (string * option DataFrame))
    (st : gmap string Calculate_acvi.Result * list Calculate_acvi.LogRecord)
    (x : Calculate_acvi.LogRecord) :
  x ∈ st.2 → x ∈ (foldl (Calculate_acvi.process_location self) st dirs).2.
Proof.
  revert st. induction dirs as [|e dirs IH]; intros st Hx; [exact Hx|].
  simpl. apply IH, process_location_log, Hx.
Qed.

Lemma loop_lookup_other (self : Calculate_acvi.ACVICalculator)
    (dirs : list (string * option DataFrame))
    (st : gmap string Calculate_acvi.Result * list Calculate_acvi.LogRecord)
    (loc : string) :
  loc ∉ dirs.*1 →
  (foldl (Calculate_acvi.process_location self) st dirs).1 !! loc = st.1 !! loc.
Proof.
  revert st. induction dirs as [|[name loaded] dirs IH]; intros st Hnot; [reflexivity|].
  simpl in *. apply not_elem_of_cons in Hnot as [Hne Hnot].
  rewrite IH by exact Hnot. rewrite process_location_lookup.
  destruct loaded; [|reflexivity].
  destruct (decide (name = loc)); [congruence|reflexivity].
Qed.

(** With distinct directory names, a loaded location ends in the raw
    results exactly when its table passes validation; a rejected one
    leaves a "skipping" warning. *)
Lemma loop_outcome (self : Calculate_acvi.ACVICalculator)
    (dirs : list (string * option DataFrame))
    (st : gmap string Calculate_acvi.Result * list Calculate_acvi.LogRecord)
    (loc : string) (df : DataFrame) :
  NoDup dirs.*1 → (loc, Some df) ∈ dirs →
  let out := foldl (Calculate_acvi.process_location self) st dirs in
  if (Calculate_acvi.validate_input_data df).1
  then out.1 !! loc = Some (Calculate_acvi.calculate_acvi self df).1
  else out.1 !! loc = st.1 !! loc
       ∧ Calculate_acvi.warning_skipping loc ∈ out.2
       ∧ (∀ w, w ∈ (Calculate_acvi.validate_input_data df).2 → w ∈ out.2).
Proof.
  revert st. induction dirs as [|[name loaded] dirs IH]; intros st Hnd Hin.
  { by apply elem_of_nil in Hin. }
  simpl in Hnd. apply NoDup_cons in Hnd as [Hfresh Hnd].
  apply elem_of_cons in Hin as [[= <- <-]|Hin]; simpl.
  - rewrite loop_lookup_other by exact Hfresh.
    rewrite process_location_lookup. rewrite decide_True by reflexivity.
    destruct (Calculate_acvi.validate_input_data df) as [[] vlog] eqn:Ev; simpl.
    + reflexivity.
    + split; [reflexivity|].
      split; [|intros w Hw]; apply loop_log_mono;
        destruct st as [raw log]; simpl; rewrite Ev; simpl;
        rewrite !elem_of_app.
      * right. right. apply list_elem_of_singleton. reflexivity.
      * right. left. exact Hw.
  - specialize (IH (Calculate_acvi.process_location self st (name, loaded)) Hnd Hin).
    simpl in IH.
    destruct (Calculate_acvi.validate_input_data df).1; [exact IH|].
    destruct IH as [IH1 IH2]. split; [|exact IH2].
    rewrite IH1, process_location_lookup.
    destruct loaded; [|reflexivity].
    destruct (decide (name = loc)) as [->|]; [|reflexivity].
    exfalso. apply Hfresh. apply list_elem_of_fmap. exists (loc, Some df). done.
Qed.

Lemma validate_log_not_skipping (df : DataFrame) (loc : string) :
  Calculate_acvi.warning_skipping loc ∉ (Calculate_acvi.validate_input_data df).2.
Proof.
  unfold Calculate_acvi.validate_input_data.
  destruct (list_find _ _) as [[i p]|]; cbn [fst snd].
  - intros Hin. apply list_elem_of_singleton in Hin. discriminate.
  - match goal with |- context [existsb ?f ?l] => destruct (existsb f l) end;
      cbn [fst snd]; intros Hin.
    + apply list_elem_of_singleton in Hin. discriminate.
    + by apply elem_of_nil in Hin.
Qed.

Lemma calculate_log_not_skipping (self : Calculate_acvi.ACVICalculator)
    (df : DataFrame) (loc : string) :
  Calculate_acvi.warning_skipping loc ∉ (Calculate_acvi.calculate_acvi self df).2.
Proof.
  unfold Calculate_acvi.calculate_acvi, Calculate_acvi.filter_growing_season.
  destruct (Calculate_acvi.growing_season self) as [[s e]|];
    destruct (len _ =? 0)%nat; cbn [fst snd app]; intros Hin;
    repeat (apply elem_of_cons in Hin as [Hin|Hin]; [discriminate|]);
    by apply elem_of_nil in Hin.
Qed.

(** A "skipping" warning is only ever written for a location whose table
    failed validation. *)
Lemma loop_skipping_origin (self : Calculate_acvi.ACVICalculator)
    (dirs : list (string * option DataFrame))
    (st : gmap string Calculate_acvi.Result * list Calculate_acvi.LogRecord)
    (loc : string) :
  Calculate_acvi.warning_skipping loc
    ∈ (foldl (Calculate_acvi.process_location self) st dirs).2 →
  Calculate_acvi.warning_skipping loc ∈ st.2
  ∨ ∃ df, (loc, Some df) ∈ dirs
          ∧ (Calculate_acvi.validate_input_data df).1 = false.
Proof.
  revert st. induction dirs as [|[name loaded] dirs IH]; intros st Hin; [by left|].
  simpl in Hin. apply IH in Hin as [Hin|(df & Hdf & Hv)].
  2:{ right. exists df. split; [by apply elem_of_cons; right|exact Hv]. }
  destruct st as [raw log]. simpl in Hin. destruct loaded as [df|]; [|by left].
  pose proof (validate_log_not_skipping df loc) as Hv.
  pose proof (calculate_log_not_skipping self df loc) as Hc.
  destruct (Calculate_acvi.validate_input_data df) as [[] vlog] eqn:Ev;
    cbn [fst snd negb] in *.
  - destruct (Calculate_acvi.calculate_acvi self df) as [res clog].
    cbn [fst snd] in *. rewrite !elem_of_app in Hin. left. tauto.
  - rewrite !elem_of_app, list_elem_of_singleton in Hin.
    destruct Hin as [Hin|[Hin|Hin]]; [by left|contradiction|].
    injection Hin as ->. right. exists df. rewrite Ev.
    split; [apply elem_of_cons; by left|done].
Qed.

End CohortLoop.

(** C3, as stated, fails: a series that lacks one required parameter only
    (here soil moisture), with every value of the other two present, is
    rejected, although it is not missing all three parameters and no
    parameter has more than 30% of its values missing. *)
Lemma rejected_with_one_parameter_missing :
  ¬ ((Calculate_acvi.validate_input_data df_no_moisture).1 = false
     ↔ (∀ p, p ∈ Calculate_acvi.required_params
             → has_column df_no_moisture p = false)
       ∨ (∃ p, p ∈ Calculate_acvi.required_params
               ∧ 0.3 < Calculate_acvi.missing_pct df_no_moisture p)).
Proof.
  intros [Hfwd _]. destruct Hfwd as [Hall|(p & Hp & Hlt)].
  - vm_compute. reflexivity.
  - specialize (Hall "T2M"). discriminate Hall. apply elem_of_cons. by left.
  - unfold Calculate_acvi.required_params in Hp.
    repeat (apply elem_of_cons in Hp as [->|Hp]; [vm_compute in Hlt; discriminate|]).
    by apply elem_of_nil in Hp.
Qed.

(** What the cohort loop does with a loaded location, by the verdict of
    validation. *)
Lemma loop_verdict `{Calculate_acvi.SubIndices}
    (self : Calculate_acvi.ACVICalculator)
    (dirs : list (string * option DataFrame)) (loc : string) (df : DataFrame) :
  NoDup dirs.*1 → (loc, Some df) ∈ dirs →
  let rejected := (Calculate_acvi.validate_input_data df).1 = false in
  let raw := (Calculate_acvi.raw_results self dirs).1 in
  let normalized := (Calculate_acvi.calculate_all_locations self dirs).1 in
  let log := (Calculate_acvi.calculate_all_locations self dirs).2 in
  (rejected →
   raw !! loc = None ∧ normalized !! loc = None
   ∧ Calculate_acvi.warning_skipping loc ∈ log
   ∧ ∃ w, (Calculate_acvi.validate_input_data df).2 = [w] ∧ w ∈ log)
  ∧ (¬ rejected →
     raw !! loc = Some (Calculate_acvi.calculate_acvi self df).1
     ∧ is_Some (normalized !! loc)
     ∧ Calculate_acvi.warning_skipping loc ∉ log).
Proof.
  intros Hnd Hin rejected raw normalized log.
  assert (Hnorm : normalized = Calculate_acvi.normalize_components self raw
                  ∧ log = (Calculate_acvi.raw_results self dirs).2).
  { subst normalized log raw. unfold Calculate_acvi.calculate_all_locations.
    destruct (Calculate_acvi.raw_results self dirs). done. }
  destruct Hnorm as [Hnorm Hlog].
  pose proof (loop_outcome self dirs (∅, []) loc df Hnd Hin) as Hout.
  pose proof (validate_input_data_log df) as Hvlog.
  fold (Calculate_acvi.raw_results self dirs) in Hout. cbn zeta in Hout.
  subst rejected. split.
  - intros Hrej. rewrite Hrej in Hout, Hvlog.
    destruct Hout as (Hraw & Hskip & Hv). destruct Hvlog as [w Hw].
    cbn [fst] in Hraw. rewrite lookup_empty in Hraw. fold raw in Hraw.
    repeat split.
    + exact Hraw.
    + rewrite Hnorm. unfold Calculate_acvi.normalize_components.
      by rewrite lookup_fmap, Hraw.
    + by rewrite Hlog.
    + exists w. split; [exact Hw|]. rewrite Hlog. apply Hv. rewrite Hw.
      by apply list_elem_of_singleton.
  - intros Hkeep. apply not_false_iff_true in Hkeep. rewrite Hkeep in Hout.
    fold raw in Hout. repeat split.
    + exact Hout.
    + rewrite Hnorm. unfold Calculate_acvi.normalize_components.
      rewrite lookup_fmap, Hout. by eexists.
    + rewrite Hlog. intros Hskip.
      apply loop_skipping_origin in Hskip as [Hskip|(df' & Hdf' & Hv)].
      * by apply elem_of_nil in Hskip.
      * pose proof (loop_outcome self dirs (∅, []) loc df' Hnd Hdf') as Hout'.
        cbn zeta in Hout'. rewrite Hv in Hout'. destruct Hout' as [Hraw' _].
        fold (Calculate_acvi.raw_results self dirs) in Hraw'. fold raw in Hraw'.
        cbn [fst] in Hraw'. rewrite lookup_empty in Hraw'. congruence.
Qed.

(** C3, amended.  A loaded location is rejected exactly when its series
    lacks any one of the three required parameters or more than 30% of
    the values of a required parameter are missing.  A rejected location
    is in neither the raw nor the normalized results and the log holds the
    validation warning and the "skipping" warning; any other location is
    kept. *)
Theorem location_rejected_iff `{Calculate_acvi.SubIndices}
    (self : Calculate_acvi.ACVICalculator)
    (dirs : list (string * option DataFrame)) (loc : string) (df : DataFrame) :
  NoDup dirs.*1 → (loc, Some df) ∈ dirs →
  let rejected := (Calculate_acvi.validate_input_data df).1 = false in
  let raw := (Calculate_acvi.raw_results self dirs).1 in
  let normalized := (Calculate_acvi.calculate_all_locations self dirs).1 in
  let log := (Calculate_acvi.calculate_all_locations self dirs).2 in
  (rejected
   ↔ (∃ p, p ∈ Calculate_acvi.required_params ∧ has_column df p = false)
     ∨ (∃ p, p ∈ Calculate_acvi.required_params
             ∧ 0.3 < Calculate_acvi.missing_pct df p))
  ∧ (rejected →
     raw !! loc = None ∧ normalized !! loc = None
     ∧ Calculate_acvi.warning_skipping loc ∈ log
     ∧ ∃ w, (Calculate_acvi.validate_input_data df).2 = [w] ∧ w ∈ log)
  ∧ (¬ rejected →
     raw !! loc = Some (Calculate_acvi.calculate_acvi self df).1
     ∧ is_Some (normalized !! loc)
     ∧ Calculate_acvi.warning_skipping loc ∉ log).
Proof.
  intros Hnd Hin. cbn zeta.
  split; [apply validate_input_data_false_iff|].
  exact (loop_verdict self dirs loc df Hnd Hin).
Qed.

Lemma location_rejected_iff_witness :
  (Calculate_acvi.calculate_all_locations (H := one_signal_indices)
     wheat_calculator
     [("UA_Lviv", Some df_summer); ("PL_Mazowieckie", Some df_no_moisture)]).1
    !! "PL_Mazowieckie" = None.
Proof.
  refine (proj1 (proj2 (proj1 (proj2
    (location_rejected_iff (H := one_signal_indices) wheat_calculator
       [("UA_Lviv", Some df_summer); ("PL_Mazowieckie", Some df_no_moisture)]
       "PL_Mazowieckie" df_no_moisture _ _)) _))).
  - apply (bool_decide_unpack _). vm_compute. reflexivity.
  - apply elem_of_cons. right. apply elem_of_cons. by left.
  - vm_compute. reflexivity.
Defined.

(** ** The growing-season filter *)

Lemma select_none {A B : Type} (f : A → bool) (l : list A) (l' : list B) :
  (∀ x, x ∈ l → f x = false) → select (f <$> l) l' = [].
Proof.
  revert l'. induction l as [|x l IH]; intros l' Hall; [reflexivity|].
  destruct l' as [|y l']; [reflexivity|]. simpl.
  rewrite (Hall x) by (apply elem_of_cons; by left).
  apply IH. intros z Hz. apply Hall, elem_of_cons. by right.
Qed.

(** C10.  When no record's month falls in the growing season, the filter
    leaves nothing and the four sub-indices and the composite score are
    those of the full, unfiltered series; the only trace is the warning
    in the log, and in the cohort loop the location is kept like any other
    that passes validation. *)
Theorem empty_growing_season_uses_full_series `{Calculate_acvi.SubIndices}
    (self : Calculate_acvi.ACVICalculator) (start_month end_month : Z)
    (df : DataFrame) :
  Calculate_acvi.growing_season self = Some (start_month, end_month) →
  (∀ d, d ∈ index df → Calculate_acvi.in_season start_month end_month d = false) →
  let result := (Calculate_acvi.calculate_acvi self df).1 in
  let full := mkFloatDict
                (Calculate_acvi.temperature_volatility_index self df)
                (Calculate_acvi.precipitation_volatility_index self df)
                (Calculate_acvi.moisture_stress_index self df)
                (Calculate_acvi.extreme_events_index self df) in
  len (Calculate_acvi.filter_growing_season self df).1 = 0%nat
  ∧ Calculate_acvi.components result = full
  ∧ Calculate_acvi.acvi_score result
    = Calculate_acvi.weighted_sum (Calculate_acvi.weights self) full
  ∧ (Calculate_acvi.calculate_acvi self df).2
    = [Calculate_acvi.debug_filtered 0 (len df);
       Calculate_acvi.warning_no_growing_data]
  ∧ ∀ (dirs : list (string * option DataFrame)) (loc : string),
      NoDup dirs.*1 → (loc, Some df) ∈ dirs →
      (Calculate_acvi.validate_input_data df).1 = true →
      (Calculate_acvi.raw_results self dirs).1 !! loc = Some result
      ∧ is_Some ((Calculate_acvi.calculate_all_locations self dirs).1 !! loc)
      ∧ Calculate_acvi.warning_skipping loc
          ∉ (Calculate_acvi.calculate_all_locations self dirs).2.
Proof.
  intros Hseason Hout result full.
  assert (Hlen : len (Calculate_acvi.filter_growing_season self df).1 = 0%nat).
  { unfold Calculate_acvi.filter_growing_season. rewrite Hseason.
    cbn [fst]. unfold len, select_rows. cbn [index].
    by rewrite select_none. }
  assert (Hcalc : Calculate_acvi.calculate_acvi self df
                  = (Calculate_acvi.score_series self df,
                     [Calculate_acvi.debug_filtered 0 (len df);
                      Calculate_acvi.warning_no_growing_data])).
  { unfold Calculate_acvi.calculate_acvi.
    unfold Calculate_acvi.filter_growing_season in *. rewrite Hseason in *.
    cbn [fst] in Hlen. rewrite Hlen. reflexivity. }
  subst result. rewrite Hcalc. cbn [fst snd].
  repeat split; [exact Hlen|..].
  all: destruct (loop_verdict self dirs loc df) as [_ Hkeep]; [done..|].
  all: destruct Hkeep as (Hraw & Hnorm & Hskip); [congruence|].
  - rewrite Hraw, Hcalc. reflexivity.
  - exact Hnorm.
  - exact Hskip.
Qed.

Lemma empty_growing_season_uses_full_series_witness :
  Calculate_acvi.components
    (Calculate_acvi.calculate_acvi (H := one_signal_indices)
       wheat_calculator df_winter).1
  = mkFloatDict (column_mean df_winter "T2M")
      (column_mean df_winter "PRECTOTCORR")
      (Float.mul (Float.sub (Some 1) (column_mean df_winter "GWETROOT"))
         (Some 100))
      (Some 0).
Proof.
  refine (proj1 (proj2
    (empty_growing_season_uses_full_series (H := one_signal_indices)
       wheat_calculator 4 9 df_winter _ _))).
  - reflexivity.
  - intros d Hd. unfold df_winter, winter_days in Hd. cbn [index] in Hd.
    repeat (apply elem_of_cons in Hd as [->|Hd]; [reflexivity|]).
    by apply elem_of_nil in Hd.
Defined.

(** ** Dry days and dry spells *)

Lemma dry_iff (v : cell) : dry v = true ↔ ∃ x, v = Some x ∧ x < 1.
Proof.
  destruct v as [x|]; simpl.
  - unfold Num.Qlt_bool. rewrite negb_true_iff. split.
    + intros Hle. exists x. split; [reflexivity|]. apply Qnot_le_lt.
      intros Hle'. apply Qle_bool_iff in Hle'. congruence.
    + intros (y & [= <-] & Hlt). apply not_true_iff_false. intros Hle.
      apply Qle_bool_iff in Hle. apply Qlt_not_le in Hlt. contradiction.
  - split; [discriminate|]. intros (x & Hx & _). discriminate.
Qed.

Lemma below_dry (v : cell) :
  Process_and_normalize.below 1 v = if dry v then 1%Z else 0%Z.
Proof. destruct v; reflexivity. Qed.

Lemma leading_dry_le (days : list cell) : (leading_dry days ≤ length days)%nat.
Proof.
  induction days as [|v days IH]; simpl; [lia|]. destruct (dry v); lia.
Qed.

Lemma leading_dry_snoc (days : list cell) (v : cell) :
  leading_dry (days ++ [v])
  = if (leading_dry days =? length days)%nat
    then (length days + (if dry v then 1 else 0))%nat
    else leading_dry days.
Proof.
  induction days as [|u days IH]; simpl.
  - destruct (dry v); reflexivity.
  - destruct (dry u); [|reflexivity]. rewrite IH.
    change (S (leading_dry days) =? S (length days))%nat
      with (leading_dry days =? length days)%nat.
    destruct (leading_dry days =? length days)%nat; reflexivity.
Qed.

Lemma dry_run_step (v : cell) (days : list cell) (j : nat) :
  (j < length days)%nat →
  dry_run_ending_at (v :: days) (S j)
  = if (dry_run_ending_at days j =? S j)%nat
    then (S j + (if dry v then 1 else 0))%nat
    else dry_run_ending_at days j.
Proof.
  intros Hj. unfold dry_run_ending_at.
  change (take (S (S j)) (v :: days)) with (v :: take (S j) days).
  rewrite reverse_cons, leading_dry_snoc, length_reverse, length_take.
  replace (S j `min` length days)%nat with (S j) by lia. reflexivity.
Qed.

(** The loop started with any counter: while every day so far is dry the
    counter grows from its start value, afterwards it is the length of
    the current run. *)
Lemma dry_spell_loop_lookup (prectotcorr : list cell) (current_spell : Z) (i : nat) :
  (i < length prectotcorr)%nat →
  Process_and_normalize.dry_spell_loop
    (Process_and_normalize.dry_days prectotcorr) current_spell !! i
  = Some (if (dry_run_ending_at prectotcorr i =? S i)%nat
          then (current_spell + Z.of_nat (S i))%Z
          else Z.of_nat (dry_run_ending_at prectotcorr i)).
Proof.
  revert current_spell i.
  induction prectotcorr as [|v days IH]; intros c i Hi; simpl in Hi; [lia|].
  unfold Process_and_normalize.dry_days. rewrite fmap_cons.
  fold (Process_and_normalize.dry_days days).
  cbn [Process_and_normalize.dry_spell_loop]. rewrite below_dry.
  destruct i as [|j].
  - cbn [lookup list_lookup]. unfold dry_run_ending_at. simpl.
    destruct (dry v); simpl; f_equal; lia.
  - cbn [lookup list_lookup]. rewrite IH by lia. rewrite dry_run_step by lia.
    pose proof (leading_dry_le (reverse (take (S j) days))) as Hle.
    rewrite length_reverse, length_take in Hle.
    fold (dry_run_ending_at days j) in Hle.
    destruct (dry_run_ending_at days j =? S j)%nat eqn:E.
    + apply Nat.eqb_eq in E.
      destruct (dry v); simpl;
        match goal with
        | |- context [(?a =? ?b)%nat] => destruct (Nat.eqb_spec a b)
        end; try lia; f_equal; lia.
    + apply Nat.eqb_neq in E.
      destruct (Nat.eqb_spec (dry_run_ending_at days j) (S (S j))); [lia|].
      reflexivity.
Qed.

Lemma dry_spell_length_lookup (prectotcorr : list cell) (i : nat) :
  (i < length prectotcorr)%nat →
  Process_and_normalize.dry_spell_length prectotcorr !! i
  = Some (Z.of_nat (dry_run_ending_at prectotcorr i)).
Proof.
  intros Hi. unfold Process_and_normalize.dry_spell_length.
  rewrite dry_spell_loop_lookup by exact Hi.
  destruct (dry_run_ending_at prectotcorr i =? S i)%nat eqn:E; [|reflexivity].
  apply Nat.eqb_eq in E. rewrite E. f_equal.
Qed.

(** On a wet day, and on a day without a value, the run is empty. *)
Lemma dry_run_wet (prectotcorr : list cell) (i : nat) (v : cell) :
  prectotcorr !! i = Some v → dry v = false → dry_run_ending_at prectotcorr i = O.
Proof.
  intros Hv Hwet. unfold dry_run_ending_at.
  rewrite (take_S_r _ _ _ Hv), reverse_app. simpl. by rewrite Hwet.
Qed.

(** On a dry day the run is one longer than the run of the day before. *)
Lemma dry_run_dry (prectotcorr : list cell) (i : nat) (v : cell) :
  prectotcorr !! i = Some v → dry v = true →
  dry_run_ending_at prectotcorr i
  = S (match i with O => O | S j => dry_run_ending_at prectotcorr j end).
Proof.
  intros Hv Hdry. unfold dry_run_ending_at.
  rewrite (take_S_r _ _ _ Hv), reverse_app. simpl. rewrite Hdry. f_equal.
  destruct i; reflexivity.
Qed.

Lemma column_set_column (name other : string) (values : list cell) (df : DataFrame) :
  column (set_column name values df) other
  = if decide (name = other) then values else column df other.
Proof.
  unfold column, set_column. cbn [columns]. rewrite lookup_insert.
  destruct (decide (name = other)); reflexivity.
Qed.

Lemma derived_dry_columns `{NumpyMath} (df : DataFrame) :
  has_column df "PRECTOTCORR" = true →
  let out := Process_and_normalize.compute_derived_metrics df in
  column out "DRY_DAYS"
  = Process_and_normalize.int_cell
      <$> Process_and_normalize.dry_days (column df "PRECTOTCORR")
  ∧ column out "DRY_SPELL_LENGTH"
    = Process_and_normalize.int_cell
        <$> Process_and_normalize.dry_spell_length (column df "PRECTOTCORR").
Proof.
  intros Hprec. unfold Process_and_normalize.compute_derived_metrics.
  rewrite Hprec. unfold Process_and_normalize.when.
  destruct (has_column df "T2M"), (has_column df "RH2M"),
    (has_column df "T2M_MAX"), (has_column df "T2M_MIN"); cbn [andb];
    repeat (rewrite column_set_column;
            first [rewrite decide_False by discriminate
                  |rewrite decide_True by reflexivity]);
    split; reflexivity.
Qed.

(** C9.  In the derived table every day is flagged dry exactly when it
    has a precipitation value below 1.0, and the running count at a day is
    the number of consecutive dry days ending at that day: 0 on any day
    that is not dry, one more than the day before on a dry day. *)
Theorem dry_days_and_spells `{NumpyMath} (df : DataFrame) (i : nat) (v : cell) :
  has_column df "PRECTOTCORR" = true →
  column df "PRECTOTCORR" !! i = Some v →
  let out := Process_and_normalize.compute_derived_metrics df in
  let prectotcorr := column df "PRECTOTCORR" in
  column out "DRY_DAYS" !! i
  = Some (Process_and_normalize.int_cell (if dry v then 1 else 0))
  ∧ (dry v = true ↔ ∃ x, v = Some x ∧ x < 1)
  ∧ column out "DRY_SPELL_LENGTH" !! i
    = Some (Process_and_normalize.int_cell
              (Z.of_nat (dry_run_ending_at prectotcorr i)))
  ∧ (dry v = false → dry_run_ending_at prectotcorr i = O)
  ∧ (dry v = true →
     dry_run_ending_at prectotcorr i
     = S (match i with O => O | S j => dry_run_ending_at prectotcorr j end)).
Proof.
  intros Hprec Hv out prectotcorr.
  destruct (derived_dry_columns df Hprec) as [Hdays Hspell].
  fold out in Hdays, Hspell. fold prectotcorr in Hdays, Hspell, Hv.
  repeat split.
  - rewrite Hdays, list_lookup_fmap. unfold Process_and_normalize.dry_days.
    by rewrite list_lookup_fmap, Hv, <- below_dry.
  - apply dry_iff.
  - apply dry_iff.
  - rewrite Hspell, list_lookup_fmap, dry_spell_length_lookup; [reflexivity|].
    by eapply lookup_lt_Some.
  - intros Hwet. by eapply dry_run_wet.
  - intros Hdry. by eapply dry_run_dry.
Qed.

Example df_rain_derived :
  column (Process_and_normalize.compute_derived_metrics (H := exp_stand_in) df_rain)
    "DRY_DAYS"
  = [Some 1; Some 1; Some 0; Some 1; Some 0; Some 1]
  ∧ column (Process_and_normalize.compute_derived_metrics (H := exp_stand_in) df_rain)
      "DRY_SPELL_LENGTH"
    = [Some 1; Some 2; Some 0; Some 1; Some 0; Some 1].
Proof. split; vm_compute; reflexivity. Qed.

Lemma dry_days_and_spells_witness :
  column (Process_and_normalize.compute_derived_metrics (H := exp_stand_in) df_rain)
    "DRY_SPELL_LENGTH" !! 1%nat
  = Some (Process_and_normalize.int_cell
            (Z.of_nat (dry_run_ending_at (column df_rain "PRECTOTCORR") 1))).
Proof.
  refine (proj1 (proj2 (proj2
    (dry_days_and_spells (H := exp_stand_in) df_rain 1 (Some 0.5) _ _)))).
  - vm_compute. reflexivity.
  - vm_compute. reflexivity.
Defined.

(** ** The weight-scenario battery *)

Section Generator.
Context `{NumpyRandom}.

Lemma uniform_range (low high : Q) (g : RandomState) :
  unit_interval_draws → low <= high →
  low <= (uniform low high g).1 <= high.
Proof.
  intros Hunit Hle. unfold uniform, mbind, Rand_bind, mret, Rand_ret.
  specialize (Hunit g). destruct (random_sample g) as [u g']. cbn [fst] in *.
  split; nra.
Qed.

Lemma draw_factors_range (low high : Q) (g : RandomState) (c : Component) :
  unit_interval_draws → low <= high →
  low <= get (Analys.draw_factors low high g).1 c <= high.
Proof.
  intros Hunit Hle. unfold Analys.draw_factors, mbind, Rand_bind, mret, Rand_ret.
  pose proof (uniform_range low high g Hunit Hle) as H1.
  destruct (uniform low high g) as [v1 g1].
  pose proof (uniform_range low high g1 Hunit Hle) as H2.
  destruct (uniform low high g1) as [v2 g2].
  pose proof (uniform_range low high g2 Hunit Hle) as H3.
  destruct (uniform low high g2) as [v3 g3].
  pose proof (uniform_range low high g3 Hunit Hle) as H4.
  destruct (uniform low high g3) as [v4 g4].
  destruct c; assumption.
Qed.

Lemma repeatM_length {A : Type} (n : nat) (body : Rand A) (g : RandomState) :
  length (repeatM n body g).1 = n.
Proof.
  revert g. induction n as [|n IH]; intros g; [reflexivity|].
  cbn [repeatM]. unfold mbind, Rand_bind, mret, Rand_ret.
  destruct (body g) as [x g1]. specialize (IH g1).
  destruct (repeatM n body g1) as [rest g2]. simpl in *. by rewrite IH.
Qed.

Lemma repeatM_Forall {A : Type} (P : A → Prop) (n : nat) (body : Rand A)
    (g : RandomState) :
  (∀ g', P (body g').1) → Forall P (repeatM n body g).1.
Proof.
  intros Hbody. revert g. induction n as [|n IH]; intros g; [constructor|].
  cbn [repeatM]. unfold mbind, Rand_bind, mret, Rand_ret.
  specialize (Hbody g). destruct (body g) as [x g1]. specialize (IH g1).
  destruct (repeatM n body g1) as [rest g2]. simpl in *. by constructor.
Qed.

Lemma repeatM_fmap {A B : Type} (f : A → B) (n : nat) (body : Rand A)
    (g : RandomState) :
  repeatM n (f <$> body) g
  = ((f <$> (repeatM n body g).1), (repeatM n body g).2).
Proof.
  revert g. induction n as [|n IH]; intros g; [reflexivity|].
  cbn [repeatM]. unfold mbind, Rand_bind, mret, Rand_ret, fmap at 1, Rand_fmap.
  destruct (body g) as [x g1]. rewrite IH.
  destruct (repeatM n body g1) as [rest g2]. reflexivity.
Qed.

End Generator.

(** Renormalized weights sum to 1 and keep their proportions. *)
Lemma perturbed_weights_spec (variation : ComponentDict) :
  (∀ c, 0 < get variation c) →
  let scaled c := get Analys.default_weights c * get variation c in
  let total := scaled Temperature_volatility + scaled Precipitation_volatility
               + scaled Moisture_stress + scaled Extreme_events in
  sum_values (Analys.perturbed_weights variation) == 1
  ∧ ∀ c, get (Analys.perturbed_weights variation) c == scaled c / total.
Proof.
  intros Hpos scaled total.
  pose proof (Hpos Temperature_volatility) as H1.
  pose proof (Hpos Precipitation_volatility) as H2.
  pose proof (Hpos Moisture_stress) as H3.
  pose proof (Hpos Extreme_events) as H4.
  destruct variation as [v1 v2 v3 v4]. simpl in H1, H2, H3, H4. clear Hpos.
  subst total scaled. unfold Analys.perturbed_weights, Analys.renormalize.
  split.
  - unfold sum_values. simpl. field. lra.
  - intros c. destruct c; reflexivity.
Qed.

(** The four factors of one perturbation come from four successive draws
    of the generator, one per component. *)
Lemma draw_factors_successive `{NumpyRandom} (low high : Q) (g0 : RandomState) :
  let '(u1, g1) := random_sample g0 in
  let '(u2, g2) := random_sample g1 in
  let '(u3, g3) := random_sample g2 in
  let '(u4, g4) := random_sample g3 in
  Analys.draw_factors low high g0
  = (mkComponentDict (low + (high - low) * u1) (low + (high - low) * u2)
       (low + (high - low) * u3) (low + (high - low) * u4), g4).
Proof.
  unfold Analys.draw_factors, uniform, mbind, Rand_bind, mret, Rand_ret.
  destruct (random_sample g0) as [u1 g1].
  destruct (random_sample g1) as [u2 g2].
  destruct (random_sample g2) as [u3 g3].
  destruct (random_sample g3) as [u4 g4]. reflexivity.
Qed.

(** The factors of the [k]-th of [n] successive perturbations are the
    draws 4k, 4k+1, 4k+2 and 4k+3 of the generator, one per component. *)
Lemma repeated_draw_factors `{NumpyRandom} (low high : Q) (n : nat)
    (g : RandomState) (k : nat) (variation : ComponentDict) (c : Component) :
  (repeatM n (Analys.draw_factors low high) g).1 !! k = Some variation →
  ∃ draw, raw_draws (4 * n) g !! (4 * k + component_index c)%nat = Some draw
          ∧ get variation c = low + (high - low) * draw.
Proof.
  revert g k. induction n as [|n IH]; intros g k Hk; [discriminate Hk|].
  replace (4 * S n)%nat with (S (S (S (S (4 * n))))) by lia.
  cbn [repeatM] in Hk. unfold mbind, Rand_bind, mret, Rand_ret in Hk.
  pose proof (draw_factors_successive low high g) as Hdraw.
  cbn [raw_draws].
  destruct (random_sample g) as [u1 g1].
  destruct (random_sample g1) as [u2 g2].
  destruct (random_sample g2) as [u3 g3].
  destruct (random_sample g3) as [u4 g4].
  rewrite Hdraw in Hk. specialize (IH g4).
  destruct (repeatM n (Analys.draw_factors low high) g4) as [rest g'].
  cbn [fst] in *. destruct k as [|k].
  - injection Hk as <-. destruct c; eexists; (split; [reflexivity|reflexivity]).
  - cbn [lookup list_lookup] in Hk. destruct (IH k Hk) as (draw & Hdraw' & Hget).
    exists draw. split; [|exact Hget].
    replace (4 * S k + component_index c)%nat
      with (S (S (S (S (4 * k + component_index c))))) by lia.
    exact Hdraw'.
Qed.

Lemma raw_draws_length `{NumpyRandom} (n : nat) (g : RandomState) :
  length (raw_draws n g) = n.
Proof.
  revert g. induction n as [|n IH]; intros g; [reflexivity|].
  cbn [raw_draws]. destruct (random_sample g) as [u g']. cbn [length].
  by rewrite IH.
Qed.

(** C5.  The battery holds exactly 17 weight vectors in this order: the
    equal weights; four vectors with one component at 0.5 and the others
    at 0.167; four with one component at 0.1 and the others at 0.3; six
    perturbations of the default weights; and the two fixed
    alternatives.  In the [k]-th perturbation each component is
    multiplied by its own factor, 0.8 + (1.2 - 0.8) u with u the draw
    number 4k + (place of the component) of the generator seeded with
    42, a uniform factor in [0.8, 1.2], and the vector is renormalized
    to sum 1. *)
Theorem weight_scenario_battery `{NumpyRandom} (g0 : RandomState) :
  unit_interval_draws →
  let scenarios := (Analys._generate_weight_scenarios g0).1 in
  let draws := raw_draws 24 (np_random_seed 42) in
  ∃ perturbed : list ComponentDict,
    length scenarios = 17%nat
    ∧ scenarios
      = [mkComponentDict 0.25 0.25 0.25 0.25;
         mkComponentDict 0.5 0.167 0.167 0.167;
         mkComponentDict 0.167 0.5 0.167 0.167;
         mkComponentDict 0.167 0.167 0.5 0.167;
         mkComponentDict 0.167 0.167 0.167 0.5;
         mkComponentDict 0.1 0.3 0.3 0.3;
         mkComponentDict 0.3 0.1 0.3 0.3;
         mkComponentDict 0.3 0.3 0.1 0.3;
         mkComponentDict 0.3 0.3 0.3 0.1]
        ++ perturbed
        ++ [mkComponentDict 0.40 0.40 0.15 0.05;
            mkComponentDict 0.15 0.15 0.40 0.30]
    ∧ length perturbed = 6%nat
    ∧ length draws = 24%nat
    ∧ ∀ k weights, perturbed !! k = Some weights →
        ∃ factors : ComponentDict,
          (∀ c, ∃ u, draws !! (4 * k + component_index c)%nat = Some u
                     ∧ get factors c = 0.8 + (1.2 - 0.8) * u
                     ∧ 0.8 <= get factors c <= 1.2)
          ∧ sum_values weights == 1
          ∧ ∀ c, get weights c
                 == get Analys.default_weights c * get factors c
                    / Num.sum ((λ c', get Analys.default_weights c' * get factors c')
                                 <$> Analys.components).
Proof.
  intros Hunit scenarios draws.
  set (variations := (repeatM 6 (Analys.draw_factors 0.8 1.2) (np_random_seed 42)).1).
  exists (Analys.perturbed_weights <$> variations).
  assert (Hlen : length variations = 6%nat) by apply repeatM_length.
  assert (Hscen : scenarios
    = [mkComponentDict 0.25 0.25 0.25 0.25;
       mkComponentDict 0.5 0.167 0.167 0.167;
       mkComponentDict 0.167 0.5 0.167 0.167;
       mkComponentDict 0.167 0.167 0.5 0.167;
       mkComponentDict 0.167 0.167 0.167 0.5;
       mkComponentDict 0.1 0.3 0.3 0.3;
       mkComponentDict 0.3 0.1 0.3 0.3;
       mkComponentDict 0.3 0.3 0.1 0.3;
       mkComponentDict 0.3 0.3 0.3 0.1]
      ++ (Analys.perturbed_weights <$> variations)
      ++ [mkComponentDict 0.40 0.40 0.15 0.05;
          mkComponentDict 0.15 0.15 0.40 0.30]).
  { subst scenarios variations. unfold Analys._generate_weight_scenarios.
    unfold mbind at 1, Rand_bind at 1, reseed.
    unfold mbind, Rand_bind. rewrite repeatM_fmap.
    destruct (repeatM 6 _ _) as [vs g']. cbn [fst snd mret Rand_ret].
    rewrite <- !app_assoc. reflexivity. }
  split; [|split; [exact Hscen|split; [by rewrite length_fmap|split]]].
  - rewrite Hscen, !length_app, length_fmap, Hlen. reflexivity.
  - apply raw_draws_length.
  - intros k weights Hk. rewrite list_lookup_fmap in Hk.
    destruct (variations !! k) as [factors|] eqn:Hfactors; [|discriminate Hk].
    injection Hk as <-. exists factors.
    assert (Hrange : ∀ c, 0.8 <= get factors c <= 1.2).
    { assert (Hall : Forall (λ v, ∀ c, 0.8 <= get v c <= 1.2) variations).
      { subst variations. apply repeatM_Forall. intros g c.
        apply draw_factors_range; [exact Hunit|discriminate]. }
      rewrite Forall_forall in Hall. apply Hall.
      by eapply list_elem_of_lookup_2. }
    split.
    + intros c.
      destruct (repeated_draw_factors 0.8 1.2 6 (np_random_seed 42) k factors c
                  Hfactors) as (u & Hu & Hget).
      exists u. split; [exact Hu|]. split; [exact Hget|apply Hrange].
    + destruct (perturbed_weights_spec factors) as [Hsum Hprop].
      { intros c. specialize (Hrange c). lra. }
      split; [exact Hsum|]. intros c. rewrite Hprop.
      apply Qdiv_comp; [reflexivity|].
      unfold Analys.components, Num.sum. simpl. ring.
Qed.

Lemma lcg_unit_interval : unit_interval_draws (H := lcg).
Proof.
  intros g. cbn [random_sample lcg lcg_sample fst].
  pose proof (Z.mod_pos_bound (1103515245 * g + 12345) 2147483648 eq_refl) as Hb.
  fold (lcg_next g) in Hb. revert Hb. generalize (lcg_next g). intros z Hz.
  unfold Qdiv, Qmult, Qinv, Qle, Qlt, inject_Z. simpl. lia.
Qed.

Lemma weight_scenario_battery_witness :
  length (Analys._generate_weight_scenarios (H := lcg) 7%Z).1 = 17%nat.
Proof.
  destruct (weight_scenario_battery (H := lcg) 7%Z lcg_unit_interval)
    as (perturbed & Hlen & _).
  exact Hlen.
Defined.

(** ** Reproducibility of the seeded runs *)

(** C7.  Whatever state the global generator is in when each run starts,
    two runs on the same score table return the same weight scenarios
    (the six perturbed ones included) and the same outcome for each of
    the 1000 Monte Carlo trials, and leave the generator in the same
    state: both reseed it with 42 before the first draw. *)
Theorem seeded_runs_agree `{NumpyRandom} (acvi_df : list Analys.Row)
    (g1 g2 : RandomState) :
  Analys._generate_weight_scenarios g1 = Analys._generate_weight_scenarios g2
  ∧ take 6 (drop 9 (Analys._generate_weight_scenarios g1).1)
    = take 6 (drop 9 (Analys._generate_weight_scenarios g2).1)
  ∧ Analys.monte_carlo_simulation acvi_df 1000 g1
    = Analys.monte_carlo_simulation acvi_df 1000 g2
  ∧ length (Analys.monte_carlo_simulation acvi_df 1000 g1).1 = 1000%nat
  ∧ ∀ i, Analys.ranking_correlation
           <$> ((Analys.monte_carlo_simulation acvi_df 1000 g1).1 !! i)
         = Analys.ranking_correlation
             <$> ((Analys.monte_carlo_simulation acvi_df 1000 g2).1 !! i)
         ∧ Analys.score_mse
             <$> ((Analys.monte_carlo_simulation acvi_df 1000 g1).1 !! i)
           = Analys.score_mse
               <$> ((Analys.monte_carlo_simulation acvi_df 1000 g2).1 !! i)
         ∧ Analys.top_10_overlap
             <$> ((Analys.monte_carlo_simulation acvi_df 1000 g1).1 !! i)
           = Analys.top_10_overlap
               <$> ((Analys.monte_carlo_simulation acvi_df 1000 g2).1 !! i).
Proof.
  assert (Hscen : Analys._generate_weight_scenarios g1
                  = Analys._generate_weight_scenarios g2) by reflexivity.
  assert (Hmc : ∀ n, Analys.monte_carlo_simulation acvi_df n g1
                     = Analys.monte_carlo_simulation acvi_df n g2)
    by (intros n; reflexivity).
  split; [exact Hscen|]. split; [by rewrite Hscen|].
  split; [apply Hmc|]. split.
  - unfold Analys.monte_carlo_simulation, mbind, Rand_bind, reseed.
    apply repeatM_length.
  - intros i. by rewrite (Hmc 1000%nat).
Qed.

(** ** A Monte Carlo trial without noise *)

(** With the jitter range collapsed to [1, 1] every weight factor is 1,
    and with standard deviation 0 every noise factor is 1, whatever the
    generator draws. *)
Lemma collapsed_draws `{NumpyRandom} (n : nat) (g : RandomState) :
  (uniform 1 1 g).1 == 1 ∧ Forall (λ x, x == 1) (normal 1 0 n g).1.
Proof.
  split.
  - unfold uniform, mbind, Rand_bind, mret, Rand_ret.
    destruct (random_sample g) as [u g']. cbn [fst]. ring.
  - revert g. induction n as [|n IH]; intros g; [constructor|].
    cbn [normal]. unfold mbind, Rand_bind, mret, Rand_ret.
    destruct (standard_normal g) as [z g1]. specialize (IH g1).
    destruct (normal 1 0 n g1) as [rest g2]. cbn [fst] in *.
    constructor; [ring|exact IH].
Qed.

(** What a trial without noise computes, on every table: each location
    is scored by the default weights on its components clipped to
    [0, 1]. *)
Lemma noiseless_trial_scores (acvi_df : list Analys.Row) (i : nat) (r : Analys.Row) :
  acvi_df !! i = Some r →
  ∃ p, Analys._calculate_acvi_with_weights
         (Analys.noisy_rows acvi_df (no_noise (length acvi_df)))
         (Analys.perturbed_weights unit_factors) !! i = Some p
       ∧ Analys.location p.1 = Analys.location r
       ∧ p.2 == Num.sum ((λ c, get Analys.default_weights c
                               * Num.clip (get (Analys.comps r) c) 0 1)
                           <$> Analys.components).
Proof.
  intros Hr. unfold Analys._calculate_acvi_with_weights, Analys.noisy_rows.
  rewrite list_lookup_fmap, list_lookup_imap, Hr. cbn [fmap option_fmap option_map].
  eexists. split; [reflexivity|]. split; [reflexivity|].
  assert (Hone : ∀ c, no_noise (length acvi_df) c !! i = Some 1).
  { intros c. apply lookup_replicate_2. by eapply lookup_lt_Some. }
  cbn [snd]. unfold Analys.acvi_new. cbn [Analys.comps comprehension
    temperature_volatility precipitation_volatility moisture_stress extreme_events].
  rewrite !Hone. cbn [default].
  assert (Hclip : ∀ x, Num.clip (x * 1) 0 1 == Num.clip x 0 1).
  { intros x. unfold Num.clip. apply Q.min_compat; [|reflexivity].
    apply Q.max_compat; [ring|reflexivity]. }
  rewrite !Hclip. unfold Analys.components, Num.sum. simpl.
  set (total := sum_values _).
  assert (Htotal : total == 1) by (subst total; vm_compute; reflexivity).
  rewrite Htotal. field.
Qed.

(** [score_table_3] is what the calculator writes for [raw_cohort_3]. *)
Lemma score_table_3_from_calculator :
  Forall (λ r,
    ∃ n, Calculate_acvi.normalize_components wheat_calculator raw_cohort_3
           !! Analys.location r = Some n
         ∧ float_is (Calculate_acvi.n_acvi_score n) (Analys.acvi_score r)
         ∧ ∀ c, float_is (fget (Calculate_acvi.n_components n) c)
                  (get (Analys.comps r) c))
    score_table_3.
Proof.
  repeat constructor;
    (eexists; split; [vm_compute; reflexivity|];
     split; [eexists; split; [reflexivity|vm_compute; reflexivity]|];
     intros []; (eexists; split; [reflexivity|vm_compute; reflexivity])).
Qed.

(** C4, on a concrete table.  A trial whose weight factors and noise
    factors are all exactly 1 does not reproduce the baseline of
    [score_table_3]: the components are clipped to [0, 1] before they are
    weighted, so the trial scores are 0.6, 1 and 0.4 against the baseline
    40, 30 and 60, the mean squared error is not 0 and the ranking is
    reversed (rank correlation -1).  The same happens when the baseline
    itself is computed with the analyzer's default weights (rank
    correlation -1/2), and when the factors are drawn by a generator with
    the range [1, 1] and the standard deviation 0. *)
Theorem noiseless_trial_misses_baseline :
  let t := Analys.trial score_table_3 unit_factors (no_noise 3) in
  let t' := Analys.trial score_table_3_default unit_factors (no_noise 3) in
  let drawn := (Analys.draw_trial (H := lcg) 1 1 1 0 score_table_3
                  (np_random_seed (NumpyRandom := lcg) 42)).1 in
  (∀ c, get (Analys.perturbed_weights unit_factors) c
        == get Analys.default_weights c)
  ∧ Forall2 Qeq
      (snd <$> Analys._calculate_acvi_with_weights
                 (Analys.noisy_rows score_table_3 (no_noise 3))
                 (mkComponentDict 0.30 0.30 0.25 0.15))
      [0.6; 1; 0.4]
  ∧ (∃ rho, Analys.ranking_correlation t = Some rho ∧ rho == -1)
  ∧ ¬ Analys.score_mse t == 0
  ∧ (∃ rho, Analys.ranking_correlation t' = Some rho ∧ rho == -(1/2))
  ∧ ¬ Analys.score_mse t' == 0
  ∧ (∃ rho, Analys.ranking_correlation drawn = Some rho ∧ rho == -1)
  ∧ ¬ Analys.score_mse drawn == 0.
Proof.
  cbn zeta.
  split; [intros []; vm_compute; reflexivity|].
  split; [repeat constructor; vm_compute; reflexivity|].
  repeat split;
    first [ eexists; split; [vm_compute; reflexivity|vm_compute; reflexivity]
          | vm_compute; discriminate ].
Qed.

(** ** Variance inflation *)






Lemma design_predictors (df : list ComponentDict) (c : Component) :
  Analys.design df c = predictors df c.
Proof. unfold Analys.design, predictors. by destruct c. Qed.





(** Fewer than two fitted values: R² is NaN. *)
Lemma r2_score_nan (y fitted : list Q) :
  (length fitted < 2)%nat → Analys.r2_score y fitted = Float.NaN.
Proof.
  intros Hlen. unfold Analys.r2_score.
  by destruct (Nat.ltb_spec (length fitted) 2) as [_|Hge]; [|lia].
Qed.


(** On a table with fewer than two rows fitted, the factor is NaN. *)
Lemma vif_of_nan `{Sklearn} (df : list ComponentDict) (target_col : Component) :
  Analys.r_squared df target_col = Float.NaN →
  Analys._calculate_vif df target_col = Float.NaN.
Proof. intros Hr2. unfold Analys._calculate_vif. by rewrite Hr2. Qed.



(** Without scikit-learn every factor is reported as 1. *)
Lemma vif_scores_without_sklearn (acvi_df : list Analys.Row) (c : Component) :
  fget (Analys.vif_scores None acvi_df) c = Some 1.
Proof. destruct c; reflexivity. Qed.

Example component_table_vif :
  float_is (Analys.r_squared (H := simple_regression) component_table
              Temperature_volatility) (27 # 28)
  ∧ float_is (Analys._calculate_vif (H := simple_regression) component_table
                Temperature_volatility) 28
  ∧ float_is (Analys._calculate_vif (H := simple_regression) component_table
                Moisture_stress) 999.99.
Proof.
  split; [|split];
    (eexists; split; [vm_compute; reflexivity|vm_compute; reflexivity]).
Qed.



(** ** Validation against yield volatility *)





Section CropLoop.
Context `{Scipy}.

(** One turn of the crop loop: below three joined rows nothing is stored
    and "insufficient data" is printed; from three rows on the result is
    stored under the crop and the summary line is printed. *)
Lemma correlate_crop_spec (country_acvi : list Validate_acvi.CountryRow)
    (fao_df : list Validate_acvi.YieldRow)
    (st : gmap string Validate_acvi.CropResult * list Validate_acvi.Printed)
    (crop_name : string) :
  let merged := Validate_acvi.merge country_acvi
                  (filter (λ r, Validate_acvi.crop r = crop_name) fao_df) in
  let st' := Validate_acvi.correlate_crop country_acvi fao_df st crop_name in
  ((length merged < 3)%nat
   ∧ st'.1 = st.1
   ∧ st'.2 = st.2 ++ [Validate_acvi.insufficient_data crop_name (length merged)])
  ∨ ((3 ≤ length merged)%nat
     ∧ (∃ res, st'.1 = <[crop_name := res]> st.1
               ∧ Validate_acvi.data res = merged
               ∧ Validate_acvi.correlations res
                 = Validate_acvi.metric_correlations merged Validate_acvi.Cv_yield
                   ++ Validate_acvi.metric_correlations merged
                        Validate_acvi.Detrended_cv)
     ∧ ∃ r p, st'.2 = st.2 ++ [Validate_acvi.crop_summary crop_name r p
                                 (length merged)]).
Proof.
  intros merged st'. subst st'. destruct st as [results out].
  unfold Validate_acvi.correlate_crop. fold merged.
  destruct (Nat.ltb_spec (length merged) 3) as [Hlt|Hge].
  - left. done.
  - right. split; [exact Hge|]. split.
    + eexists. split; [reflexivity|]. split; reflexivity.
    + cbn [snd].
      destruct (Validate_acvi.metric_correlations merged Validate_acvi.Cv_yield
                ++ _) as [|[k c] rest]; eauto.
Qed.

End CropLoop.


Example yield_table_validation :
  let run := Validate_acvi.calculate_correlations (H := signed_r_squared)
               score_table_3 yield_table in
  (Validate_acvi.country <$> Validate_acvi.aggregate_location_acvi score_table_3)
  = ["DE"; "PL"; "UA"]
  ∧ is_Some (run.1 !! "wheat") ∧ run.1 !! "maize" = None
  ∧ Validate_acvi.insufficient_data "maize" 2 ∈ run.2.
Proof.
  cbn zeta. split; [vm_compute; reflexivity|].
  split; [vm_compute; eauto|]. split; [vm_compute; reflexivity|].
  vm_compute. apply elem_of_cons. right. apply elem_of_cons. right.
  apply elem_of_cons. by left.
Qed.


(* ===================================================================== *)
(** * Part III: further properties of the code *)
(* ===================================================================== *)

(** ** Sorting and percentiles *)

Lemma insert_asc_Permutation (x : Q) (l : list Q) : Num.insert_asc x l ≡ₚ x :: l.
Proof.
  induction l as [|y l IH]; simpl; [reflexivity|].
  destruct (Qle_bool x y); [reflexivity|].
  rewrite IH. apply Permutation_swap.
Qed.

Lemma sort_Permutation (l : list Q) : Num.sort l ≡ₚ l.
Proof.
  unfold Num.sort. induction l as [|x l IH]; simpl; [reflexivity|].
  by rewrite insert_asc_Permutation, IH.
Qed.

Lemma insert_asc_sorted (x : Q) (l : list Q) :
  StronglySorted Qle l → StronglySorted Qle (Num.insert_asc x l).
Proof.
  induction 1 as [|y l Hsorted IH Hall]; simpl.
  - repeat constructor.
  - destruct (Qle_bool x y) eqn:E.
    + apply Qle_bool_iff in E. constructor; [by constructor|].
      constructor; [exact E|].
      eapply Forall_impl; [exact Hall|]. intros z Hz. cbn in Hz. lra.
    + assert (Hyx : y <= x).
      { apply Qlt_le_weak, Qnot_le_lt. intros Hle.
        apply Qle_bool_iff in Hle. congruence. }
      constructor; [exact IH|].
      rewrite insert_asc_Permutation. by constructor.
Qed.

Lemma sort_sorted (l : list Q) : StronglySorted Qle (Num.sort l).
Proof.
  unfold Num.sort. induction l as [|x l IH]; simpl; [constructor|].
  by apply insert_asc_sorted.
Qed.

Lemma sorted_lookup_le (l : list Q) (i j : nat) (x y : Q) :
  StronglySorted Qle l → (i ≤ j)%nat →
  l !! i = Some x → l !! j = Some y → x <= y.
Proof.
  intros Hs. revert i j. induction Hs as [|z l Hs IH Hall]; intros i j Hij Hi Hj.
  { by rewrite lookup_nil in Hi. }
  destruct i as [|i], j as [|j]; simpl in *; try lia.
  - injection Hi as <-. injection Hj as <-. lra.
  - injection Hi as <-. rewrite Forall_forall in Hall.
    apply Hall. by eapply list_elem_of_lookup_2.
  - eapply IH; [|exact Hi|exact Hj]. lia.
Qed.

Lemma lerp_between (a b f : Q) :
  a <= b → 0 <= f <= 1 → a <= a + f * (b - a) <= b.
Proof.
  intros Hab [Hf0 Hf1].
  assert (H1 : 0 <= f * (b - a)) by (apply Qmult_le_0_compat; lra).
  assert (H2 : 0 <= (1 - f) * (b - a)) by (apply Qmult_le_0_compat; lra).
  split; lra.
Qed.

Lemma lerp_mono (a b f1 f2 : Q) :
  a <= b → f1 <= f2 → a + f1 * (b - a) <= a + f2 * (b - a).
Proof.
  intros Hab Hf.
  assert (H1 : 0 <= (f2 - f1) * (b - a)) by (apply Qmult_le_0_compat; lra).
  lra.
Qed.

Lemma percentile_interpolate (a : list Q) (q : Q) :
  Num.percentile a q
  = interpolate (Num.sort a)
      (inject_Z (Z.of_nat (length (Num.sort a) - 1)) * q / 100).
Proof. reflexivity. Qed.

(** Where the virtual index [h] falls: between two positions of the
    data, with a fraction in [0, 1). *)
Lemma virtual_index (s : list Q) (h : Q) :
  s ≠ [] → 0 <= h <= inject_Z (Z.of_nat (length s - 1)) →
  let lo := Z.to_nat (Qfloor h) in
  let hi := Nat.min (S lo) (length s - 1) in
  (lo ≤ hi)%nat ∧ (hi < length s)%nat
  ∧ inject_Z (Z.of_nat lo) = inject_Z (Qfloor h)
  ∧ 0 <= h - inject_Z (Qfloor h) <= 1.
Proof.
  intros Hne [Hh0 Hhn] lo hi.
  assert (Hlen : (0 < length s)%nat) by (destruct s; [done|simpl; lia]).
  assert (Hk0 : (0 <= Qfloor h)%Z).
  { change 0%Z with (Qfloor 0). by apply Qfloor_resp_le. }
  assert (Hkn : (Qfloor h <= Z.of_nat (length s - 1))%Z).
  { rewrite <- (Qfloor_Z (Z.of_nat (length s - 1))). by apply Qfloor_resp_le. }
  pose proof (Qfloor_le h) as Hfl. pose proof (Qlt_floor h) as Hfu.
  rewrite inject_Z_plus in Hfu.
  subst lo hi. repeat split; try lia.
  - by rewrite Z2Nat.id.
  - lra.
  - change (inject_Z 1) with 1 in Hfu. lra.
Qed.

Lemma interpolate_between (s : list Q) (h : Q) :
  StronglySorted Qle s → s ≠ [] →
  0 <= h <= inject_Z (Z.of_nat (length s - 1)) →
  ∃ x y, s !! Z.to_nat (Qfloor h) = Some x
         ∧ s !! Nat.min (S (Z.to_nat (Qfloor h))) (length s - 1) = Some y
         ∧ x <= interpolate s h <= y.
Proof.
  intros Hs Hne Hh.
  destruct (virtual_index s h Hne Hh) as (Hlohi & Hhi & _ & Hfrac).
  set (lo := Z.to_nat (Qfloor h)) in *.
  set (hi := Nat.min (S lo) (length s - 1)) in *.
  destruct (lookup_lt_is_Some_2 s lo) as [x Hx]; [lia|].
  destruct (lookup_lt_is_Some_2 s hi) as [y Hy]; [lia|].
  exists x, y. split; [exact Hx|]. split; [exact Hy|].
  unfold interpolate. fold lo. fold hi.
  rewrite !nth_lookup, Hx, Hy. cbn [default from_option id].
  apply lerp_between; [|exact Hfrac].
  exact (sorted_lookup_le s lo hi x y Hs Hlohi Hx Hy).
Qed.

Lemma interpolate_mono (s : list Q) (h1 h2 : Q) :
  StronglySorted Qle s → s ≠ [] →
  0 <= h1 → h1 <= h2 → h2 <= inject_Z (Z.of_nat (length s - 1)) →
  interpolate s h1 <= interpolate s h2.
Proof.
  intros Hs Hne H0 H12 Hn.
  destruct (interpolate_between s h1 Hs Hne) as (x1 & y1 & Hx1 & Hy1 & Hv1); [lra|].
  destruct (interpolate_between s h2 Hs Hne) as (x2 & y2 & Hx2 & Hy2 & Hv2); [lra|].
  assert (Hk : (Qfloor h1 <= Qfloor h2)%Z) by by apply Qfloor_resp_le.
  assert (Hk0 : (0 <= Qfloor h1)%Z).
  { change 0%Z with (Qfloor 0). by apply Qfloor_resp_le. }
  destruct (decide (Qfloor h1 = Qfloor h2)) as [Heq|Hneq].
  - unfold interpolate in *. rewrite <- Heq in *.
    rewrite Hx1 in Hx2. injection Hx2 as <-.
    rewrite Hy1 in Hy2. injection Hy2 as <-.
    rewrite !nth_lookup, Hx1, Hy1. cbn [default from_option id].
    apply lerp_mono; [|lra].
    pose proof (lookup_lt_Some _ _ _ Hx1) as Hlt.
    eapply (sorted_lookup_le s _ _ x1 y1 Hs); [|exact Hx1|exact Hy1]. lia.
  - assert (Hy1x2 : y1 <= x2).
    { eapply (sorted_lookup_le s _ _ y1 x2 Hs); [|exact Hy1|exact Hx2]. lia. }
    lra.
Qed.

(** A percentile of non-empty data lies between two of its values, and a
    higher percentile is never smaller. *)
Lemma percentile_between (a : list Q) (q : Q) :
  a ≠ [] → 0 <= q <= 100 →
  ∃ x y, x ∈ a ∧ y ∈ a ∧ x <= Num.percentile a q <= y.
Proof.
  intros Hne Hq. rewrite percentile_interpolate.
  assert (Hsne : Num.sort a ≠ []).
  { intros Hnil. apply Hne. apply Permutation_nil_r. rewrite <- Hnil.
    symmetry. apply sort_Permutation. }
  set (m := inject_Z (Z.of_nat (length (Num.sort a) - 1))).
  assert (Hm : 0 <= m).
  { subst m. change 0 with (inject_Z 0). rewrite <- Zle_Qle. lia. }
  destruct (interpolate_between (Num.sort a) (m * q / 100) (sort_sorted a) Hsne)
    as (x & y & Hx & Hy & Hv).
  { fold m. split.
    - apply Qle_shift_div_l; [reflexivity|]. rewrite Qmult_0_l.
      apply Qmult_le_0_compat; lra.
    - apply Qle_shift_div_r; [reflexivity|].
      assert (0 <= m * (100 - q)) by (apply Qmult_le_0_compat; lra). lra. }
  exists x, y. repeat split; try apply Hv.
  - rewrite <- (sort_Permutation a). by eapply list_elem_of_lookup_2.
  - rewrite <- (sort_Permutation a). by eapply list_elem_of_lookup_2.
Qed.

Lemma percentile_mono (a : list Q) (q1 q2 : Q) :
  a ≠ [] → 0 <= q1 → q1 <= q2 → q2 <= 100 →
  Num.percentile a q1 <= Num.percentile a q2.
Proof.
  intros Hne H0 H12 H100. rewrite !percentile_interpolate.
  assert (Hsne : Num.sort a ≠ []).
  { intros Hnil. apply Hne. apply Permutation_nil_r. rewrite <- Hnil.
    symmetry. apply sort_Permutation. }
  set (m := inject_Z (Z.of_nat (length (Num.sort a) - 1))).
  assert (Hm : 0 <= m).
  { subst m. change 0 with (inject_Z 0). rewrite <- Zle_Qle. lia. }
  assert (Hm1 : 0 <= m * q1) by (apply Qmult_le_0_compat; lra).
  assert (Hm2 : 0 <= m * (q2 - q1)) by (apply Qmult_le_0_compat; lra).
  assert (Hm3 : 0 <= m * (100 - q2)) by (apply Qmult_le_0_compat; lra).
  apply interpolate_mono; [apply sort_sorted|exact Hsne|..].
  - apply Qle_shift_div_l; [reflexivity|]. lra.
  - apply Qle_shift_div_r; [reflexivity|].
    assert (E : m * q2 / 100 * 100 == m * q2) by field.
    rewrite E. lra.
  - fold m. apply Qle_shift_div_r; [reflexivity|]. lra.
Qed.

(** ** More on cohort normalization *)

Lemma clip_mono (x y lo hi : Q) : x <= y → Num.clip x lo hi <= Num.clip y lo hi.
Proof.
  intros Hxy. unfold Num.clip.
  apply Q.min_le_compat_r, Q.max_le_compat_r, Hxy.
Qed.

Lemma clip_low (x lo hi : Q) : lo <= hi → x <= lo → Num.clip x lo hi == lo.
Proof.
  intros Hlh Hx. unfold Num.clip.
  rewrite (Q.max_r x lo) by exact Hx. by apply Q.min_l.
Qed.

Lemma clip_high (x lo hi : Q) : lo <= hi → hi <= x → Num.clip x lo hi == hi.
Proof.
  intros Hlh Hx. unfold Num.clip.
  rewrite (Q.max_l x lo) by lra. by apply Q.min_r.
Qed.

Lemma scaled_mono (v1 v2 p5 p95 : Q) :
  p5 < p95 → v1 <= v2 →
  ((v1 - p5) / (p95 - p5)) * 100 <= ((v2 - p5) / (p95 - p5)) * 100.
Proof.
  intros Hd Hv.
  assert (Hinv : 0 < / (p95 - p5)) by (apply Qinv_lt_0_compat; lra).
  unfold Qdiv.
  assert (0 <= (v2 - v1) * / (p95 - p5)) by (apply Qmult_le_0_compat; lra).
  lra.
Qed.

Lemma percentiles_ordered (values : list Q) :
  values ≠ [] → Num.percentile values 5 <= Num.percentile values 95.
Proof. intros Hne. apply percentile_mono; [exact Hne|discriminate..]. Qed.

Lemma percentiles_strict (values : list Q) :
  values ≠ [] → Qeq_bool (Num.percentile values 95) (Num.percentile values 5) = false →
  Num.percentile values 5 < Num.percentile values 95.
Proof.
  intros Hne Hneq. pose proof (percentiles_ordered values Hne) as Hle.
  apply Qeq_bool_neq in Hneq. apply Qle_lteq in Hle as [Hlt|Heq]; [exact Hlt|].
  exfalso. apply Hneq. by symmetry.
Qed.

(** On numbers the normalization never reverses the order of two raw
    values scaled against the same non-empty cohort. *)
Lemma normalize_number_mono (v1 v2 : Q) (values : list Q) :
  values ≠ [] → v1 <= v2 →
  normalize_number v1 values <= normalize_number v2 values.
Proof.
  intros Hne Hv. unfold normalize_number.
  destruct (Qeq_bool _ _) eqn:E; [apply Qle_refl|].
  apply clip_mono, scaled_mono; [|exact Hv]. by apply percentiles_strict.
Qed.

Lemma normalized_component (self : Calculate_acvi.ACVICalculator)
    (results : gmap string Calculate_acvi.Result) (loc : string)
    (data : Calculate_acvi.Result) :
  results !! loc = Some data →
  ∃ r, Calculate_acvi.normalize_components self results !! loc = Some r
       ∧ Calculate_acvi.components_raw r = Calculate_acvi.components data
       ∧ Calculate_acvi.n_weights r = Calculate_acvi.weights self
       ∧ Calculate_acvi.n_acvi_score r
         = Calculate_acvi.weighted_sum (Calculate_acvi.weights self)
             (Calculate_acvi.n_components r)
       ∧ ∀ comp, fget (Calculate_acvi.n_components r) comp
                 = Calculate_acvi.robust_normalize
                     (fget (Calculate_acvi.components data) comp)
                     (Calculate_acvi.all_values results comp).
Proof.
  intros Hdata. unfold Calculate_acvi.normalize_components.
  rewrite lookup_fmap, Hdata. eexists. split; [reflexivity|].
  repeat split. intros []; reflexivity.
Qed.

(** A component whose raw values are all numbers is normalized on
    numbers. *)
Lemma normalized_number (self : Calculate_acvi.ACVICalculator)
    (results : gmap string Calculate_acvi.Result) (loc : string)
    (data : Calculate_acvi.Result) (comp : Component) :
  results !! loc = Some data → all_numbers results comp →
  ∃ r raw values,
    Calculate_acvi.normalize_components self results !! loc = Some r
    ∧ fget (Calculate_acvi.components data) comp = Some raw
    ∧ Float.numbers (Calculate_acvi.all_values results comp) = Some values
    ∧ raw ∈ values
    ∧ fget (Calculate_acvi.n_components r) comp
      = Some (normalize_number raw values).
Proof.
  intros Hdata Hall.
  destruct (normalized_component self results loc data Hdata)
    as (r & Hr & _ & _ & _ & Hc).
  destruct (Hall loc data Hdata) as (raw & Hraw & _).
  destruct (all_values_numbers results comp Hall) as (values & Hvalues & Hspec).
  exists r, raw, values. split; [exact Hr|]. split; [exact Hraw|].
  split; [exact Hvalues|]. split; [apply Hspec; eauto|].
  rewrite Hc, Hraw. by apply robust_normalize_numbers.
Qed.

(** Within a component whose raw values are all numbers, normalization
    keeps the order of the locations: a location with the smaller raw
    value never gets the larger normalized value. *)
Theorem normalization_keeps_order (self : Calculate_acvi.ACVICalculator)
    (results : gmap string Calculate_acvi.Result) (loc_a loc_b : string)
    (a b : Calculate_acvi.Result) (comp : Component) :
  results !! loc_a = Some a → results !! loc_b = Some b →
  all_numbers results comp →
  ∃ na nb raw_a raw_b va vb,
    Calculate_acvi.normalize_components self results !! loc_a = Some na
    ∧ Calculate_acvi.normalize_components self results !! loc_b = Some nb
    ∧ fget (Calculate_acvi.components a) comp = Some raw_a
    ∧ fget (Calculate_acvi.components b) comp = Some raw_b
    ∧ fget (Calculate_acvi.n_components na) comp = Some va
    ∧ fget (Calculate_acvi.n_components nb) comp = Some vb
    ∧ (raw_a <= raw_b → va <= vb).
Proof.
  intros Ha Hb Hall.
  destruct (normalized_number self results loc_a a comp Ha Hall)
    as (na & raw_a & values & Hna & Hra & Hvalues & Hin & Hva).
  destruct (normalized_number self results loc_b b comp Hb Hall)
    as (nb & raw_b & values' & Hnb & Hrb & Hvalues' & _ & Hvb).
  rewrite Hvalues in Hvalues'. injection Hvalues' as <-.
  exists na, nb, raw_a, raw_b, (normalize_number raw_a values),
    (normalize_number raw_b values).
  repeat (split; [assumption|]).
  intros Hle. apply normalize_number_mono; [|exact Hle].
  intros ->. by apply elem_of_nil in Hin.
Qed.

Lemma normalization_keeps_order_witness :
  ∃ na nb va vb,
    Calculate_acvi.normalize_components wheat_calculator cohort_80_60_40_20
      !! "UA_Lviv" = Some na
    ∧ Calculate_acvi.normalize_components wheat_calculator cohort_80_60_40_20
        !! "PL_Mazowieckie" = Some nb
    ∧ fget (Calculate_acvi.n_components na) Moisture_stress = Some va
    ∧ fget (Calculate_acvi.n_components nb) Moisture_stress = Some vb
    ∧ va <= vb.
Proof.
  destruct (normalization_keeps_order wheat_calculator cohort_80_60_40_20
              "UA_Lviv" "PL_Mazowieckie"
              (raw_entry (mkComponentDict 0 0 0 0))
              (raw_entry (mkComponentDict 80 60 40 20)) Moisture_stress)
    as (na & nb & raw_a & raw_b & va & vb & Hna & Hnb & Hra & Hrb & Hva & Hvb & Hle).
  - vm_compute. reflexivity.
  - vm_compute. reflexivity.
  - apply cohort_80_60_40_20_numbers.
  - exists na, nb, va, vb. repeat (split; [assumption|]).
    apply Hle. injection Hra as <-. injection Hrb as <-. vm_compute. discriminate.
Defined.

(** Within a component whose raw values are all numbers and which is
    not degenerate (p95 = p5, every location gets 50), the location
    with the lowest raw value of the cohort is normalized to 0 and the
    one with the highest to 100. *)
Theorem normalization_extremes (self : Calculate_acvi.ACVICalculator)
    (results : gmap string Calculate_acvi.Result) (loc : string)
    (data : Calculate_acvi.Result) (comp : Component) :
  results !! loc = Some data →
  all_numbers results comp →
  ∃ r raw values v,
    Calculate_acvi.normalize_components self results !! loc = Some r
    ∧ fget (Calculate_acvi.components data) comp = Some raw
    ∧ Float.numbers (Calculate_acvi.all_values results comp) = Some values
    ∧ fget (Calculate_acvi.n_components r) comp = Some v
    ∧ (¬ Num.percentile values 95 == Num.percentile values 5 →
       ((∀ x, x ∈ values → raw <= x) → v == 0)
       ∧ ((∀ x, x ∈ values → x <= raw) → v == 100)).
Proof.
  intros Hdata Hall.
  destruct (normalized_number self results loc data comp Hdata Hall)
    as (r & raw & values & Hr & Hraw & Hvalues & Hin & Hv).
  exists r, raw, values, (normalize_number raw values).
  repeat (split; [assumption|]). intros Hdeg.
  assert (Hne : values ≠ []) by (intros ->; by apply elem_of_nil in Hin).
  assert (Hneq : Qeq_bool (Num.percentile values 95) (Num.percentile values 5) = false).
  { apply not_true_iff_false. intros E. by apply Qeq_bool_iff in E. }
  pose proof (percentiles_strict values Hne Hneq) as Hlt.
  unfold normalize_number. rewrite Hneq.
  assert (Hinv : 0 < / (Num.percentile values 95 - Num.percentile values 5))
    by (apply Qinv_lt_0_compat; lra).
  split.
  - intros Hmin.
    destruct (percentile_between values 5 Hne) as (x & _ & Hx & _ & [Hxp _]);
      [split; discriminate|].
    specialize (Hmin x Hx). apply clip_low; [discriminate|].
    unfold Qdiv.
    assert (0 <= (Num.percentile values 5 - raw)
                 * / (Num.percentile values 95 - Num.percentile values 5))
      by (apply Qmult_le_0_compat; lra).
    lra.
  - intros Hmax.
    destruct (percentile_between values 95 Hne) as (_ & y & _ & Hy & [_ Hyp]);
      [split; discriminate|].
    specialize (Hmax y Hy). apply clip_high; [discriminate|].
    unfold Qdiv.
    assert (0 <= (raw - Num.percentile values 95)
                 * / (Num.percentile values 95 - Num.percentile values 5))
      by (apply Qmult_le_0_compat; lra).
    assert (E : (Num.percentile values 95 - Num.percentile values 5)
                * / (Num.percentile values 95 - Num.percentile values 5) == 1)
      by (apply Qmult_inv_r; lra).
    lra.
Qed.

Lemma normalization_extremes_witness :
  ∃ r v, Calculate_acvi.normalize_components wheat_calculator cohort_80_60_40_20
           !! "DE_Bavaria" = Some r
       ∧ fget (Calculate_acvi.n_components r) Extreme_events = Some v
       ∧ v == 100.
Proof.
  destruct (normalization_extremes wheat_calculator cohort_80_60_40_20
              "DE_Bavaria" (raw_entry (mkComponentDict 100 100 100 100))
              Extreme_events)
    as (r & raw & values & v & Hr & Hraw & Hvalues & Hv & Hext).
  - vm_compute. reflexivity.
  - apply cohort_80_60_40_20_numbers.
  - exists r, v. split; [exact Hr|]. split; [exact Hv|].
    injection Hraw as <-.
    assert (values = [100; 80; 0] ∨ True) as _ by (by right).
    vm_compute in Hvalues. injection Hvalues as <-.
    apply Hext; [vm_compute; discriminate|].
    intros x Hx.
    repeat (apply elem_of_cons in Hx as [->|Hx]; [vm_compute; discriminate|]).
    by apply elem_of_nil in Hx.
Defined.

Lemma weighted_sum_range (w : ComponentDict) (c : FloatDict) (v1 v2 v3 v4 : Q) :
  (∀ comp, 0 <= get w comp) → sum_values w == 1 →
  c = mkFloatDict (Some v1) (Some v2) (Some v3) (Some v4) →
  0 <= v1 <= 100 → 0 <= v2 <= 100 → 0 <= v3 <= 100 → 0 <= v4 <= 100 →
  ∃ score, Calculate_acvi.weighted_sum w c = Some score ∧ 0 <= score <= 100.
Proof.
  intros Hw Hsum -> H1 H2 H3 H4. eexists. split; [reflexivity|].
  pose proof (Hw Temperature_volatility) as W1.
  pose proof (Hw Precipitation_volatility) as W2.
  pose proof (Hw Moisture_stress) as W3.
  pose proof (Hw Extreme_events) as W4.
  destruct w as [w1 w2 w3 w4]. unfold sum_values in Hsum.
  cbn [get temperature_volatility precipitation_volatility moisture_stress
       extreme_events] in *.
  assert (0 <= w1 * v1) by (apply Qmult_le_0_compat; lra).
  assert (0 <= w2 * v2) by (apply Qmult_le_0_compat; lra).
  assert (0 <= w3 * v3) by (apply Qmult_le_0_compat; lra).
  assert (0 <= w4 * v4) by (apply Qmult_le_0_compat; lra).
  assert (0 <= w1 * (100 - v1)) by (apply Qmult_le_0_compat; lra).
  assert (0 <= w2 * (100 - v2)) by (apply Qmult_le_0_compat; lra).
  assert (0 <= w3 * (100 - v3)) by (apply Qmult_le_0_compat; lra).
  assert (0 <= w4 * (100 - v4)) by (apply Qmult_le_0_compat; lra).
  split; lra.
Qed.

(** For a cohort whose raw values are all numbers, every composite
    score that [normalize_components] stores for a calculator built by
    [__init__] is a number in [0, 100]: the four weights are
    non-negative and sum to 1, and every normalized component lies in
    [0, 100]. *)
Theorem normalized_score_range (growing_season : option (Z * Z)) (crop_type : string)
    (results : gmap string Calculate_acvi.Result) (loc : string)
    (r : Calculate_acvi.NormalizedResult) :
  Calculate_acvi.normalize_components
    (Calculate_acvi.__init__ growing_season crop_type) results !! loc = Some r →
  (∀ comp, all_numbers results comp) →
  ∃ score, Calculate_acvi.n_acvi_score r = Some score ∧ 0 <= score <= 100.
Proof.
  intros Hr Hall.
  assert (Hdata : ∃ data, results !! loc = Some data).
  { unfold Calculate_acvi.normalize_components in Hr. rewrite lookup_fmap in Hr.
    destruct (results !! loc) as [data|]; [eauto|discriminate]. }
  destruct Hdata as [data Hdata].
  destruct (normalized_component (Calculate_acvi.__init__ growing_season crop_type)
              results loc data Hdata) as (r' & Hr' & _ & _ & Hscore & _).
  rewrite Hr in Hr'. injection Hr' as <-. rewrite Hscore.
  assert (Hcomp : ∀ comp, ∃ v, fget (Calculate_acvi.n_components r) comp = Some v
                               ∧ 0 <= v <= 100).
  { intros comp.
    destruct (normalized_number (Calculate_acvi.__init__ growing_season crop_type)
                results loc data comp Hdata (Hall comp))
      as (r' & raw & values & Hr'' & _ & _ & _ & Hv).
    rewrite Hr in Hr''. injection Hr'' as <-.
    eexists. split; [exact Hv|apply normalize_number_range]. }
  destruct (Hcomp Temperature_volatility) as (v1 & E1 & H1).
  destruct (Hcomp Precipitation_volatility) as (v2 & E2 & H2).
  destruct (Hcomp Moisture_stress) as (v3 & E3 & H3).
  destruct (Hcomp Extreme_events) as (v4 & E4 & H4).
  apply (weighted_sum_range _ _ v1 v2 v3 v4); try assumption.
  - intros []; discriminate.
  - reflexivity.
  - revert E1 E2 E3 E4. destruct (Calculate_acvi.n_components r).
    cbn [fget f_temperature_volatility f_precipitation_volatility
         f_moisture_stress f_extreme_events]. by intros -> -> -> ->.
Qed.

Lemma raw_cohort_3_numbers (comp : Component) : all_numbers raw_cohort_3 comp.
Proof.
  intros loc data Hdata. unfold raw_cohort_3 in Hdata.
  repeat (apply lookup_insert_Some in Hdata as [[_ <-]|[_ Hdata]];
          [destruct comp; (eexists; split; [reflexivity|];
                           apply moderate_100; split; discriminate)|]).
  by rewrite lookup_empty in Hdata.
Qed.

Lemma normalized_score_range_witness :
  ∃ r score, Calculate_acvi.normalize_components wheat_calculator raw_cohort_3
               !! "UA_Lviv" = Some r
       ∧ Calculate_acvi.n_acvi_score r = Some score ∧ 0 <= score <= 100.
Proof.
  eexists.
  refine ((λ H, let '(ex_intro _ score Hs) := H in
             ex_intro _ score (conj _ Hs))
            (normalized_score_range None "wheat" raw_cohort_3 "UA_Lviv" _ _
               raw_cohort_3_numbers)).
  - vm_compute. reflexivity.
  - vm_compute. reflexivity.
Defined.

(** One NaN among the raw values of a component spreads over the whole
    cohort: the normalized value of that component is NaN at every
    location, and so is every composite score. *)
Theorem nan_spreads_over_cohort (self : Calculate_acvi.ACVICalculator)
    (results : gmap string Calculate_acvi.Result) (comp : Component)
    (loc : string) (r : Calculate_acvi.NormalizedResult) :
  (∃ l d, results !! l = Some d
          ∧ fget (Calculate_acvi.components d) comp = Float.NaN) →
  Calculate_acvi.normalize_components self results !! loc = Some r →
  fget (Calculate_acvi.n_components r) comp = Float.NaN
  ∧ Calculate_acvi.n_acvi_score r = Float.NaN.
Proof.
  intros Hnan Hr.
  pose proof (nan_spreads self results comp loc r Hnan Hr) as Hcomp.
  split; [exact Hcomp|].
  assert (Hdata : ∃ data, results !! loc = Some data).
  { unfold Calculate_acvi.normalize_components in Hr. rewrite lookup_fmap in Hr.
    destruct (results !! loc) as [data|]; [eauto|discriminate]. }
  destruct Hdata as [data Hdata].
  destruct (normalized_component self results loc data Hdata)
    as (r' & Hr' & _ & _ & Hscore & _).
  rewrite Hr in Hr'. injection Hr' as <-. rewrite Hscore.
  unfold Calculate_acvi.weighted_sum, Float.add, Float.mul, Float.lift2.
  destruct (Calculate_acvi.n_components r) as [c1 c2 c3 c4].
  destruct comp; cbn [fget f_temperature_volatility f_precipitation_volatility
                      f_moisture_stress f_extreme_events] in *;
    rewrite Hcomp; unfold Float.NaN; by destruct c1, c2, c3, c4.
Qed.

Lemma nan_spreads_over_cohort_witness :
  ∃ r, Calculate_acvi.normalize_components wheat_calculator cohort_with_nan
         !! "DE_Bavaria" = Some r
       ∧ Calculate_acvi.n_acvi_score r = Float.NaN.
Proof.
  destruct (Calculate_acvi.normalize_components wheat_calculator cohort_with_nan
              !! "DE_Bavaria") as [r|] eqn:Hr; [|vm_compute in Hr; discriminate].
  exists r. split; [reflexivity|].
  refine (proj2 (nan_spreads_over_cohort wheat_calculator cohort_with_nan
                   Temperature_volatility "DE_Bavaria" r _ Hr)).
  exists "PL_Mazowieckie". eexists. split; [vm_compute; reflexivity|reflexivity].
Defined.

(** ** Extreme frequencies *)

Lemma filter_misses_one {A : Type} (f : A → bool) (l : list A) (x : A) :
  x ∈ l → f x = false → (length (List.filter f l) < length l)%nat.
Proof.
  intros Hin Hf. induction l as [|y l IH]; [by apply elem_of_nil in Hin|].
  simpl. pose proof (List.filter_length_le f l) as Hle.
  apply elem_of_cons in Hin as [<-|Hin].
  - rewrite Hf. lia.
  - specialize (IH Hin). destruct (f y); simpl; lia.
Qed.

(** The extreme frequency is 0 for a missing column and for a column
    without values; otherwise it is a share in [0, 1) — the smallest
    value is never above the threshold. *)
Theorem extreme_frequency_range (df : DataFrame) (param : string)
    (threshold_percentile : Q) :
  0 <= threshold_percentile <= 100 →
  0 <= Calculate_acvi.compute_extreme_frequency df param threshold_percentile < 1
  ∧ (has_column df param = false
     → Calculate_acvi.compute_extreme_frequency df param threshold_percentile = 0)
  ∧ ((∀ v, v ∈ column df param → v = None)
     → Calculate_acvi.compute_extreme_frequency df param threshold_percentile = 0).
Proof.
  intros Hq. unfold Calculate_acvi.compute_extreme_frequency.
  split; [|split].
  - destruct (has_column df param); cbn [negb]; [|split; [discriminate|reflexivity]].
    set (data := omap id (column df param)).
    destruct (Nat.eqb_spec (length data) 0) as [|Hlen];
      [split; [discriminate|reflexivity]|].
    assert (Hne : data ≠ []) by (intros E; rewrite E in Hlen; simpl in Hlen; lia).
    destruct (percentile_between data (threshold_percentile / 100 * 100) Hne)
      as (x & _ & Hx & _ & [Hxp _]).
    { assert (E : threshold_percentile / 100 * 100 == threshold_percentile) by field.
      rewrite E. exact Hq. }
    fold (Num.quantile data (threshold_percentile / 100)) in Hxp.
    set (threshold := Num.quantile data (threshold_percentile / 100)) in *.
    assert (Hcount : (length (List.filter (Num.Qlt_bool threshold) data)
                      < length data)%nat).
    { apply (filter_misses_one _ _ x Hx). unfold Num.Qlt_bool.
      apply negb_false_iff, Qle_bool_iff, Hxp. }
    assert (Hpos : 0 < inject_Z (Z.of_nat (length data))).
    { change 0 with (inject_Z 0). rewrite <- Zlt_Qlt. lia. }
    split.
    + apply Qle_shift_div_l; [exact Hpos|]. rewrite Qmult_0_l.
      change 0 with (inject_Z 0). rewrite <- Zle_Qle. lia.
    + apply Qlt_shift_div_r; [exact Hpos|]. rewrite Qmult_1_l.
      rewrite <- Zlt_Qlt. lia.
  - intros ->. reflexivity.
  - intros Hall. destruct (has_column df param); [|reflexivity]. cbn [negb].
    assert (Hdata : omap id (column df param) = []).
    { induction (column df param) as [|v col IH]; [reflexivity|].
      rewrite (Hall v) by (apply elem_of_cons; by left). simpl.
      apply IH. intros w Hw. apply Hall, elem_of_cons. by right. }
    by rewrite Hdata.
Qed.

Lemma extreme_frequency_range_witness :
  0 <= Calculate_acvi.compute_extreme_frequency df_summer "T2M" 95 < 1.
Proof.
  refine (proj1 (extreme_frequency_range df_summer "T2M" 95 _)).
  split; discriminate.
Defined.

(** ** The cohort loop, counted *)

Lemma process_location_dom `{Calculate_acvi.SubIndices}
    (self : Calculate_acvi.ACVICalculator)
    (st : gmap string Calculate_acvi.Result * list Calculate_acvi.LogRecord)
    (entry : string * option DataFrame) :
  dom (Calculate_acvi.process_location self st entry).1
  = dom st.1 ∪ (if accepted entry then {[entry.1]} else ∅).
Proof.
  destruct st as [raw log], entry as [name [df|]]; unfold accepted; simpl.
  - destruct (Calculate_acvi.validate_input_data df) as [[] vlog]; simpl.
    + destruct (Calculate_acvi.calculate_acvi self df). simpl.
      rewrite dom_insert_L. apply (comm_L (∪)).
    + by rewrite (right_id_L ∅ (∪)).
  - by rewrite (right_id_L ∅ (∪)).
Qed.

Lemma loop_dom `{Calculate_acvi.SubIndices}
    (self : Calculate_acvi.ACVICalculator)
    (dirs : list (string * option DataFrame))
    (st : gmap string Calculate_acvi.Result * list Calculate_acvi.LogRecord) :
  dom (foldl (Calculate_acvi.process_location self) st dirs).1
  = dom st.1 ∪ list_to_set (List.filter accepted dirs).*1.
Proof.
  revert st. induction dirs as [|e dirs IH]; intros st; simpl.
  { by rewrite (right_id_L ∅ (∪)). }
  rewrite IH, process_location_dom. destruct (accepted e); simpl.
  - by rewrite (assoc_L (∪)).
  - by rewrite (right_id_L ∅ (∪)).
Qed.

(** The locations in the raw results, and in the normalized results, are
    exactly the directories whose table loads and passes validation; with
    distinct directory names the "Processed N locations" count is the
    number of such directories. *)
Theorem processed_locations `{Calculate_acvi.SubIndices}
    (self : Calculate_acvi.ACVICalculator)
    (dirs : list (string * option DataFrame)) :
  NoDup dirs.*1 →
  let raw := (Calculate_acvi.raw_results self dirs).1 in
  let normalized := (Calculate_acvi.calculate_all_locations self dirs).1 in
  dom raw = list_to_set (List.filter accepted dirs).*1
  ∧ dom normalized = dom raw
  ∧ size raw = length (List.filter accepted dirs)
  ∧ (size raw ≤ length dirs)%nat.
Proof.
  intros Hnd raw normalized.
  assert (Hdom : dom raw = list_to_set (List.filter accepted dirs).*1).
  { subst raw. unfold Calculate_acvi.raw_results. rewrite loop_dom.
    cbn [fst]. by rewrite dom_empty_L, (left_id_L ∅ (∪)). }
  assert (Hnd' : NoDup (List.filter accepted dirs).*1).
  { clear -Hnd. induction dirs as [|e dirs IH]; simpl; [constructor|].
    simpl in Hnd. apply NoDup_cons in Hnd as [Hfresh Hnd].
    destruct (accepted e); simpl; [|by apply IH].
    apply NoDup_cons. split; [|by apply IH].
    intros Hin. apply Hfresh.
    apply list_elem_of_fmap in Hin as (e' & -> & Hin).
    apply list_elem_of_fmap. exists e'. split; [reflexivity|].
    apply list_elem_of_In, List.filter_In in Hin as [Hin _].
    by apply list_elem_of_In. }
  assert (Hsize : size raw = length (List.filter accepted dirs)).
  { rewrite <- size_dom, Hdom, size_list_to_set by exact Hnd'.
    by rewrite length_fmap. }
  split; [exact Hdom|]. split; [|split; [exact Hsize|]].
  - subst normalized raw. unfold Calculate_acvi.calculate_all_locations.
    destruct (Calculate_acvi.raw_results self dirs) as [r l]. cbn [fst].
    unfold Calculate_acvi.normalize_components. apply dom_fmap_L.
  - rewrite Hsize. apply List.filter_length_le.
Qed.

Lemma processed_locations_witness :
  size (Calculate_acvi.raw_results (H := one_signal_indices) wheat_calculator
          [("UA_Lviv", Some df_summer); ("PL_Mazowieckie", Some df_no_moisture);
           ("DE_Bavaria", None)]).1 = 1%nat.
Proof.
  refine (proj1 (proj2 (proj2
    (processed_locations (H := one_signal_indices) wheat_calculator
       [("UA_Lviv", Some df_summer); ("PL_Mazowieckie", Some df_no_moisture);
        ("DE_Bavaria", None)] _)))).
  apply (bool_decide_unpack _). vm_compute. reflexivity.
Defined.

(** ** The growing-season filter *)

Lemma select_fmap {A : Type} (f : A → bool) (l : list A) :
  select (f <$> l) l = List.filter f l.
Proof.
  induction l as [|x l IH]; [reflexivity|].
  rewrite fmap_cons. cbn [select List.filter].
  destruct (f x); by rewrite IH.
Qed.

Lemma select_length {A B : Type} (mask : list bool) (idx : list A) (l : list B) :
  length mask = length idx →
  (length (select mask l) ≤ length (select mask idx))%nat.
Proof.
  revert idx l. induction mask as [|b mask IH]; intros idx l Hlen; [simpl; lia|].
  destruct idx as [|i idx]; [discriminate|]. injection Hlen as Hlen.
  destruct l as [|x l]; [simpl; lia|]. simpl.
  specialize (IH idx l Hlen). destruct b; simpl; lia.
Qed.

Lemma select_all {A B : Type} (f : A → bool) (idx : list A) (l : list B) :
  (∀ x, x ∈ idx → f x = true) → (length l ≤ length idx)%nat →
  select (f <$> idx) l = l.
Proof.
  revert l. induction idx as [|i idx IH]; intros l Hall Hlen.
  - destruct l; [reflexivity|simpl in Hlen; lia].
  - destruct l as [|x l]; [reflexivity|]. rewrite fmap_cons. cbn [select].
    rewrite (Hall i) by (apply elem_of_cons; by left). f_equal.
    apply IH; [|simpl in Hlen; lia].
    intros y Hy. apply Hall, elem_of_cons. by right.
Qed.

Lemma select_rows_idempotent (f : Date → bool) (df : DataFrame) :
  let kept := select_rows (f <$> index df) df in
  select_rows (f <$> index kept) kept = kept.
Proof.
  unfold select_rows. cbn [index columns].
  assert (Hall : ∀ d, d ∈ select (f <$> index df) (index df) → f d = true).
  { intros d. rewrite select_fmap, list_elem_of_In, List.filter_In. tauto. }
  f_equal.
  - apply select_all; [exact Hall|lia].
  - apply map_eq. intros name. rewrite !lookup_fmap.
    destruct (columns df !! name) as [col|]; [|reflexivity].
    cbn [fmap option_fmap option_map]. f_equal.
    apply select_all; [exact Hall|].
    apply select_length. by rewrite length_fmap.
Qed.

Lemma select_zip {A B : Type} (f : A → bool) (idx : list A) (col : list B) :
  zip (select (f <$> idx) idx) (select (f <$> idx) col)
  = List.filter (λ p, f p.1) (zip idx col).
Proof.
  revert col. induction idx as [|i idx IH]; intros col; [reflexivity|].
  rewrite fmap_cons. destruct col as [|x col].
  - cbn [select zip zip_with List.filter]. by destruct (f i); destruct (select _ idx).
  - cbn [select zip zip_with List.filter fst]. destruct (f i).
    + cbn [zip zip_with]. f_equal. apply IH.
    + apply IH.
Qed.

(** The filter keeps exactly the records whose month is in the season,
    in their order, and cuts every column with the same mask: the cells
    that remain in a column are those of the records kept, each still
    with its date.  It keeps the set of columns, and filtering a second
    time changes nothing. *)
Theorem filter_growing_season_spec (self : Calculate_acvi.ACVICalculator)
    (start_month end_month : Z) (df : DataFrame) :
  Calculate_acvi.growing_season self = Some (start_month, end_month) →
  let filtered := (Calculate_acvi.filter_growing_season self df).1 in
  index filtered
  = List.filter (Calculate_acvi.in_season start_month end_month) (index df)
  ∧ (∀ d, d ∈ index filtered
          ↔ d ∈ index df
            ∧ Calculate_acvi.in_season start_month end_month d = true)
  ∧ (∀ name, zip (index filtered) (column filtered name)
             = List.filter
                 (λ record, Calculate_acvi.in_season start_month end_month record.1)
                 (zip (index df) (column df name)))
  ∧ dom (columns filtered) = dom (columns df)
  ∧ (len filtered ≤ len df)%nat
  ∧ (Calculate_acvi.filter_growing_season self filtered).1 = filtered.
Proof.
  intros Hseason filtered.
  assert (Hf : filtered
    = select_rows (Calculate_acvi.in_season start_month end_month <$> index df) df).
  { subst filtered. unfold Calculate_acvi.filter_growing_season.
    by rewrite Hseason. }
  assert (Hidx : index filtered
    = List.filter (Calculate_acvi.in_season start_month end_month) (index df)).
  { rewrite Hf. unfold select_rows. cbn [index]. apply select_fmap. }
  split; [exact Hidx|]. split; [|split; [|split; [|split]]].
  - intros d. rewrite Hidx, !list_elem_of_In. apply List.filter_In.
  - intros name. rewrite Hf. unfold select_rows, column. cbn [index columns].
    rewrite lookup_fmap.
    destruct (columns df !! name) as [col|];
      cbn [fmap option_fmap option_map default from_option id].
    + apply select_zip.
    + rewrite <- (select_zip _ (index df) []).
      f_equal. by destruct (Calculate_acvi.in_season _ _ <$> index df).
  - rewrite Hf. unfold select_rows. cbn [columns]. apply dom_fmap_L.
  - unfold len. rewrite Hidx. apply List.filter_length_le.
  - unfold Calculate_acvi.filter_growing_season. rewrite Hseason. cbn [fst].
    rewrite Hf. apply select_rows_idempotent.
Qed.

Lemma filter_growing_season_spec_witness :
  len (Calculate_acvi.filter_growing_season
         (Calculate_acvi.__init__ (Some (11, 1)%Z) "wheat") df_winter).1 = 2%nat.
Proof.
  pose proof (proj1 (filter_growing_season_spec
    (Calculate_acvi.__init__ (Some (11, 1)%Z) "wheat") 11 1 df_winter eq_refl))
    as Hidx.
  unfold len. rewrite Hidx. vm_compute. reflexivity.
Defined.

(** ** Outlier removal *)

Lemma remove_outliers_step_columns (df : DataFrame) (param name : string) :
  columns (Process_and_normalize.remove_outliers_step df param) !! name
  = if decide (param = name) then
      match Process_and_normalize.physical_limits !! param with
      | Some (lower_bound, upper_bound) =>
          mask_column lower_bound upper_bound <$> columns df !! name
      | None => columns df !! name
      end
    else columns df !! name.
Proof.
  unfold Process_and_normalize.remove_outliers_step, has_column.
  destruct (decide (param = name)) as [->|Hne].
  - destruct (columns df !! name) as [col|] eqn:Ecol.
    + rewrite bool_decide_eq_true_2 by eauto. cbn [negb].
      destruct (Process_and_normalize.physical_limits !! name) as [[lo hi]|];
        [|exact Ecol].
      unfold set_column, column. cbn [columns].
      by rewrite lookup_insert_eq, Ecol.
    + rewrite bool_decide_eq_false_2 by (intros [? ?]; congruence). cbn [negb].
      rewrite Ecol.
      by destruct (Process_and_normalize.physical_limits !! name) as [[lo hi]|].
  - destruct (negb _); [reflexivity|].
    destruct (Process_and_normalize.physical_limits !! param) as [[lo hi]|];
      [|reflexivity].
    unfold set_column. cbn [columns]. by rewrite lookup_insert_ne.
Qed.

Lemma remove_outliers_step_index (df : DataFrame) (param : string) :
  index (Process_and_normalize.remove_outliers_step df param) = index df.
Proof.
  unfold Process_and_normalize.remove_outliers_step.
  destruct (negb _); [reflexivity|].
  by destruct (Process_and_normalize.physical_limits !! param) as [[lo hi]|].
Qed.

Lemma remove_outliers_loop (params : list string) (df : DataFrame) (name : string) :
  NoDup params →
  index (foldl Process_and_normalize.remove_outliers_step df params) = index df
  ∧ columns (foldl Process_and_normalize.remove_outliers_step df params) !! name
    = if decide (name ∈ params) then
        match Process_and_normalize.physical_limits !! name with
        | Some (lower_bound, upper_bound) =>
            mask_column lower_bound upper_bound <$> columns df !! name
        | None => columns df !! name
        end
      else columns df !! name.
Proof.
  revert df. induction params as [|p params IH]; intros df Hnd.
  { split; [reflexivity|]. rewrite decide_False by apply not_elem_of_nil. done. }
  apply NoDup_cons in Hnd as [Hfresh Hnd]. simpl.
  destruct (IH (Process_and_normalize.remove_outliers_step df p) Hnd) as [Hi Hc].
  split; [by rewrite Hi, remove_outliers_step_index|].
  rewrite Hc, remove_outliers_step_columns.
  destruct (decide (p = name)) as [->|Hne].
  - rewrite decide_False by exact Hfresh.
    rewrite decide_True by (apply elem_of_cons; by left). reflexivity.
  - destruct (decide (name ∈ params)) as [Hin|Hnin].
    + rewrite decide_True by (apply elem_of_cons; by right). reflexivity.
    + rewrite decide_False; [reflexivity|].
      intros [->|Hin]%elem_of_cons; [done|contradiction].
Qed.

Lemma remove_outliers_columns (df : DataFrame) (name : string) :
  index (Process_and_normalize.remove_outliers df) = index df
  ∧ columns (Process_and_normalize.remove_outliers df) !! name
    = limited name <$> columns df !! name.
Proof.
  destruct (remove_outliers_loop Process_and_normalize.base_parameters df name)
    as [Hi Hc].
  { apply (bool_decide_unpack _). vm_compute. reflexivity. }
  split; [exact Hi|].
  unfold Process_and_normalize.remove_outliers. rewrite Hc. unfold limited.
  destruct (decide (name ∈ Process_and_normalize.base_parameters)).
  - destruct (Process_and_normalize.physical_limits !! name) as [[lo hi]|];
      [reflexivity|].
    by destruct (columns df !! name).
  - by destruct (columns df !! name).
Qed.

Lemma limited_base (name : string) (lower_bound upper_bound : Q) (col : list cell) :
  name ∈ Process_and_normalize.base_parameters →
  Process_and_normalize.physical_limits !! name = Some (lower_bound, upper_bound) →
  limited name col = mask_column lower_bound upper_bound col.
Proof.
  intros Hbase Hlim. unfold limited. rewrite decide_True by exact Hbase.
  by rewrite Hlim.
Qed.

Lemma limited_other (name : string) (col : list cell) :
  name ∉ Process_and_normalize.base_parameters → limited name col = col.
Proof. intros Hother. unfold limited. by rewrite decide_False. Qed.

Lemma mask_outlier_spec (lower_bound upper_bound : Q) (v : cell) (x : Q) :
  Process_and_normalize.mask_outlier lower_bound upper_bound v = Some x
  ↔ v = Some x ∧ lower_bound <= x <= upper_bound.
Proof.
  unfold Process_and_normalize.mask_outlier, Num.Qlt_bool.
  destruct v as [y|]; [|split; [discriminate|intros [? _]; discriminate]].
  destruct (Qle_bool lower_bound y) eqn:E1, (Qle_bool y upper_bound) eqn:E2;
    cbn [negb orb].
  - apply Qle_bool_iff in E1, E2. split.
    + intros [= ->]. done.
    + intros [[= ->] _]. done.
  - split; [discriminate|]. intros [[= ->] [_ Hu]].
    apply Qle_bool_iff in Hu. congruence.
  - split; [discriminate|]. intros [[= ->] [Hl _]].
    apply Qle_bool_iff in Hl. congruence.
  - split; [discriminate|]. intros [[= ->] [Hl _]].
    apply Qle_bool_iff in Hl. congruence.
Qed.

Lemma mask_outlier_idempotent (lower_bound upper_bound : Q) (v : cell) :
  Process_and_normalize.mask_outlier lower_bound upper_bound
    (Process_and_normalize.mask_outlier lower_bound upper_bound v)
  = Process_and_normalize.mask_outlier lower_bound upper_bound v.
Proof.
  destruct v as [x|]; [|reflexivity]. cbn.
  destruct (_ || _) eqn:E; [reflexivity|]. cbn. by rewrite E.
Qed.

(** After [remove_outliers], a value of a base parameter is present
    exactly when it was present before and lies within the physical
    limits of the parameter; it is never changed, only removed.  The
    index, the column lengths and every other column are untouched. *)
Theorem remove_outliers_within_limits (df : DataFrame) (name : string)
    (lower_bound upper_bound : Q) (i : nat) (x : Q) :
  name ∈ Process_and_normalize.base_parameters →
  Process_and_normalize.physical_limits !! name = Some (lower_bound, upper_bound) →
  let cleaned := Process_and_normalize.remove_outliers df in
  (column cleaned name !! i = Some (Some x)
   ↔ column df name !! i = Some (Some x) ∧ lower_bound <= x <= upper_bound)
  ∧ length (column cleaned name) = length (column df name)
  ∧ index cleaned = index df
  ∧ ∀ other, other ∉ Process_and_normalize.base_parameters →
             columns cleaned !! other = columns df !! other.
Proof.
  intros Hbase Hlim cleaned.
  assert (Hcol : column cleaned name
    = mask_column lower_bound upper_bound (column df name)).
  { unfold column. subst cleaned.
    rewrite (proj2 (remove_outliers_columns df name)).
    destruct (columns df !! name) as [col|]; [|reflexivity].
    cbn. by apply limited_base. }
  split; [|split; [|split]].
  - rewrite Hcol. unfold mask_column. rewrite list_lookup_fmap.
    destruct (column df name !! i) as [v|]; cbn [fmap option_fmap option_map].
    + split.
      * intros [= Hm]. apply mask_outlier_spec in Hm as [-> Hr]. done.
      * intros [[= ->] Hr]. f_equal. by apply mask_outlier_spec.
    + split; [discriminate|]. intros [? _]. discriminate.
  - rewrite Hcol. unfold mask_column. by rewrite length_fmap.
  - apply remove_outliers_columns. exact name.
  - intros other Hother. subst cleaned.
    rewrite (proj2 (remove_outliers_columns df other)).
    destruct (columns df !! other) as [col|]; [|reflexivity].
    cbn. by rewrite limited_other.
Qed.

Lemma remove_outliers_within_limits_witness :
  column (Process_and_normalize.remove_outliers df_outliers) "GWETROOT" !! 2%nat
  = Some (Some 1).
Proof.
  refine (proj2 (proj1
    (remove_outliers_within_limits df_outliers "GWETROOT" 0 1 2 1 _ _)) _).
  - apply (bool_decide_unpack _). vm_compute. reflexivity.
  - vm_compute. reflexivity.
  - split; [vm_compute; reflexivity|]. split; discriminate.
Defined.

(** Cleaning a cleaned table changes nothing. *)
Theorem remove_outliers_idempotent (df : DataFrame) :
  Process_and_normalize.remove_outliers (Process_and_normalize.remove_outliers df)
  = Process_and_normalize.remove_outliers df.
Proof.
  set (cleaned := Process_and_normalize.remove_outliers df).
  destruct (remove_outliers_columns cleaned "T2M") as [Hi _].
  destruct (Process_and_normalize.remove_outliers cleaned) as [idx cols] eqn:E.
  destruct cleaned as [idx' cols'] eqn:E'. cbn [index] in Hi. subst idx'.
  f_equal. apply map_eq. intros name.
  pose proof (proj2 (remove_outliers_columns (mkDataFrame idx cols') name)) as H2.
  rewrite E in H2. cbn [columns] in H2. rewrite H2.
  pose proof (proj2 (remove_outliers_columns df name)) as H1.
  fold cleaned in H1. subst cleaned. rewrite E' in H1. cbn [columns] in H1.
  rewrite H1. destruct (columns df !! name) as [col|]; [|reflexivity].
  cbn [fmap option_fmap option_map]. f_equal. unfold limited.
  destruct (decide _); [|reflexivity].
  destruct (Process_and_normalize.physical_limits !! name) as [[lo hi]|];
    [|reflexivity].
  unfold mask_column. rewrite <- list_fmap_compose. apply list_fmap_ext.
  intros j v _. apply mask_outlier_idempotent.
Qed.

(** ** The derived metrics *)

Lemma derived_metrics_other_columns `{NumpyMath} (df : DataFrame) (name : string) :
  name ∉ derived_names →
  index (Process_and_normalize.compute_derived_metrics df) = index df
  ∧ columns (Process_and_normalize.compute_derived_metrics df) !! name
    = columns df !! name.
Proof.
  intros Hname.
  assert (Hne : ∀ d, d ∈ derived_names → d ≠ name) by (intros d Hd ->; done).
  assert (H1 := Hne "GDD" ltac:(repeat (apply elem_of_cons; (by left) || right))).
  assert (H2 := Hne "VPD" ltac:(repeat (apply elem_of_cons; (by left) || right))).
  assert (H3 := Hne "DRY_DAYS" ltac:(repeat (apply elem_of_cons; (by left) || right))).
  assert (H4 := Hne "DRY_SPELL_LENGTH"
                  ltac:(repeat (apply elem_of_cons; (by left) || right))).
  assert (H5 := Hne "HEAT_DAYS" ltac:(repeat (apply elem_of_cons; (by left) || right))).
  assert (H6 := Hne "FROST_DAYS" ltac:(repeat (apply elem_of_cons; (by left) || right))).
  unfold Process_and_normalize.compute_derived_metrics,
    Process_and_normalize.when, set_column.
  destruct (has_column df "T2M"), (has_column df "RH2M"),
    (has_column df "PRECTOTCORR"), (has_column df "T2M_MAX"),
    (has_column df "T2M_MIN"); cbn [andb index columns];
    rewrite ?lookup_insert_ne by assumption; done.
Qed.

(** [compute_derived_metrics] adds columns only: the index and every
    column under another name than the six derived ones are what they
    were, so an input column is never altered or dropped. *)
Theorem derived_metrics_keep_inputs `{NumpyMath} (df : DataFrame) (name : string) :
  name ∉ derived_names →
  let out := Process_and_normalize.compute_derived_metrics df in
  index out = index df
  ∧ columns out !! name = columns df !! name
  ∧ has_column out name = has_column df name.
Proof.
  intros Hname out.
  destruct (derived_metrics_other_columns df name Hname) as [Hi Hc].
  split; [exact Hi|]. split; [exact Hc|].
  unfold has_column. subst out. by rewrite Hc.
Qed.

Lemma derived_metrics_keep_inputs_witness :
  columns (Process_and_normalize.compute_derived_metrics (H := exp_stand_in) df_rain)
    !! "PRECTOTCORR"
  = columns df_rain !! "PRECTOTCORR".
Proof.
  refine (proj1 (proj2
    (derived_metrics_keep_inputs (H := exp_stand_in) df_rain "PRECTOTCORR" _))).
  apply (bool_decide_unpack _). vm_compute. reflexivity.
Defined.

Lemma leading_dry_spec (days : list cell) :
  (∀ j, (j < leading_dry days)%nat → ∃ v, days !! j = Some v ∧ dry v = true)
  ∧ (∀ v, days !! leading_dry days = Some v → dry v = false).
Proof.
  induction days as [|u days [IH1 IH2]]; simpl.
  - split; [intros j Hj; lia|intros v Hv; discriminate].
  - destruct (dry u) eqn:E.
    + split.
      * intros [|j] Hj; [eauto|]. apply IH1. lia.
      * intros v Hv. by apply IH2.
    + split; [intros j Hj; lia|]. intros v [= <-]. exact E.
Qed.

(** The running count read as a window: if the count at day [i] is [k],
    then [k ≤ i + 1], the [k] days that end at day [i] are all dry, and
    the day just before them, if there is one, is not dry. *)
Theorem dry_spell_window `{NumpyMath} (df : DataFrame) (i : nat) (v : cell) :
  has_column df "PRECTOTCORR" = true →
  column df "PRECTOTCORR" !! i = Some v →
  let out := Process_and_normalize.compute_derived_metrics df in
  let prectotcorr := column df "PRECTOTCORR" in
  ∃ k : nat,
    column out "DRY_SPELL_LENGTH" !! i
    = Some (Process_and_normalize.int_cell (Z.of_nat k))
    ∧ (k ≤ S i)%nat
    ∧ (∀ j, (S i - k ≤ j)%nat → (j ≤ i)%nat →
            ∃ w, prectotcorr !! j = Some w ∧ dry w = true)
    ∧ (∀ j w, S j = (S i - k)%nat → prectotcorr !! j = Some w → dry w = false).
Proof.
  intros Hprec Hv out prectotcorr.
  destruct (derived_dry_columns df Hprec) as [_ Hspell].
  fold out prectotcorr in Hspell. fold prectotcorr in Hv.
  pose proof (lookup_lt_Some _ _ _ Hv) as Hi.
  exists (dry_run_ending_at prectotcorr i).
  split; [by rewrite Hspell, list_lookup_fmap, dry_spell_length_lookup|].
  unfold dry_run_ending_at.
  set (window := reverse (take (S i) prectotcorr)).
  assert (Hlen : length window = S i).
  { subst window. rewrite length_reverse, length_take. lia. }
  assert (Hwin : ∀ j, (j ≤ i)%nat → window !! j = prectotcorr !! (i - j)%nat).
  { intros j Hj. subst window.
    rewrite reverse_lookup by (rewrite length_take; lia).
    rewrite length_take, lookup_take_lt by lia. f_equal. lia. }
  pose proof (leading_dry_le window) as Hle. rewrite Hlen in Hle.
  destruct (leading_dry_spec window) as [Hdry Hstop].
  split; [exact Hle|]. split.
  - intros j Hj1 Hj2. destruct (Hdry (i - j)%nat) as (w & Hw & Hd); [lia|].
    rewrite Hwin in Hw by lia. replace (i - (i - j))%nat with j in Hw by lia.
    eauto.
  - intros j w Hj Hw. apply Hstop.
    rewrite Hwin by lia. rewrite <- Hw. f_equal. lia.
Qed.

Lemma dry_spell_window_witness :
  ∃ k : nat,
    column (Process_and_normalize.compute_derived_metrics (H := exp_stand_in) df_rain)
      "DRY_SPELL_LENGTH" !! 1%nat
    = Some (Process_and_normalize.int_cell (Z.of_nat k))
    ∧ (k ≤ 2)%nat.
Proof.
  destruct (dry_spell_window (H := exp_stand_in) df_rain 1 (Some 0.5))
    as (k & Hk & Hle & _).
  - vm_compute. reflexivity.
  - vm_compute. reflexivity.
  - exists k. split; [exact Hk|exact Hle].
Defined.

Lemma remove_outliers_has_column (df : DataFrame) (name : string) :
  has_column (Process_and_normalize.remove_outliers df) name = has_column df name.
Proof.
  unfold has_column. rewrite (proj2 (remove_outliers_columns df name)).
  by destruct (columns df !! name).
Qed.

Lemma remove_outliers_precipitation (df : DataFrame) :
  column (Process_and_normalize.remove_outliers df) "PRECTOTCORR"
  = mask_column 0 500 (column df "PRECTOTCORR").
Proof.
  unfold column. rewrite (proj2 (remove_outliers_columns df "PRECTOTCORR")).
  destruct (columns df !! "PRECTOTCORR") as [col|]; [|reflexivity].
  cbn. apply limited_base; [|reflexivity].
  apply (bool_decide_unpack _). vm_compute. reflexivity.
Qed.

(** In a processed table (outliers removed, then metrics derived) a day
    is flagged dry exactly when its raw precipitation is a value in
    [0, 1): a missing value, a negative reading and a reading above 500
    all count as not dry.  The flag is always 0 or 1. *)
Theorem processed_dry_days `{NumpyMath} (location_name : string) (df : DataFrame)
    (i : nat) (v : cell) :
  has_column df "PRECTOTCORR" = true →
  column df "PRECTOTCORR" !! i = Some v →
  ∃ out flag,
    Process_and_normalize.process_single_location location_name (Some df)
    = Some (location_name, out)
    ∧ index out = index df
    ∧ column out "DRY_DAYS" !! i = Some (Process_and_normalize.int_cell flag)
    ∧ (flag = 0%Z ∨ flag = 1%Z)
    ∧ (flag = 1%Z ↔ ∃ x, v = Some x ∧ 0 <= x ∧ x < 1).
Proof.
  intros Hprec Hv.
  set (cleaned := Process_and_normalize.remove_outliers df).
  assert (Hprec' : has_column cleaned "PRECTOTCORR" = true)
    by (subst cleaned; by rewrite remove_outliers_has_column).
  destruct (derived_dry_columns cleaned Hprec') as [Hdays _].
  set (w := Process_and_normalize.mask_outlier 0 500 v).
  exists (Process_and_normalize.compute_derived_metrics cleaned),
         (if dry w then 1%Z else 0%Z).
  split; [reflexivity|]. split; [|split; [|split]].
  - destruct (derived_metrics_other_columns cleaned "T2M") as [Hi _].
    { apply (bool_decide_unpack _). vm_compute. reflexivity. }
    rewrite Hi. apply remove_outliers_columns. exact "T2M".
  - rewrite Hdays. subst cleaned. rewrite remove_outliers_precipitation.
    unfold Process_and_normalize.dry_days, mask_column.
    by rewrite !list_lookup_fmap, Hv, <- below_dry.
  - destruct (dry w); auto.
  - transitivity (dry w = true); [destruct (dry w); split; done|].
    rewrite dry_iff. subst w. split.
    + intros (x & Hx & Hlt). apply mask_outlier_spec in Hx as [-> [H0 _]]. eauto.
    + intros (x & -> & H0 & H1). exists x. split; [|exact H1].
      apply mask_outlier_spec. split; [reflexivity|]. split; [exact H0|lra].
Qed.

Lemma processed_dry_days_witness :
  ∃ out flag,
    Process_and_normalize.process_single_location (H := exp_stand_in)
      "UA_Lviv" (Some df_outliers) = Some ("UA_Lviv", out)
    ∧ column out "DRY_DAYS" !! 0%nat = Some (Process_and_normalize.int_cell flag)
    ∧ ¬ flag = 1%Z.
Proof.
  destruct (processed_dry_days (H := exp_stand_in) "UA_Lviv" df_outliers 0
              (Some (-3))) as (out & flag & Hout & _ & Hflag & _ & Hiff).
  - vm_compute. reflexivity.
  - vm_compute. reflexivity.
  - exists out, flag. split; [exact Hout|]. split; [exact Hflag|].
    intros Hone. apply Hiff in Hone as (x & [= <-] & H0 & _).
    vm_compute in H0. by apply H0.
Defined.

Lemma derived_gdd_column `{NumpyMath} (df : DataFrame) :
  has_column df "T2M" = true →
  column (Process_and_normalize.compute_derived_metrics df) "GDD"
  = Process_and_normalize.gdd 10 <$> column df "T2M".
Proof.
  intros Ht. unfold Process_and_normalize.compute_derived_metrics.
  rewrite Ht. unfold Process_and_normalize.when.
  destruct (has_column df "RH2M"), (has_column df "PRECTOTCORR"),
    (has_column df "T2M_MAX"), (has_column df "T2M_MIN"); cbn [andb];
    repeat (rewrite column_set_column;
            first [rewrite decide_False by discriminate
                  |rewrite decide_True by reflexivity]);
    reflexivity.
Qed.

(** The degree-days column has a value on every day, never a negative
    one: above the base temperature of 10 it is the excess, at or below
    it is 0, and a day without a temperature gets 0 as well instead of a
    missing value. *)
Theorem gdd_never_missing `{NumpyMath} (df : DataFrame) (i : nat) (v : cell) :
  has_column df "T2M" = true →
  column df "T2M" !! i = Some v →
  ∃ g, column (Process_and_normalize.compute_derived_metrics df) "GDD" !! i
       = Some (Some g)
       ∧ 0 <= g
       ∧ (v = None → g = 0)
       ∧ (∀ x, v = Some x → 10 < x → g = x - 10)
       ∧ (∀ x, v = Some x → x <= 10 → g = 0).
Proof.
  intros Ht Hv. rewrite derived_gdd_column by exact Ht.
  rewrite list_lookup_fmap, Hv. cbn [fmap option_fmap option_map].
  destruct v as [x|]; cbn [Process_and_normalize.gdd].
  - unfold Num.Qlt_bool. destruct (Qle_bool (x - 10) 0) eqn:E; cbn [negb].
    + apply Qle_bool_iff in E. eexists. split; [reflexivity|].
      split; [discriminate|]. split; [discriminate|].
      split; [intros y [= ->] Hy; lra|reflexivity].
    + assert (Hlt : 0 < x - 10).
      { apply Qnot_le_lt. intros Hle. apply Qle_bool_iff in Hle. congruence. }
      eexists. split; [reflexivity|]. split; [lra|]. split; [discriminate|].
      split; [by intros y [= ->]|intros y [= ->] Hy; lra].
  - eexists. split; [reflexivity|]. split; [discriminate|].
    split; [reflexivity|]. split; intros x Hx; discriminate.
Qed.

Lemma gdd_never_missing_witness :
  ∃ g, column (Process_and_normalize.compute_derived_metrics (H := exp_stand_in)
                 df_outliers) "GDD" !! 2%nat = Some (Some g)
       ∧ g = 0.
Proof.
  destruct (gdd_never_missing (H := exp_stand_in) df_outliers 2 None)
    as (g & Hg & _ & Hnone & _).
  - vm_compute. reflexivity.
  - vm_compute. reflexivity.
  - exists g. split; [exact Hg|]. by apply Hnone.
Defined.

(** ** Rankings *)

Lemma insert_desc_Permutation {A : Type} (key : A → Q) (x : A) (l : list A) :
  Analys.insert_desc key x l ≡ₚ x :: l.
Proof.
  induction l as [|y l IH]; simpl; [reflexivity|].
  destruct (Qle_bool (key y) (key x)); [reflexivity|].
  rewrite IH. apply Permutation_swap.
Qed.

Lemma sort_values_desc_Permutation {A : Type} (key : A → Q) (l : list A) :
  Analys.sort_values_desc key l ≡ₚ l.
Proof.
  unfold Analys.sort_values_desc. induction l as [|x l IH]; simpl; [reflexivity|].
  by rewrite insert_desc_Permutation, IH.
Qed.

Lemma insert_desc_sorted {A : Type} (key : A → Q) (x : A) (l : list A) :
  StronglySorted (not_below key) l →
  StronglySorted (not_below key) (Analys.insert_desc key x l).
Proof.
  induction 1 as [|y l Hsorted IH Hall]; simpl.
  - repeat constructor.
  - destruct (Qle_bool (key y) (key x)) eqn:E.
    + apply Qle_bool_iff in E. constructor; [by constructor|].
      constructor; [exact E|].
      eapply Forall_impl; [exact Hall|]. unfold not_below. intros z Hz. lra.
    + assert (Hxy : key x <= key y).
      { apply Qlt_le_weak, Qnot_le_lt. intros Hle.
        apply Qle_bool_iff in Hle. congruence. }
      constructor; [exact IH|].
      rewrite insert_desc_Permutation. by constructor.
Qed.

Lemma sort_values_desc_sorted {A : Type} (key : A → Q) (l : list A) :
  StronglySorted (not_below key) (Analys.sort_values_desc key l).
Proof.
  unfold Analys.sort_values_desc. induction l as [|x l IH]; simpl; [constructor|].
  by apply insert_desc_sorted.
Qed.

Lemma strongly_sorted_lookup {A : Type} (R : relation A) (l : list A)
    (i j : nat) (x y : A) :
  StronglySorted R l → (i < j)%nat → l !! i = Some x → l !! j = Some y → R x y.
Proof.
  intros Hs. revert i j. induction Hs as [|z l Hs IH Hall]; intros i j Hij Hi Hj.
  { by rewrite lookup_nil in Hi. }
  destruct i as [|i], j as [|j]; simpl in *; try lia.
  - injection Hi as <-. rewrite Forall_forall in Hall.
    apply Hall. by eapply list_elem_of_lookup_2.
  - eapply IH; [|exact Hi|exact Hj]. lia.
Qed.

(** The baseline ranking lists every location of the table exactly as
    often as the table has it, by descending score: a location that
    stands earlier never has the smaller score, so the first [n] places
    hold [n] highest scores. *)
Theorem ranking_descending (acvi_df : list Analys.Row) :
  let sorted := Analys.sort_values_desc Analys.acvi_score acvi_df in
  Analys.ranking Analys.acvi_score Analys.location acvi_df
  = Analys.location <$> sorted
  ∧ sorted ≡ₚ acvi_df
  ∧ Analys.ranking Analys.acvi_score Analys.location acvi_df
    ≡ₚ Analys.location <$> acvi_df
  ∧ (∀ i j a b, (i < j)%nat → sorted !! i = Some a → sorted !! j = Some b →
                Analys.acvi_score b <= Analys.acvi_score a)
  ∧ ∀ n a b, a ∈ take n sorted → b ∈ drop n sorted →
             Analys.acvi_score b <= Analys.acvi_score a.
Proof.
  intros sorted.
  assert (Hperm : sorted ≡ₚ acvi_df) by apply sort_values_desc_Permutation.
  assert (Hdesc : ∀ i j a b, (i < j)%nat → sorted !! i = Some a →
                  sorted !! j = Some b →
                  Analys.acvi_score b <= Analys.acvi_score a).
  { intros i j a b Hij Ha Hb.
    exact (strongly_sorted_lookup _ sorted i j a b
             (sort_values_desc_sorted Analys.acvi_score acvi_df) Hij Ha Hb). }
  split; [reflexivity|]. split; [exact Hperm|]. split; [|split; [exact Hdesc|]].
  - unfold Analys.ranking. fold sorted. by rewrite Hperm.
  - intros n a b Ha Hb.
    apply list_elem_of_lookup in Ha as [i Hi], Hb as [j Hj].
    pose proof (lookup_lt_Some _ _ _ Hi) as Hlt. rewrite length_take in Hlt.
    rewrite lookup_take_lt in Hi by lia. rewrite lookup_drop in Hj.
    eapply (Hdesc i (n + j)%nat); [lia|exact Hi|exact Hj].
Qed.

Lemma size_list_to_set_le (l : list string) :
  (size (list_to_set l : gset string) ≤ length l)%nat.
Proof.
  induction l as [|x l IH]; [by rewrite list_to_set_nil, size_empty|].
  rewrite list_to_set_cons, size_union_alt, size_singleton. simpl.
  pose proof (subseteq_size (list_to_set l ∖ {[x]}) (list_to_set l : gset string)
                (subseteq_difference_l _ _ _ (reflexivity _))).
  lia.
Qed.

Lemma top_n_overlap_self (rank : list string) (n : nat) :
  NoDup rank → Analys._top_n_overlap rank rank n = Nat.min n (length rank).
Proof.
  intros Hnd. unfold Analys._top_n_overlap. rewrite (idemp_L (∩)).
  rewrite size_list_to_set by (eapply sublist_NoDup; [exact Hnd|apply sublist_take]).
  by rewrite length_take.
Qed.

(** The top-[n] overlap never exceeds [n] nor the number of locations of
    either ranking, does not depend on the order of its two arguments,
    and of a ranking without repetitions with itself it is the number of
    places compared. *)
Theorem top_n_overlap_bounds (rank1 rank2 : list string) (n : nat) :
  (Analys._top_n_overlap rank1 rank2 n ≤ n)%nat
  ∧ (Analys._top_n_overlap rank1 rank2 n ≤ length rank1)%nat
  ∧ (Analys._top_n_overlap rank1 rank2 n ≤ length rank2)%nat
  ∧ Analys._top_n_overlap rank1 rank2 n = Analys._top_n_overlap rank2 rank1 n
  ∧ (NoDup rank1 →
     Analys._top_n_overlap rank1 rank1 n = Nat.min n (length rank1)).
Proof.
  unfold Analys._top_n_overlap.
  set (top1 := list_to_set (take n rank1) : gset string).
  set (top2 := list_to_set (take n rank2) : gset string).
  assert (H1 : (size top1 ≤ Nat.min n (length rank1))%nat).
  { subst top1. etrans; [apply size_list_to_set_le|]. by rewrite length_take. }
  assert (H2 : (size top2 ≤ Nat.min n (length rank2))%nat).
  { subst top2. etrans; [apply size_list_to_set_le|]. by rewrite length_take. }
  assert (Hl : (size (top1 ∩ top2) ≤ size top1)%nat)
    by (apply subseteq_size, intersection_subseteq_l).
  assert (Hr : (size (top1 ∩ top2) ≤ size top2)%nat)
    by (apply subseteq_size, intersection_subseteq_r).
  repeat split; try lia.
  - by rewrite (comm_L (∩)).
  - intros Hnd. by apply top_n_overlap_self.
Qed.

(** ** Rank correlation *)

Lemma spearmanr_None (xs ys : list nat) :
  Analys.spearmanr xs ys = None ↔ (length xs < 2)%nat.
Proof.
  unfold Analys.spearmanr. destruct (Nat.ltb_spec (length xs) 2); split;
    try done; lia.
Qed.

Lemma ranking_Permutation {A : Type} (key : A → Q) (loc : A → string) (l : list A) :
  Analys.ranking key loc l ≡ₚ loc <$> l.
Proof. unfold Analys.ranking. by rewrite sort_values_desc_Permutation. Qed.

(** The rank correlation of two rankings is NaN exactly when they share
    fewer than two locations: [spearmanr] is then handed fewer than two
    ranks.  With two or more common locations it is a number. *)
Theorem ranking_correlation_properties (rank1 rank2 : list string) :
  let common : gset string := list_to_set rank1 ∩ list_to_set rank2 in
  (Analys._ranking_correlation rank1 rank2 = None ↔ (size common < 2)%nat)
  ∧ ((∃ rho, Analys._ranking_correlation rank1 rank2 = Some rho)
     ↔ (2 ≤ size common)%nat).
Proof.
  intros common.
  assert (Hnan : Analys._ranking_correlation rank1 rank2 = None
                 ↔ (size common < 2)%nat).
  { unfold Analys._ranking_correlation. fold common.
    rewrite spearmanr_None, length_fmap. reflexivity. }
  split; [exact Hnan|].
  destruct (Analys._ranking_correlation rank1 rank2) as [rho|] eqn:E.
  - split; [|by eexists]. intros _.
    destruct (decide (size common < 2)%nat) as [Hlt|]; [|lia].
    apply Hnan in Hlt. discriminate.
  - split; [by intros [rho [=]]|]. intros Hge.
    assert (size common < 2)%nat by by apply Hnan. lia.
Qed.

(** ** Monte Carlo trials *)





(** ** Variance inflation against the thresholds of the report *)

Lemma inverse_below (d k : Q) : 0 < d → (1 / d < k ↔ 1 < k * d).
Proof.
  intros Hd. split.
  - intros Hlt. apply (Qmult_lt_r _ _ d Hd) in Hlt.
    assert (E : 1 / d * d == 1) by (field; lra). lra.
  - intros Hlt. apply Qlt_shift_div_r; [exact Hd|exact Hlt].
Qed.

Lemma inverse_above (d k : Q) : 0 < d → (k < 1 / d ↔ k * d < 1).
Proof.
  intros Hd. split.
  - intros Hlt. apply (Qmult_lt_r _ _ d Hd) in Hlt.
    assert (E : 1 / d * d == 1) by (field; lra). lra.
  - intros Hlt. apply Qlt_shift_div_l; [exact Hd|exact Hlt].
Qed.

(** What the thresholds on the factor mean for R², on every table.
    When R² is a number, so is the factor: it is below 10 exactly when
    R² < 0.9 and below 5 exactly when R² < 0.8; it is always below
    10000; and 999.99 is not an upper bound, the factor exceeds it for
    every R² from 0.999 up to, but excluding, 0.9999.  When R² is NaN
    the factor is NaN, and R² is NaN as soon as fewer than two values
    were fitted (a table with one location). *)
Theorem vif_thresholds `{Sklearn} (df : list ComponentDict) (target_col : Component) :
  let r2 := Analys.r_squared df target_col in
  let vif := Analys._calculate_vif df target_col in
  (∀ x, r2 = Some x →
     ∃ v, vif = Some v
          ∧ (v < 10 ↔ x < 0.9)
          ∧ (v < 5 ↔ x < 0.8)
          ∧ v < 10000
          ∧ (0.999 <= x → x < 0.9999 → 999.99 < v))
  ∧ (r2 = Float.NaN → vif = Float.NaN)
  ∧ ((length (fit_predict (predictors df target_col) (observed df target_col))
      < 2)%nat → r2 = Float.NaN).
Proof.
  intros r2 vif. split; [|split].
  - intros x Hx. subst vif. unfold Analys._calculate_vif. fold r2. rewrite Hx.
    cbn [Float.geb].
    destruct (Qle_bool 0.9999 x) eqn:E.
    + apply Qle_bool_iff in E. eexists. split; [reflexivity|].
      split; [split; [discriminate|intros Hlt; lra]|].
      split; [split; [discriminate|intros Hlt; lra]|].
      split; [reflexivity|]. intros _ Hlt. lra.
    + assert (Hlt : x < 0.9999).
      { apply Qnot_le_lt. intros Hle. apply Qle_bool_iff in Hle. congruence. }
      assert (Hd : 0 < 1 - x) by lra.
      eexists. split; [reflexivity|].
      split; [rewrite (inverse_below _ 10 Hd); split; intros; lra|].
      split; [rewrite (inverse_below _ 5 Hd); split; intros; lra|].
      split; [apply (inverse_below _ 10000 Hd); lra|].
      intros Hge _. apply (inverse_above _ 999.99 Hd). lra.
  - intros Hnan. by apply vif_of_nan.
  - intros Hlen. subst r2. unfold Analys.r_squared.
    rewrite design_predictors. by apply r2_score_nan.
Qed.

(** ** The assessment of the multicollinearity test *)

Lemma Qlt_bool_iff (x y : Q) : Num.Qlt_bool x y = true ↔ x < y.
Proof.
  unfold Num.Qlt_bool. rewrite negb_true_iff. split.
  - intros E. apply Qnot_le_lt. intros Hle. apply Qle_bool_iff in Hle. congruence.
  - intros Hlt. destruct (Qle_bool y x) eqn:E; [|reflexivity].
    apply Qle_bool_iff in E. lra.
Qed.

(** Python's [max] with a NaN in first place is NaN. *)
Lemma float_max_nan (rest : list cell) : Float.max Float.NaN rest = Float.NaN.
Proof. unfold Float.max. induction rest as [|item rest IH]; [reflexivity|exact IH]. Qed.

Lemma float_max_below (first : cell) (rest : list cell) (k : Q) :
  Float.ltb (Float.max first rest) (Some k) = true
  ↔ (∃ t, first = Some t ∧ t < k)
    ∧ Forall (λ item, ∀ v, item = Some v → v < k) rest.
Proof.
  revert first. induction rest as [|item rest IH]; intros first.
  - cbn [Float.max foldl]. destruct first as [t|]; cbn [Float.ltb].
    + rewrite Qlt_bool_iff. split.
      * intros Ht. split; [eauto|constructor].
      * by intros [(t' & [= <-] & Ht) _].
    + split; [discriminate|]. by intros [(t & [=] & _) _].
  - change (Float.max first (item :: rest))
      with (Float.max (if Float.ltb first item then item else first) rest).
    rewrite IH, Forall_cons. destruct first as [t|], item as [v|]; cbn [Float.ltb].
    + destruct (Num.Qlt_bool t v) eqn:E.
      * apply Qlt_bool_iff in E. split.
        -- intros [(v' & [= <-] & Hv) Hrest].
           split; [exists t; split; [reflexivity|lra]|].
           split; [by intros ? [= <-]|exact Hrest].
        -- intros [(t' & [= <-] & Ht) [Hv Hrest]].
           split; [exists v; split; [reflexivity|by apply Hv]|exact Hrest].
      * assert (Hle : v <= t).
        { apply Qnot_lt_le. intros Hlt. apply Qlt_bool_iff in Hlt. congruence. }
        split.
        -- intros [(t' & [= <-] & Ht) Hrest].
           split; [eauto|]. split; [intros ? [= <-]; lra|exact Hrest].
        -- intros [Ht [_ Hrest]]. by split.
    + split.
      * intros [Ht Hrest]. split; [exact Ht|]. split; [by intros ? [=]|exact Hrest].
      * intros [Ht [_ Hrest]]. by split.
    + split; [by intros [(? & [=] & _) _]|by intros [(? & [=] & _) _]].
    + split; [by intros [(? & [=] & _) _]|by intros [(? & [=] & _) _]].
Qed.

Lemma max_value_below (d : FloatDict) (k : Q) :
  Float.ltb (Analys.max_value d) (Some k) = true ↔ max_below d k.
Proof.
  unfold Analys.max_value, max_below. rewrite float_max_below, !Forall_cons.
  destruct d as [c1 c2 c3 c4].
  cbn [f_temperature_volatility f_precipitation_volatility f_moisture_stress
       f_extreme_events]. split.
  - intros [(t & -> & Ht) (H2 & H3 & H4 & _)]. split; [eauto|].
    intros [] v; cbn [fget f_temperature_volatility f_precipitation_volatility
                      f_moisture_stress f_extreme_events];
      [by intros [= <-]|apply H2|apply H3|apply H4].
  - intros [[t ->] Hall]. split.
    + exists t. split; [reflexivity|]. by apply (Hall Temperature_volatility).
    + split; [apply (Hall Precipitation_volatility)|].
      split; [apply (Hall Moisture_stress)|].
      split; [apply (Hall Extreme_events)|constructor].
Qed.



Section AssessmentFacts.
Context `{PandasStats}.



End AssessmentFacts.

(** ** Regions *)

Lemma get_region_cases (location : string) :
  Analys._get_region location Analys.regions ∈ Analys.regions.*1
  ∨ Analys._get_region location Analys.regions = "Unknown".
Proof.
  unfold Analys._get_region.
  destruct (list_find _ Analys.regions) as [[i [region codes]]|] eqn:E;
    [left|right; reflexivity].
  apply list_find_Some in E as (Hi & _ & _).
  apply list_elem_of_fmap. exists (region, codes). split; [reflexivity|].
  by eapply list_elem_of_lookup_2.
Qed.

Lemma unknown_is_no_region : "Unknown" ∉ Analys.regions.*1.
Proof. apply (bool_decide_unpack _). vm_compute. reflexivity. Qed.

Lemma region_names_NoDup : NoDup Analys.regions.*1.
Proof. apply (bool_decide_unpack _). vm_compute. reflexivity. Qed.

Lemma filter_disjoint_length {A : Type} (P Q : A → Prop)
    `{∀ x, Decision (P x)} `{∀ x, Decision (Q x)} (l : list A) :
  (∀ x, P x → Q x → False) →
  (length (filter P l) + length (filter Q l)
   = length (filter (λ x, P x ∨ Q x) l))%nat.
Proof.
  intros Hdis. induction l as [|x l IH]; [reflexivity|].
  rewrite !filter_cons.
  destruct (decide (P x)) as [HP|HP], (decide (Q x)) as [HQ|HQ];
    destruct (decide (P x ∨ Q x)) as [HPQ|HPQ]; cbn [length];
    try lia; try tauto.
  exfalso. eauto.
Qed.

Lemma count_partition {A : Type} (g : A → string) (names : list string)
    (l : list A) :
  NoDup names →
  sum_list ((λ name, length (filter (λ x, g x = name) l)) <$> names)
  = length (filter (λ x, g x ∈ names) l).
Proof.
  intros Hnd. induction Hnd as [|name names Hnotin Hnd IH].
  - cbn. induction l as [|x l IHl]; [reflexivity|].
    rewrite filter_cons. destruct (decide (g x ∈ [])) as [Hin|_]; [|exact IHl].
    by apply elem_of_nil in Hin.
  - rewrite fmap_cons. cbn [sum_list_with id]. rewrite IH.
    rewrite (filter_disjoint_length (λ x, g x = name) (λ x, g x ∈ names)).
    + f_equal. apply list_filter_iff. intros x. rewrite elem_of_cons. tauto.
    + intros x -> Hin. contradiction.
Qed.

Lemma populated_groups {A : Type} (count : string → list A)
    (entries : list (string * list string)) :
  let groups :=
    omap (λ entry : string * list string,
        let scores := count entry.1 in
        if (length scores =? 0)%nat then None else Some (entry.1, scores))
      entries in
  sublist groups.*1 entries.*1
  ∧ Forall (λ rs, rs.2 = count rs.1 ∧ (0 < length rs.2)%nat) groups
  ∧ sum_list ((λ rs, length rs.2) <$> groups)
    = sum_list ((λ entry, length (count entry.1)) <$> entries).
Proof.
  induction entries as [|entry entries IH]; cbn zeta.
  - split; [constructor|]. split; [constructor|reflexivity].
  - cbn zeta in IH. destruct IH as (Hsub & Hall & Hsum).
    cbn [omap list_omap].
    destruct (Nat.eqb_spec (length (count entry.1)) 0) as [E|E].
    + split; [by apply sublist_cons|]. split; [exact Hall|].
      rewrite fmap_cons. cbn [sum_list_with id]. rewrite Hsum. lia.
    + rewrite !fmap_cons. cbn [fst snd sum_list_with id].
      split; [by apply sublist_skip|]. split.
      * constructor; [cbn [fst snd]; split; [reflexivity|lia]|exact Hall].
      * by rewrite Hsum.
Qed.

Section GeographyFacts.
Context `{PandasStats} `{ScipyAnova}.

(** The regional breakdown, whatever the table: the regions reported are
    regions of the table of regions, in its order, each with at least
    one location; [n] is the number of locations whose prefix belongs to
    the region; the counts add up to the number of locations whose
    prefix belongs to some region, so each such location is counted once
    and the others ("Unknown") in no region; and the analysis of
    variance is present exactly when two or more regions are
    reported. *)
Theorem regional_breakdown (acvi_df : list Analys.Row) :
  let stats := (Analys.test_geographical_robustness acvi_df).1 in
  let anova := (Analys.test_geographical_robustness acvi_df).2 in
  sublist stats.*1 Analys.regions.*1
  ∧ Forall (λ rs,
        Analys.n rs.2
        = length (filter (λ r, Analys._get_region (Analys.location r)
                                 Analys.regions = rs.1) acvi_df)
        ∧ (0 < Analys.n rs.2)%nat) stats
  ∧ sum_list ((λ rs, Analys.n rs.2) <$> stats)
    = length (filter (λ r, Analys._get_region (Analys.location r)
                             Analys.regions ≠ "Unknown") acvi_df)
  ∧ (is_Some anova ↔ (2 ≤ length stats)%nat).
Proof.
  intros stats anova. subst stats anova.
  unfold Analys.test_geographical_robustness. cbn [fst snd].
  destruct (populated_groups (Analys.region_scores acvi_df) Analys.regions)
    as (Hsub & Hall & Hsum).
  cbn zeta in Hsub, Hall, Hsum.
  set (groups := omap _ Analys.regions) in *.
  split; [|split; [|split]].
  - rewrite <- list_fmap_compose.
    erewrite (list_fmap_ext _ fst groups); [exact Hsub|]. by intros i [] _.
  - apply Forall_fmap. eapply Forall_impl; [exact Hall|].
    intros [region scores] [Hscores Hpos]. unfold compose.
    cbn [fst snd Analys.n] in *.
    split; [|exact Hpos]. rewrite Hscores. unfold Analys.region_scores.
    by rewrite length_fmap.
  - rewrite <- list_fmap_compose.
    erewrite (list_fmap_ext _ (λ rs, length rs.2) groups);
      [|by intros i [] _]. rewrite Hsum.
    rewrite (list_filter_iff _
      (λ r, Analys._get_region (Analys.location r) Analys.regions
            ∈ Analys.regions.*1) acvi_df).
    + rewrite <- (count_partition
        (λ r, Analys._get_region (Analys.location r) Analys.regions)
        _ acvi_df region_names_NoDup).
      rewrite <- list_fmap_compose. f_equal. apply list_fmap_ext.
      intros i entry _. unfold compose, Analys.region_scores.
      by rewrite length_fmap.
    + intros r. split.
      * intros Hne. by destruct (get_region_cases (Analys.location r)).
      * intros Hin Heq. rewrite Heq in Hin. by apply unknown_is_no_region.
  - assert (Hgroups : filter (λ scores : list Q, (0 < length scores)%nat)
                        groups.*2 = groups.*2).
    { clear Hsub Hsum. induction Hall as [|[region scores] rest [_ Hpos] _ IH];
        [reflexivity|].
      rewrite fmap_cons, filter_cons. cbn [snd] in *.
      destruct (decide (0 < length scores)%nat); [|lia]. by rewrite IH. }
    rewrite Hgroups, !length_fmap.
    destruct (Nat.leb_spec 2 (length groups)) as [Hge|Hlt].
    + destruct (f_oneway groups.*2). split; [intros _; exact Hge|eauto].
    + split; [intros [a Ha]; discriminate|lia].
Qed.

End GeographyFacts.

(** The lookup table of the validator agrees with the prefix rule of the
    analyzer: every location of the table has the text before its first
    underscore as its country, and that country belongs to a region, so
    no location of the table is "Unknown" in the regional breakdown. *)
Theorem table_matches_prefix_rule (location country : string) :
  Validate_acvi.location_to_country !! location = Some country →
  Analys.location_prefix location = country
  ∧ Analys._get_region location Analys.regions ≠ "Unknown".
Proof.
  intros Hlookup.
  apply elem_of_map_to_list in Hlookup.
  assert (Hall : Forall (λ entry : string * string,
              Analys.location_prefix entry.1 = entry.2
              ∧ Analys._get_region entry.1 Analys.regions ≠ "Unknown")
            (map_to_list Validate_acvi.location_to_country)).
  { apply (bool_decide_unpack _). vm_compute. reflexivity. }
  rewrite Forall_forall in Hall. exact (Hall _ Hlookup).
Qed.

Lemma table_matches_prefix_rule_witness :
  Analys.location_prefix "US_California_CentralValley" = "US".
Proof.
  refine (proj1 (table_matches_prefix_rule "US_California_CentralValley" "US" _)).
  reflexivity.
Defined.

(** ** The report *)

(** The summary line of the report.  It is reached only when the
    analysis of variance was run; the count is then at most 4, it is 4
    exactly when both mean correlations exceed 0.90, the largest factor
    (as Python's [max] reads it) is below 10 and the analysis of
    variance is not significant, and a mean correlation that is NaN
    fails its check. *)
Theorem report_summary (results : Analys.Checked) :
  (Analys.generate_comprehensive_report results = None
     ↔ Analys.geo_anova_test results = None)
  ∧ ∀ k, Analys.generate_comprehensive_report results = Some k →
      (k ≤ 4)%nat
      ∧ (k = 4%nat
         ↔ (∃ ws, Analys.ws_mean_correlation results = Some ws ∧ 0.90 < ws)
           ∧ max_below (Analys.mc_vif_scores results) 10
           ∧ (∃ mc, Analys.mc_mean_ranking_correlation results = Some mc
                    ∧ 0.90 < mc)
           ∧ ∃ a, Analys.geo_anova_test results = Some a
                  ∧ Analys.significant a = false)
      ∧ (Analys.ws_mean_correlation results = None
         ∨ Analys.mc_mean_ranking_correlation results = None → (k ≤ 3)%nat).
Proof.
  destruct results as [ws vif mc anova].
  unfold Analys.generate_comprehensive_report, Analys.checks_passed.
  cbn [Analys.geo_anova_test Analys.ws_mean_correlation Analys.mc_vif_scores
       Analys.mc_mean_ranking_correlation].
  split; [destruct anova; split; congruence|].
  intros k Hk. destruct anova as [a|]; [|discriminate]. injection Hk as <-.
  cbn [fmap option_fmap option_map default from_option id].
  assert (Hex : ∀ x : option Q,
            Analys.exceeds x 0.90 = true ↔ ∃ v, x = Some v ∧ 0.90 < v).
  { intros [v|]; cbn [Analys.exceeds].
    - rewrite Qlt_bool_iff. split; [eauto|]. by intros (? & [= <-] & ?).
    - split; [discriminate|]. by intros (? & [=] & _). }
  pose proof (Hex ws) as Hws. pose proof (Hex mc) as Hmc.
  pose proof (max_value_below vif 10) as Hvif.
  destruct (Analys.exceeds ws 0.90) eqn:Ews;
    destruct (Float.ltb (Analys.max_value vif) (Some 10)) eqn:Evif;
    destruct (Analys.exceeds mc 0.90) eqn:Emc;
    destruct (Analys.significant a) eqn:Ea; cbn [negb];
    (split; [lia|split; [split|]]);
    try (intros [E|E]; rewrite E in *; cbn [Analys.exceeds] in *;
         first [discriminate|lia]);
    try (intros E; discriminate E);
    try (intros (Hw & Hv & Hm & a' & [= <-] & Hs);
         first [congruence
               |apply Hws in Hw; discriminate
               |apply Hvif in Hv; discriminate
               |apply Hmc in Hm; discriminate]).
  intros _. split; [by apply Hws|]. split; [by apply Hvif|].
  split; [by apply Hmc|]. by exists a.
Qed.

Lemma report_summary_witness :
  Analys.generate_comprehensive_report
    (Analys.mkChecked (Some 0.95) (of_numbers unit_factors) (Some 0.95)
       (Some (Analys.mkAnovaTest 1 0.01 true))) = Some 3%nat
  ∧ (3 ≤ 4)%nat.
Proof.
  split; [reflexivity|].
  refine (proj1 (proj2 (report_summary
    (Analys.mkChecked (Some 0.95) (of_numbers unit_factors) (Some 0.95)
       (Some (Analys.mkAnovaTest 1 0.01 true)))) 3%nat _)).
  reflexivity.
Defined.

Section ReportFacts.
Context `{NumpyRandom} `{PandasStats} `{NumpyStd} `{ScipyAnova}.

Lemma single_region_no_anova (acvi_df : list Analys.Row) (region : string) :
  (∀ r, r ∈ acvi_df →
        Analys._get_region (Analys.location r) Analys.regions = region) →
  (Analys.test_geographical_robustness acvi_df).2 = None.
Proof.
  intros Hregion. unfold Analys.test_geographical_robustness. cbn [snd].
  destruct (populated_groups (Analys.region_scores acvi_df) Analys.regions)
    as (Hsub & Hall & _).
  cbn zeta in Hsub, Hall.
  set (groups := omap _ Analys.regions) in *.
  assert (Hnames : Forall (λ rs : string * list Q, rs.1 = region) groups).
  { eapply Forall_impl; [exact Hall|]. intros [name scores] [Hs Hpos].
    cbn [fst snd] in *. subst scores. unfold Analys.region_scores in Hpos.
    rewrite length_fmap in Hpos.
    destruct (filter _ acvi_df) as [|r rest] eqn:E; [cbn in Hpos; lia|].
    assert (Hin : r ∈ filter (λ r, Analys._get_region (Analys.location r)
                                     Analys.regions = name) acvi_df)
      by (rewrite E; left).
    apply list_elem_of_filter in Hin as [Hname Hin].
    rewrite <- Hname. by apply Hregion. }
  assert (Hnd : NoDup groups.*1)
    by (eapply sublist_NoDup; [exact region_names_NoDup|exact Hsub]).
  assert (Hlen : (length groups ≤ 1)%nat).
  { destruct groups as [|[n1 s1] [|[n2 s2] rest]]; cbn [length]; try lia.
    apply Forall_cons in Hnames as [E1 Hnames].
    apply Forall_cons in Hnames as [E2 _]. cbn [fst] in E1, E2.
    rewrite !fmap_cons in Hnd. cbn [fst] in Hnd.
    apply NoDup_cons in Hnd as [Hnotin _]. exfalso. apply Hnotin.
    rewrite E1, E2. left. }
  pose proof (length_filter (λ scores : list Q, (0 < length scores)%nat)
                groups.*2) as Hle.
  rewrite length_fmap in Hle.
  destruct (Nat.leb_spec 2 (length (filter (λ scores : list Q,
              (0 < length scores)%nat) groups.*2))) as [Hge|_];
    [lia|reflexivity].
Qed.

(** When every location of the table falls in one region (or in none:
    "Unknown"), the report of the full analysis does not reach its
    summary line, whatever the generator state and the other results:
    the analysis of variance was not run, and reading its p-value
    raises KeyError. *)
Theorem report_needs_two_regions (sklearn : option Sklearn)
    (acvi_df : list Analys.Row) (region : string) (g : RandomState) :
  (∀ r, r ∈ acvi_df →
        Analys._get_region (Analys.location r) Analys.regions = region) →
  Analys.generate_comprehensive_report
    (Analys.run_full_analysis sklearn acvi_df g).1 = None.
Proof.
  intros Hregion. unfold Analys.run_full_analysis.
  unfold mbind, Rand_bind, mret, Rand_ret.
  destruct (Analys.test_weight_sensitivity acvi_df g) as [ws g1].
  destruct (Analys.monte_carlo_simulation acvi_df 1000 g1) as [mc g2].
  cbn [fst]. unfold Analys.generate_comprehensive_report.
  cbn [Analys.geo_anova_test].
  by rewrite (single_region_no_anova acvi_df region Hregion).
Qed.

End ReportFacts.

Lemma report_needs_two_regions_witness :
  Analys.generate_comprehensive_report
    (Analys.run_full_analysis (H := lcg) (H0 := constant_columns)
       (H1 := zero_deviation) (H2 := no_group_effect)
       None ukrainian_table 0%Z).1 = None.
Proof.
  refine (report_needs_two_regions (H := lcg) (H0 := constant_columns)
            (H1 := zero_deviation) (H2 := no_group_effect)
            None ukrainian_table "Europe" 0%Z _).
  intros r Hr. unfold ukrainian_table in Hr.
  apply elem_of_cons in Hr as [->|Hr]; [reflexivity|].
  apply elem_of_cons in Hr as [->|Hr]; [reflexivity|].
  by apply elem_of_nil in Hr.
Defined.

(** ** Country means and the join with the yield table *)

Lemma omap_filter_is_Some {A B : Type} (f : A → option B) (l : list A) :
  omap f (filter (λ x, is_Some (f x)) l) = omap f l.
Proof.
  induction l as [|x l IH]; [reflexivity|].
  rewrite filter_cons. destruct (decide (is_Some (f x))) as [Hs|Hn].
  - cbn [omap list_omap]. by rewrite IH.
  - cbn [omap list_omap]. rewrite IH.
    destruct (f x) eqn:E; [|reflexivity]. exfalso. apply Hn. eauto.
Qed.

(** Locations that the lookup table does not know are ignored: removing
    them from the score table first gives the same country rows. *)
Theorem unmapped_locations_ignored (acvi_df : list Analys.Row) :
  Validate_acvi.aggregate_location_acvi
    (filter (λ r, is_Some (Validate_acvi.location_to_country
                             !! Analys.location r)) acvi_df)
  = Validate_acvi.aggregate_location_acvi acvi_df.
Proof.
  unfold Validate_acvi.aggregate_location_acvi, Validate_acvi.countries.
  rewrite (omap_filter_is_Some
    (λ r, Validate_acvi.location_to_country !! Analys.location r)).
  apply list_fmap_ext. intros i c _. unfold Validate_acvi.members.
  rewrite list_filter_filter_l; [reflexivity|].
  intros r ->. eauto.
Qed.

Lemma filter_key_length {A : Type} (f : A → string) (k : string) (l : list A) :
  NoDup (f <$> l) →
  length (filter (λ r, f r = k) l)
  = if decide (k ∈ f <$> l) then 1%nat else 0%nat.
Proof.
  induction l as [|x l IH]; [reflexivity|].
  rewrite fmap_cons, NoDup_cons. intros [Hnotin Hnd].
  rewrite filter_cons.
  destruct (decide (f x = k)) as [<-|Hne]; cbn [length]; rewrite (IH Hnd).
  - destruct (decide (f x ∈ f <$> l)); [contradiction|].
    destruct (decide (f x ∈ f x :: (f <$> l))) as [_|Hn]; [reflexivity|].
    exfalso. apply Hn. left.
  - destruct (decide (k ∈ f <$> l)) as [Hin|Hnin].
    + destruct (decide (k ∈ f x :: (f <$> l))) as [_|Hn]; [reflexivity|].
      exfalso. apply Hn. by right.
    + destruct (decide (k ∈ f x :: (f <$> l))) as [Hin|_]; [|reflexivity].
      apply elem_of_cons in Hin as [->|Hin]; [congruence|contradiction].
Qed.

Lemma merge_length (left : list Validate_acvi.CountryRow)
    (right : list Validate_acvi.YieldRow) :
  NoDup (Validate_acvi.y_country <$> right) →
  length (Validate_acvi.merge left right)
  = length (filter (λ row, Validate_acvi.country row
                           ∈ Validate_acvi.y_country <$> right) left).
Proof.
  intros Hnd. unfold Validate_acvi.merge.
  induction left as [|l left IH]; [reflexivity|].
  cbn [mbind list_bind]. rewrite length_app, length_fmap, IH.
  rewrite (filter_key_length Validate_acvi.y_country _ right Hnd).
  rewrite filter_cons.
  destruct (decide (Validate_acvi.country l ∈ Validate_acvi.y_country <$> right));
    reflexivity.
Qed.

Section CropFacts.
Context `{Scipy}.

Lemma stored_result (acvi_df : list Analys.Row)
    (fao_df : list Validate_acvi.YieldRow) (crop_name : string)
    (res : Validate_acvi.CropResult) :
  (Validate_acvi.calculate_correlations acvi_df fao_df).1 !! crop_name = Some res →
  let merged := Validate_acvi.merge (Validate_acvi.aggregate_location_acvi acvi_df)
                  (filter (λ r, Validate_acvi.crop r = crop_name) fao_df) in
  (crop_name = "wheat" ∨ crop_name = "maize")
  ∧ (3 ≤ length merged)%nat
  ∧ Validate_acvi.data res = merged.
Proof.
  unfold Validate_acvi.calculate_correlations.
  set (country_acvi := Validate_acvi.aggregate_location_acvi acvi_df).
  cbn [foldl].
  pose proof (correlate_crop_spec country_acvi fao_df
                (∅, [Validate_acvi.calculating]) "wheat") as Hw.
  cbn zeta in Hw.
  destruct (Validate_acvi.correlate_crop country_acvi fao_df
              (∅, [Validate_acvi.calculating]) "wheat") as [res1 out1].
  pose proof (correlate_crop_spec country_acvi fao_df (res1, out1) "maize") as Hm.
  cbn zeta in Hm.
  destruct (Validate_acvi.correlate_crop country_acvi fao_df (res1, out1) "maize")
    as [res2 out2].
  cbn [fst snd] in *. intros Hres.
  destruct Hm as [(_ & -> & _)|(Hgem & (resm & -> & Hdm & _) & _)];
    destruct Hw as [(_ & -> & _)|(Hgew & (resw & -> & Hdw & _) & _)].
  - by rewrite lookup_empty in Hres.
  - apply lookup_insert_Some in Hres as [[<- <-]|[_ Hres]];
      [|by rewrite lookup_empty in Hres].
    split; [by left|]. split; [exact Hgew|exact Hdw].
  - apply lookup_insert_Some in Hres as [[<- <-]|[_ Hres]];
      [|by rewrite lookup_empty in Hres].
    split; [by right|]. split; [exact Hgem|exact Hdm].
  - apply lookup_insert_Some in Hres as [[<- <-]|[_ Hres]].
    + split; [by right|]. split; [exact Hgem|exact Hdm].
    + apply lookup_insert_Some in Hres as [[<- <-]|[_ Hres]];
        [|by rewrite lookup_empty in Hres].
      split; [by left|]. split; [exact Hgew|exact Hdw].
Qed.

(** Only wheat and maize are ever stored, and with one yield row per
    country for the crop, a stored crop means that at least three
    countries of the score table have a yield row for it; the stored
    rows are one per such country. *)
Theorem correlated_crop_countries (acvi_df : list Analys.Row)
    (fao_df : list Validate_acvi.YieldRow) (crop_name : string) :
  let crop_data := filter (λ r, Validate_acvi.crop r = crop_name) fao_df in
  let results := (Validate_acvi.calculate_correlations acvi_df fao_df).1 in
  let shared :=
    filter (λ row, Validate_acvi.country row
                   ∈ Validate_acvi.y_country <$> crop_data)
      (Validate_acvi.aggregate_location_acvi acvi_df) in
  NoDup (Validate_acvi.y_country <$> crop_data) →
  is_Some (results !! crop_name) →
  (crop_name = "wheat" ∨ crop_name = "maize")
  ∧ (3 ≤ length shared)%nat
  ∧ ∀ res, results !! crop_name = Some res →
           length (Validate_acvi.data res) = length shared
           ∧ fst <$> Validate_acvi.data res = shared.
Proof.
  intros crop_data results shared Hnd [res Hres].
  destruct (stored_result acvi_df fao_df crop_name res Hres)
    as (Hcrop & Hge & Hdata).
  fold crop_data in Hge, Hdata.
  rewrite (merge_length _ crop_data Hnd) in Hge. fold shared in Hge.
  split; [exact Hcrop|]. split; [exact Hge|].
  intros res' Hres'. assert (res' = res) as -> by congruence.
  rewrite Hdata. split; [by apply merge_length|].
  subst shared. unfold Validate_acvi.merge.
  generalize (Validate_acvi.aggregate_location_acvi acvi_df). intros left.
  induction left as [|l left IH]; [reflexivity|].
  cbn [mbind list_bind]. rewrite fmap_app, IH, filter_cons.
  rewrite <- list_fmap_compose.
  pose proof (filter_key_length Validate_acvi.y_country
                (Validate_acvi.country l) crop_data Hnd) as Hlen.
  destruct (decide (Validate_acvi.country l
                    ∈ Validate_acvi.y_country <$> crop_data)).
  - destruct (filter _ crop_data) as [|r [|r' rest]]; try discriminate Hlen.
    reflexivity.
  - destruct (filter _ crop_data) as [|r rest]; [reflexivity|discriminate Hlen].
Qed.

End CropFacts.

Lemma correlated_crop_countries_witness :
  (3 ≤ length
         (filter (λ row, Validate_acvi.country row
                         ∈ Validate_acvi.y_country
                             <$> filter (λ r, Validate_acvi.crop r = "wheat")
                                   yield_table)
            (Validate_acvi.aggregate_location_acvi score_table_3)))%nat.
Proof.
  refine (proj1 (proj2 (correlated_crop_countries (H := signed_r_squared)
            score_table_3 yield_table "wheat" _ _))).
  - apply (bool_decide_unpack _). vm_compute. reflexivity.
  - vm_compute. eexists. reflexivity.
Defined.

(** ** Normalization parameters and normalized columns *)

Lemma pooled_outside (dfs : list DataFrame) (param : string) :
  param ∉ (⋃ ((λ df, dom (columns df)) <$> dfs) : gset string) →
  (dfs ≫= λ df, if has_column df param
                then Process_and_normalize.dropna (column df param) else [])
  = [].
Proof.
  induction dfs as [|df dfs IH]; [reflexivity|].
  rewrite fmap_cons. cbn [union_list foldr]. rewrite not_elem_of_union.
  intros [Hdf Hrest]. cbn [mbind list_bind]. rewrite (IH Hrest).
  unfold has_column. rewrite bool_decide_eq_false_2; [reflexivity|].
  intros Hsome. apply Hdf. by apply elem_of_dom.
Qed.

Section NormalizationFacts.
Context `{NumpyStd}.

(** A parameter gets normalization statistics exactly when some table
    has a value in a column of that name, and they are the statistics of
    all those values pooled; a column that is missing or empty
    everywhere gets no entry. *)
Theorem global_params_entries (all_data : gmap string DataFrame)
    (param : string) (stats : Process_and_normalize.ParamStats) :
  Process_and_normalize.compute_global_normalization_params all_data !! param
    = Some stats
  ↔ Process_and_normalize.pooled_values all_data param ≠ []
    ∧ stats = Process_and_normalize.param_stats
                (Process_and_normalize.pooled_values all_data param).
Proof.
  unfold Process_and_normalize.compute_global_normalization_params.
  set (all_params := ⋃ _ : gset string).
  set (expected := λ (X : gset string) (p : string),
    if decide (p ∈ X)
    then if (length (Process_and_normalize.pooled_values all_data p) =? 0)%nat
         then None
         else Some (Process_and_normalize.param_stats
                      (Process_and_normalize.pooled_values all_data p))
    else None).
  match goal with |- context [set_fold ?f _ _] => set (step := f) end.
  assert (Hfold : ∀ (X : gset string) p,
            set_fold step ∅ X !! p = expected X p).
  { intros X.
    apply (set_fold_ind_L
      (λ (r : gmap string Process_and_normalize.ParamStats) (X : gset string),
         ∀ p, r !! p = expected X p)); subst expected step; cbn beta zeta.
    - intros p. rewrite lookup_empty. destruct (decide (p ∈ ∅)) as [Hin|_];
        [|reflexivity]. by apply not_elem_of_empty in Hin.
    - intros x Y r Hx IH p. specialize (IH p).
      destruct (decide (p = x)) as [->|Hne].
      + destruct (decide (x ∈ Y)); [contradiction|].
        destruct (decide (x ∈ {[x]} ∪ Y)) as [_|Hn];
          [|exfalso; apply Hn, elem_of_union_l, elem_of_singleton; reflexivity].
        destruct (length (Process_and_normalize.pooled_values all_data x)
                  =? 0)%nat; [exact IH|apply lookup_insert_eq].
      + assert (Hiff : p ∈ {[x]} ∪ Y ↔ p ∈ Y).
        { rewrite elem_of_union, elem_of_singleton. tauto. }
        assert (Hr : (if (length (Process_and_normalize.pooled_values all_data x)
                          =? 0)%nat then r
                      else <[x := Process_and_normalize.param_stats
                                    (Process_and_normalize.pooled_values all_data x)]>
                             r) !! p = r !! p).
        { destruct (length (Process_and_normalize.pooled_values all_data x)
                    =? 0)%nat; [reflexivity|by apply lookup_insert_ne]. }
        rewrite Hr, IH.
        destruct (decide (p ∈ Y)), (decide (p ∈ {[x]} ∪ Y)); tauto. }
  rewrite (Hfold all_params param). subst expected. cbn beta.
  destruct (decide (param ∈ all_params)) as [Hin|Hout].
  - destruct (Process_and_normalize.pooled_values all_data param) as [|v vs] eqn:E;
      cbn [length Nat.eqb].
    + split; [discriminate|]. by intros [? _].
    + split; [intros [= <-]; done|]. by intros [_ ->].
  - assert (E : Process_and_normalize.pooled_values all_data param = [])
      by (by apply pooled_outside).
    rewrite E. split; [discriminate|]. by intros [? _].
Qed.

End NormalizationFacts.

(** [normalize_data] only adds or overwrites columns named after a
    column of the table with the suffix [_norm]: the dates and every
    column whose name is not of that form are as in the table that was
    passed in. *)
Theorem normalize_data_keeps_columns
    (normalization_params : gmap string Process_and_normalize.ParamStats)
    (column_order : list string) (df : DataFrame)
    (method : Process_and_normalize.Method) (name : string) :
  (∀ param, param ∈ column_order → name ≠ param +:+ "_norm") →
  let df_norm := Process_and_normalize.normalize_data normalization_params
                   column_order df method in
  index df_norm = index df ∧ columns df_norm !! name = columns df !! name.
Proof.
  unfold Process_and_normalize.normalize_data.
  revert df. induction column_order as [|param rest IH]; intros df Hname;
    [done|].
  cbn [foldl].
  set (df' := match normalization_params !! param with
              | Some _ => _ | None => _ end).
  assert (Hstep : index df' = index df ∧ columns df' !! name = columns df !! name).
  { subst df'. destruct (normalization_params !! param) as [params|]; [|done].
    destruct (Process_and_normalize.normalized_cells _ _ _) as [cells|]; [|done].
    cbn [set_column index columns]. split; [reflexivity|].
    apply lookup_insert_ne. intros E. apply (Hname param); [left|done]. }
  destruct Hstep as [Hi Hc]. cbn zeta in IH.
  destruct (IH df') as [Hi' Hc'].
  - intros p Hp. apply Hname. by right.
  - by rewrite Hi', Hc', Hi, Hc.
Qed.

Lemma normalize_data_keeps_columns_witness :
  columns (Process_and_normalize.normalize_data sample_params ["PRECTOTCORR"]
             df_rain Process_and_normalize.Minmax) !! "PRECTOTCORR"
  = columns df_rain !! "PRECTOTCORR".
Proof.
  refine (proj2 (normalize_data_keeps_columns sample_params ["PRECTOTCORR"]
                   df_rain Process_and_normalize.Minmax "PRECTOTCORR" _)).
  intros param Hparam. apply list_elem_of_singleton in Hparam as ->. discriminate.
Defined.

Lemma minimum_le (l : list Q) (x : Q) : x ∈ l → Num.minimum l <= x.
Proof.
  destruct l as [|y l]; [intros Hin; by apply elem_of_nil in Hin|].
  cbn [Num.minimum]. revert y. induction l as [|z l IH]; intros y Hin.
  - apply list_elem_of_singleton in Hin as ->. cbn. apply Qle_refl.
  - cbn [foldr]. apply elem_of_cons in Hin as [->|Hin].
    + eapply Qle_trans; [apply Q.le_min_r|]. apply (IH y). left.
    + apply elem_of_cons in Hin as [->|Hin]; [apply Q.le_min_l|].
      eapply Qle_trans; [apply Q.le_min_r|]. apply (IH y). by right.
Qed.

Lemma maximum_ge (l : list Q) (x : Q) : x ∈ l → x <= Num.maximum l.
Proof.
  destruct l as [|y l]; [intros Hin; by apply elem_of_nil in Hin|].
  cbn [Num.maximum]. revert y. induction l as [|z l IH]; intros y Hin.
  - apply list_elem_of_singleton in Hin as ->. cbn. apply Qle_refl.
  - cbn [foldr]. apply elem_of_cons in Hin as [->|Hin].
    + eapply Qle_trans; [|apply Q.le_max_r]. apply (IH y). left.
    + apply elem_of_cons in Hin as [->|Hin]; [apply Q.le_max_l|].
      eapply Qle_trans; [|apply Q.le_max_r]. apply (IH y). by right.
Qed.

(** Min-max normalization against the pooled statistics: when a new
    column is written, it has a cell for every cell of the column, a
    missing cell stays missing, and a value that belongs to the pool is
    mapped into [0, 1]. *)
Theorem minmax_unit_interval `{NumpyStd} (all_values : list Q)
    (col cells : list cell) :
  (∀ x, Some x ∈ col → x ∈ all_values) →
  Process_and_normalize.normalized_cells Process_and_normalize.Minmax
    (Process_and_normalize.param_stats all_values) col = Some cells →
  Forall2 (unit_or_missing) col cells.
Proof.
  intros Hpool. cbn [Process_and_normalize.normalized_cells
    Process_and_normalize.param_stats Process_and_normalize.p_max
    Process_and_normalize.p_min].
  destruct (Num.Qlt_bool 0 _) eqn:E; [|discriminate]. intros [= <-].
  apply Qlt_bool_iff in E.
  apply Forall2_fmap_r, Forall_Forall2_diag, Forall_forall.
  intros [x|] Hx; [|exact I]. cbn [Process_and_normalize.on_cell unit_or_missing].
  pose proof (minimum_le all_values x (Hpool x Hx)).
  pose proof (maximum_ge all_values x (Hpool x Hx)).
  split.
  - apply Qle_shift_div_l; [exact E|]. lra.
  - apply Qle_shift_div_r; [exact E|]. lra.
Qed.

Lemma minmax_unit_interval_witness :
  Forall2 unit_or_missing [Some 2; None; Some 5]
    (default []
       (Process_and_normalize.normalized_cells
          Process_and_normalize.Minmax
          (Process_and_normalize.param_stats (H := zero_deviation) [2; 6; 5])
          [Some 2; None; Some 5])).
Proof.
  refine (minmax_unit_interval (H := zero_deviation) [2; 6; 5]
            [Some 2; None; Some 5] _ _ _).
  - intros x Hx.
    repeat (apply elem_of_cons in Hx as [Hx|Hx];
            [try discriminate Hx; injection Hx as ->;
             repeat constructor|]).
    by apply elem_of_nil in Hx.
  - reflexivity.
Defined.

(** ** The summary of the weight-sensitivity test *)

Lemma top_n_overlap_le (rank1 rank2 : list string) (n : nat) :
  (Analys._top_n_overlap rank1 rank2 n ≤ n)%nat.
Proof.
  unfold Analys._top_n_overlap.
  etrans; [apply subseteq_size, intersection_subseteq_l|].
  etrans; [apply size_list_to_set_le|]. rewrite length_take. lia.
Qed.

Lemma count_above_le (bound : Q) (l : list (option Q)) :
  (Analys.count_above bound l ≤ length l)%nat.
Proof. unfold Analys.count_above. apply List.filter_length_le. Qed.

Lemma count_above_all (bound : Q) (l : list (option Q)) :
  Analys.count_above bound l = length l →
  ∃ values, Analys.all_present l = Some values
            ∧ length values = length l
            ∧ Forall (λ v, bound < v) values.
Proof.
  unfold Analys.count_above, Analys.all_present.
  induction l as [|x l IH]; intros Hcount.
  - exists []. split; [reflexivity|]. split; [reflexivity|constructor].
  - cbn [List.filter] in Hcount.
    pose proof (List.filter_length_le (λ r, Analys.exceeds r bound) l) as Hle.
    destruct (Analys.exceeds x bound) eqn:E; cbn [length] in Hcount; [|lia].
    destruct IH as (values & Hvalues & Hlen & Hall); [lia|].
    destruct x as [v|]; [|discriminate]. cbn [Analys.exceeds] in E.
    apply Qlt_bool_iff in E. exists (v :: values).
    split; [|split; [cbn [length]; lia|by constructor]].
    cbn [mapM]. rewrite Hvalues. reflexivity.
Qed.

Lemma minimum_above (l : list Q) (bound : Q) :
  l ≠ [] → Forall (λ v, bound < v) l → bound < Num.minimum l.
Proof.
  destruct l as [|x l]; [done|]. intros _ Hall.
  apply Forall_cons in Hall as [Hx Hall]. cbn [Num.minimum].
  induction Hall as [|y l Hy _ IH]; [exact Hx|].
  cbn [foldr]. by apply Q.min_glb_lt.
Qed.

Section WeightSensitivityFacts.
Context `{NumpyRandom} `{PandasStats} `{NumpyStd}.

Lemma scenario_ids (acvi_df : list Analys.Row) (original_ranking : list string)
    (weight_scenarios : list ComponentDict) (k : nat) :
  Analys.scenario_id
    <$> imap (λ i weights,
           Analys.scenario_result acvi_df original_ranking (k + i) weights)
          weight_scenarios
  = seq k (length weight_scenarios).
Proof.
  revert k. induction weight_scenarios as [|w rest IH]; intros k; [reflexivity|].
  rewrite imap_cons, fmap_cons. cbn [length seq Analys.scenario_result
    Analys.scenario_id]. rewrite Nat.add_0_r. f_equal.
  rewrite <- (IH (S k)). f_equal. apply imap_ext. intros i w' _.
  unfold compose. f_equal. lia.
Qed.

Lemma weight_scenarios_length (g : RandomState) :
  length (Analys._generate_weight_scenarios g).1 = 17%nat.
Proof.
  unfold Analys._generate_weight_scenarios, reseed.
  unfold mbind, Rand_bind, mret, Rand_ret.
  pose proof (repeatM_length 6
    (Analys.perturbed_weights <$> Analys.draw_factors 0.8 1.2)
    (np_random_seed 42)) as Hlen.
  destruct (repeatM 6 _ (np_random_seed 42)) as [random g']. cbn [fst] in *.
  rewrite !length_app, Hlen. reflexivity.
Qed.

(** The weight-sensitivity test, from any generator state: its 17
    results are numbered 1 to 17 and no overlap exceeds 10; at most 17
    scenarios are counted above 0.9, and when all 17 are, the minimum
    and the mean of the summary are numbers and the minimum is above
    0.9; the mean is NaN exactly when the rank correlation of some
    scenario is. *)
Theorem weight_sensitivity_summary (acvi_df : list Analys.Row)
    (g : RandomState) :
  let weight_variations := (Analys.test_weight_sensitivity acvi_df g).1.1 in
  let ranking_stability := (Analys.test_weight_sensitivity acvi_df g).1.2 in
  Analys.scenario_id <$> weight_variations = seq 1 17
  ∧ Forall (λ v, (Analys.s_top_10_overlap v ≤ 10)%nat) weight_variations
  ∧ (Analys.scenarios_above_0_9 ranking_stability ≤ 17)%nat
  ∧ (Analys.scenarios_above_0_9 ranking_stability = 17%nat →
     ∃ lowest mean,
       Analys.min_correlation ranking_stability = Some lowest
       ∧ Analys.mean_correlation ranking_stability = Some mean
       ∧ 0.9 < lowest)
  ∧ (Analys.mean_correlation ranking_stability = None
     ↔ Exists (λ v, Analys.s_ranking_correlation v = None) weight_variations).
Proof.
  intros weight_variations ranking_stability.
  subst weight_variations ranking_stability.
  unfold Analys.test_weight_sensitivity, mbind, Rand_bind.
  pose proof (weight_scenarios_length g) as Hlen.
  destruct (Analys._generate_weight_scenarios g) as [weight_scenarios g'].
  cbn [fst] in Hlen. unfold mret, Rand_ret. cbn [fst snd].
  set (original_ranking := Analys.ranking Analys.acvi_score Analys.location acvi_df).
  set (weight_variations := imap _ weight_scenarios).
  set (correlations := Analys.s_ranking_correlation <$> weight_variations).
  assert (Hvar : length weight_variations = 17%nat)
    by (subst weight_variations; by rewrite length_imap).
  assert (Hcorr : length correlations = 17%nat)
    by (subst correlations; by rewrite length_fmap).
  cbn [Analys.ranking_stability Analys.scenarios_above_0_9
       Analys.min_correlation Analys.mean_correlation].
  split; [|split; [|split; [|split]]].
  - rewrite <- Hlen. subst weight_variations.
    exact (scenario_ids acvi_df original_ranking weight_scenarios 1).
  - apply Forall_forall. intros v Hv. subst weight_variations.
    apply list_elem_of_lookup in Hv as [i Hi]. rewrite list_lookup_imap in Hi.
    destruct (weight_scenarios !! i) as [w|]; [|discriminate].
    injection Hi as <-. cbn [Analys.scenario_result Analys.s_top_10_overlap].
    apply top_n_overlap_le.
  - rewrite <- Hcorr. apply count_above_le.
  - intros Hall. rewrite <- Hcorr in Hall.
    destruct (count_above_all 0.9 correlations Hall)
      as (values & Hvalues & Hlength & Habove).
    assert (Hne : values ≠ []).
    { intros ->. cbn [length] in Hlength. lia. }
    unfold Analys.nan_min, Analys.nan_mean. rewrite Hvalues.
    cbn [fmap option_fmap option_map].
    exists (Num.minimum values), (Num.mean values).
    split; [reflexivity|]. split; [reflexivity|].
    by apply minimum_above.
  - unfold Analys.nan_mean, Analys.all_present.
    rewrite fmap_None, mapM_None. subst correlations.
    rewrite Exists_fmap. reflexivity.
Qed.

End WeightSensitivityFacts.
